(** * Metadata-health statistics engine of datacite-utils

    A shallow embedding of
    [process_data_file_for_metadata_health_api.py]: the schema tables of
    [StatsContainer], the empty-tree factory, the record updater and the
    tree merger of [StatsUpdater], the clean-up step and the reduction
    performed by [ProviderClientManager] and [DataCiteDataFileProcessor.run].

    Modelling conventions.
    - Python [int] is [Z].  A Python [float] that is produced by one true
      division of two integers is represented by the exact quotient, a
      reduced fraction in [Q]; [0.0] is [0#1].
    - Python dictionaries whose key set is fixed by the code (a field's
      statistics, a tree, a stats object) are records; dictionaries indexed
      by data (fields by name, subfields by name, value counters, resource
      types, providers, clients) are [gmap]s.  The class-level schema tables
      are association lists, because the updater iterates them in source
      order and that order decides where an exception interrupts a record.
    - A decoded JSON document is a [json] value; JSON numbers are integers.
    - In-place mutation that can be interrupted by an exception is a state
      monad whose state survives a raise. *)

From Stdlib Require Import ZArith QArith Qround Lia.
From stdpp Require Import gmap strings list fin_maps.

Open Scope Z_scope.
Open Scope string_scope.

(** ** Decoded JSON values and the Python operations used on them *)

#[warnings="-register-all"]
Inductive json : Type :=
| JNull
| JBool (b : bool)
| JNum (n : Z)
| JStr (s : string)
| JList (l : list json)
| JObj (kv : list (string * json)).

(** Lookup in a dictionary literal / decoded object (keys are unique). *)
Fixpoint assoc {V : Type} (k : string) (l : list (string * V)) : option V :=
  match l with
  | [] => None
  | (k', v) :: r => if String.eqb k k' then Some v else assoc k r
  end.

(** Python truthiness: [bool(v)]. *)
Definition truthy (v : json) : bool :=
  match v with
  | JNull => false
  | JBool b => b
  | JNum n => negb (Z.eqb n 0)
  | JStr s => negb (String.eqb s "")
  | JList l => match l with [] => false | _ => true end
  | JObj kv => match kv with [] => false | _ => true end
  end.

Definition is_list (v : json) : bool :=
  match v with JList _ => true | _ => false end.

Definition is_dict (v : json) : bool :=
  match v with JObj _ => true | _ => false end.

(** ** Exceptions and interruptible in-place mutation *)

Inductive exn : Type := KeyError | TypeError | AttributeError.

Inductive outcome (A : Type) : Type :=
| Ok (a : A)
| Raise (e : exn).
Arguments Ok {A} a.
Arguments Raise {A} e.

(** A computation over a mutable object of type [S]: the object as it is
    left behind, and either a result or the exception that escaped. *)
Definition M (S A : Type) : Type := S → S * outcome A.

Definition ret {S A : Type} (a : A) : M S A := λ s, (s, Ok a).

Definition raise {S A : Type} (e : exn) : M S A := λ s, (s, Raise e).

Definition bind {S A B : Type} (m : M S A) (f : A → M S B) : M S B :=
  λ s, match m s with
       | (s', Ok a) => f a s'
       | (s', Raise e) => (s', Raise e)
       end.

Definition get {S : Type} : M S S := λ s, (s, Ok s).

Definition modify {S : Type} (f : S → S) : M S unit := λ s, (f s, Ok tt).

Definition lift {S A : Type} (o : outcome A) : M S A := λ s, (s, o).

Notation "x <- m ;; k" := (bind m (λ x, k))
  (at level 100, m at next level, right associativity).
Notation "m ;;; k" := (bind m (λ _, k))
  (at level 100, right associativity).

(** [for x in l: body(x)] *)
Fixpoint for_each {S X : Type} (l : list X) (body : X → M S unit) : M S unit :=
  match l with
  | [] => ret tt
  | x :: r => body x ;;; for_each r body
  end.

Definition when {S : Type} (b : bool) (m : M S unit) : M S unit :=
  if b then m else ret tt.

(** [d.get(k)] on an arbitrary value: only dictionaries have [get];
    a missing key gives [None]. *)
Definition py_get (d : json) (k : string) : outcome json :=
  match d with
  | JObj kv => Ok (default JNull (assoc k kv))
  | _ => Raise AttributeError
  end.

(** [d.get(k, dflt)] *)
Definition py_get_default (d : json) (k : string) (dflt : json) : outcome json :=
  match d with
  | JObj kv => Ok (default dflt (assoc k kv))
  | _ => Raise AttributeError
  end.

(** [v in s] for a set (or the key view of a dictionary) of strings: the
    value is hashed first, so lists and dictionaries raise. *)
Definition py_in (v : json) (s : list string) : outcome bool :=
  match v with
  | JStr x => Ok (bool_decide (x ∈ s))
  | JList _ | JObj _ => Raise TypeError
  | _ => Ok false
  end.

(** [a / b] on integers with [b > 0], as an exact reduced fraction. *)
Definition py_truediv (a b : Z) : Q := Qred (a # Z.to_pos b).

(** [count / total if total > 0 else 0.0] *)
Definition ratio (count total : Z) : Q :=
  if Z.ltb 0 total then py_truediv count total else 0%Q.

(** ** The statistics tree *)

Record SubfieldStats : Type := mkSubfieldStats {
  sub_count : Z;
  sub_instances : Z;
  sub_missing : Z;
  sub_completeness : Q;
  values : option (gmap string Z)
}.

Record FieldStats : Type := mkFieldStats {
  count : Z;
  instances : Z;
  fieldStatus : string;
  completeness : Q;
  missing : Z;
  subfields : option (gmap string SubfieldStats)
}.

Record Categories : Type := mkCategories {
  mandatory : Q;
  recommended : Q;
  optional : Q
}.

(** One [{'count', 'fields', 'categories'}] dictionary: the summary or one
    resource type. *)
Record Tree : Type := mkTree {
  tree_count : Z;
  fields : gmap string FieldStats;
  categories : Categories
}.

(** The [stats_obj['stats']] dictionary; [byResourceType] is its
    ['byResourceType']['resourceTypes'] dictionary. *)
Record Stats : Type := mkStats {
  summary : Tree;
  byResourceType : gmap string Tree
}.

(** ** Schema tables of [StatsContainer] *)

Definition FIELD_STATUS : list (string * string) :=
  [ ("identifier", "mandatory"); ("creators", "mandatory"); ("titles", "mandatory");
    ("publisher", "mandatory"); ("publicationYear", "mandatory"); ("resourceType", "mandatory");
    ("subjects", "recommended"); ("contributors", "recommended"); ("date", "recommended");
    ("relatedIdentifiers", "recommended"); ("description", "recommended"); ("geoLocations", "recommended");
    ("language", "optional"); ("alternateIdentifiers", "optional"); ("sizes", "optional");
    ("formats", "optional"); ("version", "optional"); ("rights", "optional");
    ("fundingReferences", "optional"); ("relatedItems", "optional") ].

(** A value of the per-field configuration dictionary: the boolean under
    ['multiple'], a set of permitted values, or a [{'scheme': b}] dictionary. *)
Inductive config : Type :=
| CBool (b : bool)
| CSet (vals : list string)
| CDict (scheme : bool).

Definition resourceTypeGeneral_values : list string :=
  [ "Audiovisual"; "Book"; "BookChapter"; "Collection";
    "ComputationalNotebook"; "ConferencePaper"; "ConferenceProceeding";
    "Dataset"; "Dissertation"; "Event"; "Image"; "InteractiveResource";
    "Journal"; "JournalArticle"; "Model"; "OutputManagementPlan";
    "PeerReview"; "PhysicalObject"; "Preprint"; "Report"; "Service";
    "Software"; "Sound"; "Standard"; "Text"; "Workflow"; "Other";
    "Unknown" ].

Definition SUBFIELD_STATS : list (string * list (string * config)) :=
  [ ("creators",
      [ ("multiple", CBool true);
        ("nameType", CSet ["Personal"; "Organizational"]);
        ("nameIdentifier", CDict false);
        ("nameIdentifierScheme", CSet ["ORCID"; "ROR"; "ISNI"]);
        ("affiliation", CDict false);
        ("affiliationIdentifier", CDict false);
        ("affiliationIdentifierScheme", CSet ["ROR"; "GRID"; "ISNI"]) ]);
    ("contributors",
      [ ("multiple", CBool true);
        ("contributorType",
          CSet [ "ContactPerson"; "DataCollector"; "DataCurator"; "DataManager";
                 "Distributor"; "Editor"; "HostingInstitution"; "Producer";
                 "ProjectLeader"; "ProjectManager"; "ProjectMember"; "RegistrationAgency";
                 "RegistrationAuthority"; "RelatedPerson"; "Researcher"; "ResearchGroup";
                 "RightsHolder"; "Sponsor"; "Supervisor"; "WorkPackageLeader"; "Other" ]);
        ("nameIdentifier", CDict false);
        ("nameIdentifierScheme", CSet ["ORCID"; "ROR"; "ISNI"]);
        ("affiliation", CDict false);
        ("affiliationIdentifier", CDict false);
        ("affiliationIdentifierScheme", CSet ["ROR"; "GRID"; "ISNI"]) ]);
    ("resourceType",
      [ ("multiple", CBool false);
        ("resourceTypeGeneral", CSet resourceTypeGeneral_values) ]);
    ("relatedIdentifiers",
      [ ("multiple", CBool true);
        ("relationType",
          CSet [ "IsCitedBy"; "Cites"; "IsSupplementTo"; "IsSupplementedBy";
                 "IsContinuedBy"; "Continues"; "IsDescribedBy"; "Describes";
                 "HasMetadata"; "IsMetadataFor"; "HasVersion"; "IsVersionOf";
                 "IsNewVersionOf"; "IsPreviousVersionOf"; "IsPartOf"; "HasPart";
                 "IsPublishedIn"; "IsReferencedBy"; "References"; "IsDocumentedBy";
                 "Documents"; "IsCompiledBy"; "Compiles"; "IsVariantFormOf";
                 "IsOriginalFormOf"; "IsIdenticalTo"; "IsReviewedBy"; "Reviews";
                 "IsDerivedFrom"; "IsSourceOf"; "Requires"; "IsRequiredBy";
                 "Obsoletes"; "IsObsoletedBy" ]);
        ("relatedIdentifierType",
          CSet [ "ARK"; "arXiv"; "bibcode"; "DOI"; "EAN13"; "EISSN";
                 "Handle"; "IGSN"; "ISBN"; "ISSN"; "ISTC"; "LISSN";
                 "LSID"; "PMID"; "PURL"; "UPC"; "URL"; "URN"; "w3id" ]);
        ("resourceTypeGeneral", CSet resourceTypeGeneral_values) ]);
    ("fundingReferences",
      [ ("multiple", CBool true);
        ("funderName", CDict false);
        ("funderIdentifier", CDict false);
        ("funderIdentifierType", CSet ["Crossref Funder ID"; "ROR"; "Other"]);
        ("awardNumber", CDict false);
        ("awardURI", CDict false);
        ("awardTitle", CDict false) ]) ].

(** ** Stats Structure Factory *)

(** [{val: 0 for val in values}] *)
Definition zero_values (vals : list string) : gmap string Z :=
  foldl (λ m v, <[v := 0]> m) ∅ vals.

Definition empty_subfield (vs : option (gmap string Z)) : SubfieldStats :=
  {| sub_count := 0; sub_instances := 0; sub_missing := 0;
     sub_completeness := 0%Q; values := vs |}.

(** The body of the loop over [subfields.items()] in
    [create_empty_field_stats].  Every [{'scheme': ...}] entry of the tables
    has [scheme = False]; for [True] the counters come from the sibling
    [<subfield>Scheme] set when there is one. *)
Definition create_empty_subfield (cfg : list (string * config))
    (acc : gmap string SubfieldStats) (entry : string * config)
    : gmap string SubfieldStats :=
  let '(subfield, vals) := entry in
  if String.eqb subfield "multiple" then acc
  else match vals with
       | CSet vs => <[subfield := empty_subfield (Some (zero_values vs))]> acc
       | CDict scheme =>
           let base :=
             if scheme then
               match assoc (subfield ++ "Scheme") cfg with
               | Some (CSet vs) => empty_subfield (Some (zero_values vs))
               | Some (CDict _) => empty_subfield (Some (zero_values ["scheme"]))
               | _ => empty_subfield None
               end
             else empty_subfield None in
           <[subfield := base]> acc
       | CBool _ => acc
       end.

Definition create_empty_field_stats (field_name field_status : string) : FieldStats :=
  {| count := 0; instances := 0; fieldStatus := field_status;
     completeness := 0%Q; missing := 0;
     subfields :=
       match assoc field_name SUBFIELD_STATS with
       | Some cfg => Some (foldl (create_empty_subfield cfg) ∅ cfg)
       | None => None
       end |}.

Definition zero_categories : Categories :=
  {| mandatory := 0%Q; recommended := 0%Q; optional := 0%Q |}.

Definition empty_fields : gmap string FieldStats :=
  foldl (λ m '(field_name, field_status),
           <[field_name := create_empty_field_stats field_name field_status]> m)
        ∅ FIELD_STATUS.

Definition empty_tree : Tree :=
  {| tree_count := 0; fields := empty_fields; categories := zero_categories |}.

(** [list(cls.SUBFIELD_STATS['resourceType']['resourceTypeGeneral'])] *)
Definition resource_types : list string :=
  match assoc "resourceType" SUBFIELD_STATS with
  | Some cfg => match assoc "resourceTypeGeneral" cfg with
                | Some (CSet vs) => vs
                | _ => []
                end
  | None => []
  end.

Definition create_empty_stats : Stats :=
  {| summary := empty_tree;
     byResourceType := foldl (λ m rt, <[rt := empty_tree]> m) ∅ resource_types |}.

(** ** Record Updater: [StatsUpdater.update_subfield_stats] *)

Definition set_subfields (fs : FieldStats) (sm : gmap string SubfieldStats) : FieldStats :=
  {| count := count fs; instances := instances fs; fieldStatus := fieldStatus fs;
     completeness := completeness fs; missing := missing fs; subfields := Some sm |}.

Definition add_instances (n : Z) (fs : FieldStats) : FieldStats :=
  {| count := count fs; instances := instances fs + n; fieldStatus := fieldStatus fs;
     completeness := completeness fs; missing := missing fs; subfields := subfields fs |}.

Definition sub_incr_count (x : SubfieldStats) : SubfieldStats :=
  {| sub_count := sub_count x + 1; sub_instances := sub_instances x;
     sub_missing := sub_missing x; sub_completeness := sub_completeness x;
     values := values x |}.

Definition sub_add_instances (n : Z) (x : SubfieldStats) : SubfieldStats :=
  {| sub_count := sub_count x; sub_instances := sub_instances x + n;
     sub_missing := sub_missing x; sub_completeness := sub_completeness x;
     values := values x |}.

Definition sub_set_values (vm : gmap string Z) (x : SubfieldStats) : SubfieldStats :=
  {| sub_count := sub_count x; sub_instances := sub_instances x;
     sub_missing := sub_missing x; sub_completeness := sub_completeness x;
     values := Some vm |}.

(** [x['missing'] = total_dois - x['count']] followed by
    [x['completeness'] = x['count'] / total_dois if total_dois > 0 else 0.0] *)
Definition sub_recompute (total_dois : Z) (x : SubfieldStats) : SubfieldStats :=
  {| sub_count := sub_count x; sub_instances := sub_instances x;
     sub_missing := total_dois - sub_count x;
     sub_completeness := ratio (sub_count x) total_dois;
     values := values x |}.

(** [field_stats['subfields'][subfield][k] op= ...]: both subscripts are read
    before anything is written, so a missing key leaves the object as it was. *)
Definition with_sub (subfield : string) (f : SubfieldStats → SubfieldStats)
    : M FieldStats unit :=
  λ fs, match subfields fs with
        | None => (fs, Raise KeyError)
        | Some sm =>
            match sm !! subfield with
            | None => (fs, Raise KeyError)
            | Some x => (set_subfields fs (<[subfield := f x]> sm), Ok tt)
            end
        end.

(** [field_stats['subfields'][subfield]['values'][value] += 1] *)
Definition incr_value (subfield : string) (value : json) : M FieldStats unit :=
  λ fs, match subfields fs with
        | None => (fs, Raise KeyError)
        | Some sm =>
            match sm !! subfield with
            | None => (fs, Raise KeyError)
            | Some x =>
                match values x with
                | None => (fs, Raise KeyError)
                | Some vm =>
                    match value with
                    | JStr v =>
                        match vm !! v with
                        | Some n =>
                            (set_subfields fs
                               (<[subfield := sub_set_values (<[v := n + 1]> vm) x]> sm),
                             Ok tt)
                        | None => (fs, Raise KeyError)
                        end
                    | JList _ | JObj _ => (fs, Raise TypeError)
                    | _ => (fs, Raise KeyError)
                    end
                end
            end
        end.

(** The list branch works on the field's statistics together with the local
    [seen_subfields] set. *)
Definition on_stats {A : Type} (m : M FieldStats A) : M (FieldStats * gset string) A :=
  λ st, let '(fs', o) := m st.1 in ((fs', st.2), o).

Definition with_seen {A : Type} (m : M (FieldStats * gset string) A) : M FieldStats A :=
  λ fs, let '(st', o) := m (fs, ∅) in (st'.1, o).

(** [if subfield not in seen_subfields: ...['count'] += 1; seen_subfields.add(subfield)] *)
Definition count_once (subfield : string) : M (FieldStats * gset string) unit :=
  st <- get ;;
  when (negb (bool_decide (subfield ∈ st.2)))
       (on_stats (with_sub subfield sub_incr_count) ;;;
        modify (λ st, (st.1, {[subfield]} ∪ st.2))).

(** [value in expected_values] where [expected_values] is an entry of the
    configuration dictionary. *)
Definition py_in_config (v : json) (c : config) : outcome bool :=
  match c with
  | CSet vs => py_in v vs
  | CDict _ => py_in v ["scheme"]
  | CBool _ => Raise TypeError
  end.

(** [scheme and scheme in field_config[key]] *)
Definition scheme_recognised (field_config : list (string * config)) (key : string)
    (scheme : json) : outcome bool :=
  if truthy scheme then
    match assoc key field_config with
    | Some c => py_in_config scheme c
    | None => Raise KeyError
    end
  else Ok false.

(** [x if isinstance(x, list) else [x]] *)
Definition as_list (v : json) : list json :=
  match v with JList l => l | _ => [v] end.

Definition simple_enumerated : list string :=
  ["contributorType"; "relationType"; "relatedIdentifierType"; "resourceTypeGeneral"].

(** Body of the two nested loops of the list branch, for one occurrence
    [item] and one configuration entry. *)
Definition update_item_subfield (field_name : string)
    (field_config : list (string * config)) (item : json)
    (entry : string * config) : M (FieldStats * gset string) unit :=
  let '(subfield, expected_values) := entry in
  if String.eqb subfield "multiple" then ret tt
  else if String.eqb field_name "fundingReferences" then
    value <- lift (py_get item subfield) ;;
    when (truthy value)
      (count_once subfield ;;;
       on_stats (with_sub subfield (sub_add_instances 1)) ;;;
       match expected_values with
       | CSet vs =>
           known <- lift (py_in value vs) ;;
           on_stats (incr_value subfield (if known then value else JStr "Other"))
       | _ => ret tt
       end)
  else if String.eqb subfield "nameType" then
    value <- lift (py_get_default item "nameType" (JStr "")) ;;
    when (truthy value)
      (count_once subfield ;;;
       on_stats (with_sub subfield (sub_add_instances 1)) ;;;
       on_stats (incr_value subfield value))
  else if String.eqb subfield "nameIdentifier" then
    identifiers <- lift (py_get_default item "nameIdentifiers" (JList [])) ;;
    when (truthy identifiers)
      (let identifiers := as_list identifiers in
       count_once subfield ;;;
       on_stats (with_sub subfield (sub_add_instances (Z.of_nat (length identifiers)))) ;;;
       for_each identifiers (λ identifier,
         scheme <- lift (py_get identifier "nameIdentifierScheme") ;;
         ok <- lift (scheme_recognised field_config "nameIdentifierScheme" scheme) ;;
         when ok
           (count_once "nameIdentifierScheme" ;;;
            on_stats (with_sub "nameIdentifierScheme" (sub_add_instances 1)) ;;;
            on_stats (incr_value "nameIdentifierScheme" scheme))))
  else if String.eqb subfield "affiliation" then
    affiliations <- lift (py_get_default item "affiliation" (JList [])) ;;
    when (truthy affiliations)
      (let affiliations := as_list affiliations in
       count_once subfield ;;;
       on_stats (with_sub subfield (sub_add_instances (Z.of_nat (length affiliations)))) ;;;
       for_each affiliations (λ affiliation,
         when (is_dict affiliation)
           (identifier <- lift (py_get affiliation "affiliationIdentifier") ;;
            when (truthy identifier)
              (count_once "affiliationIdentifier" ;;;
               on_stats (with_sub "affiliationIdentifier" (sub_add_instances 1)) ;;;
               scheme <- lift (py_get affiliation "affiliationIdentifierScheme") ;;
               ok <- lift (scheme_recognised field_config "affiliationIdentifierScheme" scheme) ;;
               when ok
                 (count_once "affiliationIdentifierScheme" ;;;
                  on_stats (with_sub "affiliationIdentifierScheme" (sub_add_instances 1)) ;;;
                  on_stats (incr_value "affiliationIdentifierScheme" scheme))))))
  else if bool_decide (subfield ∈ simple_enumerated) then
    value <- lift (py_get item subfield) ;;
    ok <- lift (if truthy value then py_in_config value expected_values else Ok false) ;;
    when ok
      (count_once subfield ;;;
       on_stats (with_sub subfield (sub_add_instances 1)) ;;;
       on_stats (incr_value subfield value))
  else ret tt.

(** The trailing loop of the list branch: every configured subfield that
    the field carries gets [missing] and [completeness] recomputed. *)
Definition recompute_subfield (total_dois : Z) (entry : string * config)
    : M FieldStats unit :=
  if String.eqb entry.1 "multiple" then ret tt
  else
    fs <- get ;;
    match subfields fs with
    | None => raise KeyError
    | Some sm =>
        match sm !! entry.1 with
        | Some _ => with_sub entry.1 (sub_recompute total_dois)
        | None => ret tt
        end
    end.

(** Body of the loop of the non-list branch. *)
Definition update_single_subfield (total_dois : Z) (field_value : json)
    (entry : string * config) : M FieldStats unit :=
  let '(subfield, expected_values) := entry in
  if String.eqb subfield "multiple" then ret tt
  else
    value <- lift (py_get field_value subfield) ;;
    ok <- lift (if truthy value then
                   match expected_values with
                   | CDict _ => Ok true
                   | _ => py_in_config value expected_values
                   end
                 else Ok false) ;;
    when ok
      (fs <- get ;;
       match subfields fs with
       | None => raise KeyError
       | Some sm =>
           match sm !! subfield with
           | None => ret tt
           | Some x =>
               with_sub subfield sub_incr_count ;;;
               with_sub subfield (sub_add_instances 1) ;;;
               match values x with
               | Some _ => incr_value subfield value
               | None => ret tt
               end ;;;
               with_sub subfield (sub_recompute total_dois)
           end
       end).

(** [update_subfield_stats(field_value, field_name, stats, stat_key)].  The
    state is the dictionary [field_stats] that the method looks up from
    [stats] and [stat_key]; it is the same object its caller holds for
    [field_name], and [total_dois] is the count of the tree it belongs to. *)
Definition update_subfield_stats (field_value : json) (field_name : string)
    (total_dois : Z) : M FieldStats unit :=
  match assoc field_name SUBFIELD_STATS with
  | None => ret tt
  | Some field_config =>
      if negb (truthy field_value) then ret tt
      else
        match field_value with
        | JList items =>
            modify (add_instances (Z.of_nat (length items))) ;;;
            with_seen
              (for_each items (λ item,
                 for_each field_config
                   (update_item_subfield field_name field_config item))) ;;;
            for_each field_config (recompute_subfield total_dois)
        | _ =>
            if String.eqb field_name "fundingReferences" then ret tt
            else
              modify (add_instances 1) ;;;
              for_each field_config (update_single_subfield total_dois field_value)
        end
  end.

(** ** Record Updater: [StatsUpdater.calculate_category_metrics] *)

Record CategoryAcc : Type := mkCategoryAcc {
  acc_count : Z;
  acc_total : Z;
  acc_num_fields : Z
}.

Record CategoriesAcc : Type := mkCategoriesAcc {
  acc_mandatory : CategoryAcc;
  acc_recommended : CategoryAcc;
  acc_optional : CategoryAcc
}.

Definition acc_zero : CategoryAcc :=
  {| acc_count := 0; acc_total := 0; acc_num_fields := 0 |}.

(** [categories[status]['num_fields'] += 1] and
    [categories[status]['count'] += field_stats['count']] *)
Definition acc_add (field_stats : FieldStats) (a : CategoryAcc) : CategoryAcc :=
  {| acc_count := acc_count a + count field_stats; acc_total := acc_total a;
     acc_num_fields := acc_num_fields a + 1 |}.

(** Body of the loop over [fields.items()]; a status outside the three
    classes is ignored. *)
Definition category_step (field_name : string) (field_stats : FieldStats)
    (c : CategoriesAcc) : CategoriesAcc :=
  let status := fieldStatus field_stats in
  if String.eqb status "mandatory" then
    {| acc_mandatory := acc_add field_stats (acc_mandatory c);
       acc_recommended := acc_recommended c; acc_optional := acc_optional c |}
  else if String.eqb status "recommended" then
    {| acc_mandatory := acc_mandatory c;
       acc_recommended := acc_add field_stats (acc_recommended c);
       acc_optional := acc_optional c |}
  else if String.eqb status "optional" then
    {| acc_mandatory := acc_mandatory c; acc_recommended := acc_recommended c;
       acc_optional := acc_add field_stats (acc_optional c) |}
  else c.

(** [if num_fields > 0: total = total_dois * num_fields] *)
Definition acc_set_total (total_dois : Z) (a : CategoryAcc) : CategoryAcc :=
  if Z.ltb 0 (acc_num_fields a) then
    {| acc_count := acc_count a; acc_total := total_dois * acc_num_fields a;
       acc_num_fields := acc_num_fields a |}
  else a.

(** [count / total if total > 0 else 0.0] *)
Definition acc_completeness (a : CategoryAcc) : Q :=
  ratio (acc_count a) (acc_total a).

Definition category_accumulate (fields : gmap string FieldStats) : CategoriesAcc :=
  map_fold category_step
    {| acc_mandatory := acc_zero; acc_recommended := acc_zero; acc_optional := acc_zero |}
    fields.

Definition calculate_category_metrics (fields : gmap string FieldStats)
    (total_dois : Z) : Categories :=
  let c := category_accumulate fields in
  {| mandatory := acc_completeness (acc_set_total total_dois (acc_mandatory c));
     recommended := acc_completeness (acc_set_total total_dois (acc_recommended c));
     optional := acc_completeness (acc_set_total total_dois (acc_optional c)) |}.

(** ** Record Updater: [StatsUpdater.update_stats_single_record] *)

Definition incr_field_count (fs : FieldStats) : FieldStats :=
  {| count := count fs + 1; instances := instances fs; fieldStatus := fieldStatus fs;
     completeness := completeness fs; missing := missing fs; subfields := subfields fs |}.

Definition has_subfields (field_name : string) : bool :=
  match assoc field_name SUBFIELD_STATS with Some _ => true | None => false end.

(** [field_value not in (None, '')] *)
Definition not_none_or_empty (v : json) : bool :=
  match v with
  | JNull => false
  | JStr s => negb (String.eqb s "")
  | _ => true
  end.

(** The nested helper [update_field_stats(field_value, field_stats, field_name)]. *)
Definition update_field_stats (field_value : json) (field_name : string)
    (fs : FieldStats) : FieldStats :=
  if negb (truthy field_value) then fs
  else
    let bump (n : Z) (fs : FieldStats) :=
      let fs := incr_field_count fs in
      if has_subfields field_name then fs else add_instances n fs in
    match field_value with
    | JList l => if truthy field_value then bump (Z.of_nat (length l)) fs else fs
    | JObj _ => if truthy field_value then bump 1 fs else fs
    | _ => if not_none_or_empty field_value then bump 1 fs else fs
    end.

(** [field_stats['missing'] = total - field_stats['count']] followed by
    [field_stats['completeness'] = field_stats['count'] / total if total > 0 else 0.0] *)
Definition recompute_field (total_dois : Z) (fs : FieldStats) : FieldStats :=
  {| count := count fs; instances := instances fs; fieldStatus := fieldStatus fs;
     completeness := ratio (count fs) total_dois;
     missing := total_dois - count fs; subfields := subfields fs |}.

(** Run a computation on [tree['fields'][field_name]]; the subscript raises
    when the tree has no such field, and whatever the computation did to the
    dictionary stays in the tree even when it raises. *)
Definition on_field {A : Type} (field_name : string) (m : M FieldStats A) : M Tree A :=
  λ t, match fields t !! field_name with
       | None => (t, Raise KeyError)
       | Some fs =>
           let '(fs', o) := m fs in
           ({| tree_count := tree_count t; fields := <[field_name := fs']> (fields t);
               categories := categories t |}, o)
       end.

(** [record.get(field_name)] on the normalised record. *)
Definition record_get (record : list (string * json)) (field_name : string) : json :=
  default JNull (assoc field_name record).

(** Body of the loop over [FIELD_STATUS]. *)
Definition update_tree_field (record : list (string * json)) (total_dois : Z)
    (entry : string * string) : M Tree unit :=
  let field_name := entry.1 in
  let field_value := record_get record field_name in
  on_field field_name
    (modify (update_field_stats field_value field_name) ;;;
     when (has_subfields field_name && truthy field_value)
          (update_subfield_stats field_value field_name total_dois) ;;;
     modify (recompute_field total_dois)).

Definition incr_tree_count (t : Tree) : Tree :=
  {| tree_count := tree_count t + 1; fields := fields t; categories := categories t |}.

Definition refresh_categories (t : Tree) : Tree :=
  {| tree_count := tree_count t; fields := fields t;
     categories := calculate_category_metrics (fields t) (tree_count t) |}.

(** The statements applied to one tree (the summary, then the tree of the
    record's resource type): count the record, fold every field, recompute
    the categories. *)
Definition update_tree (record : list (string * json)) : M Tree unit :=
  modify incr_tree_count ;;;
  t <- get ;;
  for_each FIELD_STATUS (update_tree_field record (tree_count t)) ;;;
  modify refresh_categories.

Definition on_summary {A : Type} (m : M Tree A) : M Stats A :=
  λ s, let '(t', o) := m (summary s) in
       ({| summary := t'; byResourceType := byResourceType s |}, o).

Definition on_resource_type {A : Type} (rt : string) (m : M Tree A) : M Stats A :=
  λ s, match byResourceType s !! rt with
       | None => (s, Raise KeyError)
       | Some t =>
           let '(t', o) := m t in
           ({| summary := summary s; byResourceType := <[rt := t']> (byResourceType s) |}, o)
       end.

(** The value bound to [resource_type] before the second half of the method. *)
Definition record_resource_type (record : list (string * json)) : json :=
  let v := record_get record "resourceType" in
  if truthy v then
    match v with
    | JObj kv => default JNull (assoc "resourceTypeGeneral" kv)
    | JStr _ => v
    | _ => JNull
    end
  else JNull.

(** [resource_type and resource_type in stats_obj[...]['resourceTypes']]:
    the resource type to update, if any. *)
Definition known_resource_type (resource_type : json) (s : Stats) : outcome (option string) :=
  if truthy resource_type then
    match resource_type with
    | JStr rt => Ok (if bool_decide (is_Some (byResourceType s !! rt)) then Some rt else None)
    | JList _ | JObj _ => Raise TypeError
    | _ => Ok None
    end
  else Ok None.

Definition update_stats_single_record (record : list (string * json)) : M Stats unit :=
  on_summary (update_tree record) ;;;
  s <- get ;;
  target <- lift (known_resource_type (record_resource_type record) s) ;;
  match target with
  | Some rt => on_resource_type rt (update_tree record)
  | None => ret tt
  end.

(** ** Tree Merger: [StatsUpdater.merge_fields] and [StatsUpdater.merge_stats] *)

(** [max(...)] over a non-empty sequence of integers. *)
Definition py_max (l : list Z) : option Z :=
  match l with
  | [] => None
  | x :: r => Some (foldl Z.max x r)
  end.

(** [field_stats.get('count', 0) + field_stats.get('missing', 0)] where
    [field_stats] is [fields.get(field, {})]. *)
Definition count_plus_missing (o : option FieldStats) : Z :=
  match o with
  | Some fs => count fs + missing fs
  | None => 0
  end.

(** The generator handed to [max] in [merge_fields], one entry per field of
    [all_fields]. *)
Definition field_totals (fields1 fields2 : gmap string FieldStats) : gmap string Z :=
  merge (λ o1 o2, Some (count_plus_missing o1 + count_plus_missing o2)) fields1 fields2.

(** [total_dois] of [merge_fields].  Both dictionaries are non-empty where
    this is evaluated, so [max] has at least one argument. *)
Definition merged_total (fields1 fields2 : gmap string FieldStats) : Z :=
  default 0 (py_max (map_to_list (field_totals fields1 fields2)).*2).

(** [values1.get(value, 0) + values2.get(value, 0)] for every value of
    [all_values]. *)
Definition merge_values (values1 values2 : gmap string Z) : gmap string Z :=
  merge (λ a b, Some (default 0 a + default 0 b)) values1 values2.

(** An optional nested dictionary (['subfields'], ['values']) of a merged
    entry: [if k in d1 or k in d2: merged[k] = g(d1.get(k, {}), d2.get(k, {}))]. *)
Definition merge_optional {A : Type}
    (g : gmap string A → gmap string A → gmap string A)
    (o1 o2 : option (gmap string A)) : option (gmap string A) :=
  match o1, o2 with
  | None, None => None
  | _, _ => Some (g (default ∅ o1) (default ∅ o2))
  end.

(** The dictionary built for one subfield of [all_subfields]. *)
Definition merge_subfield (total_dois : Z) (o1 o2 : option SubfieldStats)
    : option SubfieldStats :=
  match o1, o2 with
  | None, None => None
  | _, _ =>
      let subfield_count := default 0 (sub_count <$> o1) + default 0 (sub_count <$> o2) in
      Some {| sub_count := subfield_count;
              sub_instances := default 0 (sub_instances <$> o1) + default 0 (sub_instances <$> o2);
              sub_missing := total_dois - subfield_count;
              sub_completeness := ratio subfield_count total_dois;
              values := merge_optional merge_values (o1 ≫= values) (o2 ≫= values) |}
  end.

(** The dictionary built for one field of [all_fields]. *)
Definition merge_field (total_dois : Z) (o1 o2 : option FieldStats) : option FieldStats :=
  match o1, o2 with
  | None, None => None
  | _, _ =>
      let count' := default 0 (count <$> o1) + default 0 (count <$> o2) in
      Some {| count := count';
              instances := default 0 (instances <$> o1) + default 0 (instances <$> o2);
              fieldStatus :=
                match o1 with
                | Some fs1 => fieldStatus fs1
                | None => default "" (fieldStatus <$> o2)
                end;
              completeness := ratio count' total_dois;
              missing := total_dois - count';
              subfields :=
                merge_optional (merge (merge_subfield total_dois))
                  (o1 ≫= subfields) (o2 ≫= subfields) |}
  end.

(** [not d] for a dictionary. *)
Definition dict_empty {V : Type} (d : gmap string V) : bool :=
  bool_decide (size d = 0%nat).

Definition merge_fields (fields1 fields2 : gmap string FieldStats)
    : gmap string FieldStats :=
  if dict_empty fields1 then fields2
  else if dict_empty fields2 then fields1
  else merge (merge_field (merged_total fields1 fields2)) fields1 fields2.

(** The entry built for one resource type of [all_resource_types]. *)
Definition merge_resource_type (o1 o2 : option Tree) : option Tree :=
  match o1, o2 with
  | None, None => None
  | _, _ =>
      let total_dois := default 0 (tree_count <$> o1) + default 0 (tree_count <$> o2) in
      let merged_fields := merge_fields (default ∅ (fields <$> o1)) (default ∅ (fields <$> o2)) in
      Some {| tree_count := total_dois;
              fields := merged_fields;
              categories := calculate_category_metrics merged_fields total_dois |}
  end.

(** [merge_stats(stats1, stats2)].  Its two guards on an empty [stats1] or
    [stats2] concern the wrapper dictionary [{'stats': ...}], which every
    caller passes non-empty. *)
Definition merge_stats (stats1 stats2 : Stats) : Stats :=
  let merged_count := tree_count (summary stats1) + tree_count (summary stats2) in
  let merged_fields := merge_fields (fields (summary stats1)) (fields (summary stats2)) in
  {| summary :=
       {| tree_count := merged_count;
          fields := merged_fields;
          categories := calculate_category_metrics merged_fields merged_count |};
     byResourceType :=
       merge merge_resource_type (byResourceType stats1) (byResourceType stats2) |}.

(** ** Clean-up: [StatsContainer.remove_zero_count_resource_types_and_clean] *)

(** Rounding of a non-integer to the nearest integer, ties to even. *)
Definition round_half_even (q : Q) : Z :=
  let f := Qfloor q in
  match Qcompare (q - inject_Z f) (1 # 2) with
  | Lt => f
  | Gt => f + 1
  | Eq => if Z.even f then f else f + 1
  end.

(** The binade of a positive fraction: the [k] with [2^k ≤ a/b < 2^(k+1)]. *)
Definition binade (a : Z) (b : positive) : Z :=
  let l := (Z.log2 a - Z.log2 (Zpos b))%Z in
  let at_least :=
    if Z.leb 0 l then Z.leb (Zpos b * 2 ^ l) a else Z.leb (Zpos b) (a * 2 ^ (- l)) in
  if at_least then l else (l - 1)%Z.

(** [q * 2^e] *)
Definition Qshift (q : Q) (e : Z) : Q :=
  if Z.leb 0 e then (q * inject_Z (2 ^ e))%Q else (q / inject_Z (2 ^ (- e)))%Q.

(** The IEEE 754 double nearest to [q], ties to the even significand: 53
    bits of significand, multiples of [2^-1074] in the subnormal range.
    This is the float that Python's true division stores for the exact
    quotient [q].  (Overflow to infinity does not arise: every float of the
    program is a quotient of two counts.) *)
Definition nearest_double (q : Q) : Q :=
  if Z.eqb (Qnum q) 0 then 0%Q
  else
    let e := Z.max (binade (Z.abs (Qnum q)) (Qden q) - 52) (-1074) in
    Qred (Qshift (inject_Z (round_half_even (Qshift q (- e)))) e).

(** [round(value, 4)] on the float that the exact quotient [q] stands for:
    the value of the double itself, not the quotient, is rounded to the
    nearest multiple of [1/10000], ties to even, and the float returned is
    the double nearest to that decimal, for which the decimal stands. *)
Definition py_round4 (q : Q) : Q :=
  Qred (round_half_even (nearest_double q * inject_Z 10000) # 10000).

(** [{value: count for value, count in values.items() if count > 0}] *)
Definition clean_values (vm : gmap string Z) : gmap string Z :=
  filter (λ kv, 0 < kv.2) vm.

(** [clean_subfields] on one subfield, followed by the rounding that
    [_round_completeness_values] applies to the same dictionary. *)
Definition clean_subfield (x : SubfieldStats) : SubfieldStats :=
  {| sub_count := sub_count x; sub_instances := sub_instances x;
     sub_missing := sub_missing x;
     sub_completeness := py_round4 (sub_completeness x);
     values := clean_values <$> values x |}.

Definition clean_field (fs : FieldStats) : FieldStats :=
  {| count := count fs; instances := instances fs; fieldStatus := fieldStatus fs;
     completeness := py_round4 (completeness fs); missing := missing fs;
     subfields := fmap (M := gmap string) clean_subfield <$> subfields fs |}.

Definition round_categories (c : Categories) : Categories :=
  {| mandatory := py_round4 (mandatory c); recommended := py_round4 (recommended c);
     optional := py_round4 (optional c) |}.

Definition clean_tree (t : Tree) : Tree :=
  {| tree_count := tree_count t; fields := clean_field <$> fields t;
     categories := round_categories (categories t) |}.

Definition remove_zero_count_resource_types_and_clean (target_stats : Stats) : Stats :=
  {| summary := clean_tree (summary target_stats);
     byResourceType :=
       clean_tree <$> filter (λ kv, 0 < tree_count kv.2) (byResourceType target_stats) |}.

(** ** Aggregation Driver *)

(** Insertion-ordered dictionaries of the driver: assignment to an existing
    key keeps its position, a new key goes last. *)
Fixpoint dict_set {K V : Type} `{EqDecision K} (k : K) (v : V) (d : list (K * V))
    : list (K * V) :=
  match d with
  | [] => [(k, v)]
  | (k', v') :: r => if decide (k = k') then (k, v) :: r else (k', v') :: dict_set k v r
  end.

Fixpoint dict_get {K V : Type} `{EqDecision K} (k : K) (d : list (K * V)) : option V :=
  match d with
  | [] => None
  | (k', v') :: r => if decide (k = k') then Some v' else dict_get k r
  end.

Inductive Relationships : Type :=
| RelClients (clients : list string)
| RelProvider (provider : option string).

Record Entry : Type := mkEntry {
  entry_id : string;
  entry_type : string;
  attributes : json;
  relationships : Relationships;
  stats : Stats
}.

(** One element of the registry listings, as the external registry client
    hands it over: [listProviders] gives identifiers and attributes,
    [listClients] also the identifier of the owning provider. *)
Record RegistryItem : Type := mkRegistryItem {
  reg_id : string;
  reg_attributes : json;
  reg_provider : option string
}.

Record Manager : Type := mkManager {
  providers : list (string * Entry);
  clients : list (string * Entry)
}.

Definition initialize_provider_entry (attrs : json) : Entry :=
  {| entry_id := ""; entry_type := "providers";
     attributes := if truthy attrs then attrs else JObj [];
     relationships := RelClients []; stats := create_empty_stats |}.

Definition initialize_client_entry (attrs : json) : Entry :=
  {| entry_id := ""; entry_type := "clients";
     attributes := if truthy attrs then attrs else JObj [];
     relationships := RelProvider None; stats := create_empty_stats |}.

Definition set_id (i : string) (e : Entry) : Entry :=
  {| entry_id := i; entry_type := entry_type e; attributes := attributes e;
     relationships := relationships e; stats := stats e |}.

Definition set_relationships (r : Relationships) (e : Entry) : Entry :=
  {| entry_id := entry_id e; entry_type := entry_type e; attributes := attributes e;
     relationships := r; stats := stats e |}.

Definition set_stats (s : Stats) (e : Entry) : Entry :=
  {| entry_id := entry_id e; entry_type := entry_type e; attributes := attributes e;
     relationships := relationships e; stats := s |}.

(** [self.providers[provider_id]['relationships']['clients'].append(client_id)] *)
Definition append_client (client_id : string) (e : Entry) : Entry :=
  match relationships e with
  | RelClients l => set_relationships (RelClients (l ++ [client_id])) e
  | RelProvider _ => e
  end.

Definition add_provider (m : Manager) (p : RegistryItem) : Manager :=
  {| providers :=
       dict_set (reg_id p) (set_id (reg_id p) (initialize_provider_entry (reg_attributes p)))
                (providers m);
     clients := clients m |}.

Definition add_client (m : Manager) (c : RegistryItem) : Manager :=
  let e := set_id (reg_id c) (initialize_client_entry (reg_attributes c)) in
  match reg_provider c with
  | Some provider_id =>
      {| providers :=
           match dict_get provider_id (providers m) with
           | Some p => dict_set provider_id (append_client (reg_id c) p) (providers m)
           | None => providers m
           end;
         clients :=
           dict_set (reg_id c) (set_relationships (RelProvider (Some provider_id)) e)
                    (clients m) |}
  | None => {| providers := providers m; clients := dict_set (reg_id c) e (clients m) |}
  end.

Definition initialize_output_structure (registry_providers registry_clients : list RegistryItem)
    : Manager :=
  foldl add_client
        (foldl add_provider {| providers := []; clients := [] |} registry_providers)
        registry_clients.

(** A key of the per-file dictionaries: any hashable truthy JSON value can
    occur there ([True] hashes and compares as [1]). *)
Definition pykey : Type := (string + Z)%type.

(** [merge_provider_stats] / [merge_client_stats] on one of the two
    dictionaries: an identifier the registry did not list is skipped, and
    registry identifiers are strings. *)
Definition merge_entity_stats (key : pykey) (s : Stats) (d : list (string * Entry))
    : list (string * Entry) :=
  match key with
  | inl i =>
      match dict_get i d with
      | Some e => dict_set i (set_stats (merge_stats (stats e) s) e) d
      | None => d
      end
  | inr _ => d
  end.

(** Body of the reduction loop of [run] for the result of one file. *)
Definition reduce_file (m : Manager)
    (result : list (pykey * Stats) * list (pykey * Stats)) : Manager :=
  let m1 :=
    {| providers := providers m;
       clients := foldl (λ d kv, merge_entity_stats kv.1 kv.2 d) (clients m) result.1 |} in
  {| providers := foldl (λ d kv, merge_entity_stats kv.1 kv.2 d) (providers m1) result.2;
     clients := clients m1 |}.

Definition filter_active_only (m : Manager) : Manager :=
  {| providers := filter (λ kv, 0 < tree_count (summary (stats kv.2))) (providers m);
     clients := filter (λ kv, 0 < tree_count (summary (stats kv.2))) (clients m) |}.

Definition aggregate_stats (d : list (string * Entry)) : Stats :=
  foldl (λ acc kv, merge_stats acc (stats kv.2)) create_empty_stats d.

Definition create_aggregate_entries (m : Manager) : Manager :=
  let aggregate_provider :=
    {| entry_id := "aggregate"; entry_type := "providers";
       attributes :=
         JObj [("symbol", JStr "AGGREGATE");
               ("name", JStr "All DataCite Organizations (All Providers Aggregated)")];
       relationships := RelClients ["aggregate.all"];
       stats := aggregate_stats (providers m) |} in
  let aggregate_client :=
    {| entry_id := "aggregate.all"; entry_type := "clients";
       attributes :=
         JObj [("symbol", JStr "AGGREGATE.ALL");
               ("name", JStr "All DataCite Repositories (All Clients Aggregated)")];
       relationships := RelProvider None;
       stats := aggregate_stats (clients m) |} in
  {| providers := dict_set "aggregate" aggregate_provider (providers m);
     clients := dict_set "aggregate.all" aggregate_client (clients m) |}.

Definition clean_entry (kv : string * Entry) : string * Entry :=
  (kv.1, set_stats (remove_zero_count_resource_types_and_clean (stats kv.2)) kv.2).

Definition clean_resource_types (m : Manager) : Manager :=
  {| providers := clean_entry <$> providers m; clients := clean_entry <$> clients m |}.

(** The part of [DataCiteDataFileProcessor.run] between the registry fetch
    and the writer: [results] are the per-file results in the order in which
    the worker pool delivers them. *)
Definition run (registry_providers registry_clients : list RegistryItem)
    (results : list (list (pykey * Stats) * list (pykey * Stats))) : Manager :=
  let m := initialize_output_structure registry_providers registry_clients in
  let m := foldl reduce_file m results in
  let m := filter_active_only m in
  let m := create_aggregate_entries m in
  clean_resource_types m.

(** ** Per-file processing: [FileProcessor.get_fields] and [FileProcessor.process_file] *)

Definition get_fields (item : json) : outcome (list (string * json)) :=
  match item with
  | JObj kv =>
      match default item (assoc "attributes" kv) with
      | JObj a =>
          let plain k := default JNull (assoc k a) in
          let listed k := default (JList []) (assoc k a) in
          Ok [ ("identifier", plain "doi");
               ("creators", listed "creators");
               ("titles", listed "titles");
               ("publisher", plain "publisher");
               ("publicationYear", plain "publicationYear");
               ("resourceType", default (JObj []) (assoc "types" a));
               ("subjects", listed "subjects");
               ("contributors", listed "contributors");
               ("date", listed "dates");
               ("relatedIdentifiers", listed "relatedIdentifiers");
               ("description", listed "descriptions");
               ("geoLocations", listed "geoLocations");
               ("language", plain "language");
               ("alternateIdentifiers", listed "alternateIdentifiers");
               ("sizes", listed "sizes");
               ("formats", listed "formats");
               ("version", plain "version");
               ("rights", listed "rightsList");
               ("fundingReferences", listed "fundingReferences");
               ("relatedItems", listed "relatedItems") ]
      | _ => Raise AttributeError
      end
  | _ => Raise AttributeError
  end.

(** [a.get(k1, {}).get(k2, {}) ...] *)
Fixpoint get_path (v : json) (path : list string) : outcome json :=
  match path with
  | [] => Ok v
  | k :: r =>
      match py_get_default v k (JObj []) with
      | Ok v' => get_path v' r
      | Raise e => Raise e
      end
  end.

(** The dictionary key an identifier becomes, [None] for a falsy one;
    hashing a list or a dictionary raises. *)
Definition to_key (v : json) : outcome (option pykey) :=
  if truthy v then
    match v with
    | JStr s => Ok (Some (inl s))
    | JNum n => Ok (Some (inr n))
    | JBool _ => Ok (Some (inr 1))
    | _ => Raise TypeError
    end
  else Ok None.

Definition FileState : Type := (list (pykey * Stats) * list (pykey * Stats))%type.

Definition on_clients {A : Type} (m : M (list (pykey * Stats)) A) : M FileState A :=
  λ st, let '(d, o) := m st.1 in ((d, st.2), o).

Definition on_providers {A : Type} (m : M (list (pykey * Stats)) A) : M FileState A :=
  λ st, let '(d, o) := m st.2 in ((st.1, d), o).

(** [if key not in d: d[key] = create_empty_stats()] *)
Definition ensure_entry (key : option pykey) : M (list (pykey * Stats)) unit :=
  match key with
  | Some k =>
      modify (λ d, match dict_get k d with
                   | Some _ => d
                   | None => dict_set k create_empty_stats d
                   end)
  | None => ret tt
  end.

(** [update_stats_single_record(d[key], normalized)]: the tree is mutated in
    place, so it keeps what was done to it when the update raises. *)
Definition update_entry (key : option pykey) (normalized : list (string * json))
    : M (list (pykey * Stats)) unit :=
  match key with
  | Some k =>
      λ d, match dict_get k d with
           | None => (d, Raise KeyError)
           | Some s =>
               let '(s', o) := update_stats_single_record normalized s in
               (dict_set k s' d, o)
           end
  | None => ret tt
  end.

(** [item.get('relationships', {}).get(kind, {}).get('data', {}).get('id')] *)
Definition related_id (item : json) (kind : string) : outcome json :=
  match get_path item ["relationships"; kind; "data"] with
  | Ok d => py_get d "id"
  | Raise e => Raise e
  end.

(** The [try] block executed for one decoded line. *)
Definition process_item (item : json) : M FileState unit :=
  attrs <- lift (py_get_default item "attributes" (JObj [])) ;;
  record_state <- lift (py_get attrs "state") ;;
  match record_state with
  | JStr "findable" =>
      client_id <- lift (related_id item "client") ;;
      provider_id <- lift (related_id item "provider") ;;
      if negb (truthy client_id) && negb (truthy provider_id) then ret tt
      else
        normalized <- lift (get_fields item) ;;
        client_key <- lift (to_key client_id) ;;
        on_clients (ensure_entry client_key) ;;;
        provider_key <- lift (to_key provider_id) ;;
        on_providers (ensure_entry provider_key) ;;;
        on_clients (update_entry client_key normalized) ;;;
        on_providers (update_entry provider_key normalized)
  | _ => ret tt
  end.

(** [try: ... except Exception: continue]: the exception is logged and
    dropped, the dictionaries stay as the interrupted block left them. *)
Definition process_line (st : FileState) (item : json) : FileState :=
  (process_item item st).1.

(** [process_file] on the decoded lines that the reader yields. *)
Definition process_file (items : list json) : FileState :=
  foldl process_line ([], []) items.

(** ** Observations on trees, used to state the properties *)

(** [t['fields'][f]['subfields'][sf]], when all three subscripts exist. *)
Definition subfield_of (t : Tree) (f sf : string) : option SubfieldStats :=
  fs ← fields t !! f; sm ← subfields fs; sm !! sf.

(** [t['fields'][f]['subfields'][sf]['values'][v]] *)
Definition value_counter (t : Tree) (f sf v : string) : option Z :=
  x ← subfield_of t f sf; vm ← values x; vm !! v.

(** The trees of a stats object: the summary and every resource type. *)
Definition tree_in (s : Stats) (t : Tree) : Prop :=
  t = summary s ∨ ∃ rt, byResourceType s !! rt = Some t.

(** Folding a sequence of normalised records into one stats object, the way
    [process_file] does for one owner: a record whose update raises leaves
    the object as the interrupted update left it. *)
Definition apply_records (records : list (list (string * json))) (s : Stats) : Stats :=
  foldl (λ s r, (update_stats_single_record r s).1) s records.

(** An entity whose summary counts at least one record. *)
Definition active (e : Entry) : Prop := 0 < tree_count (summary (stats e)).

(** An entity none of whose resource types has a zero count. *)
Definition pruned (e : Entry) : Prop :=
  ∀ rt t, byResourceType (stats e) !! rt = Some t → 0 < tree_count t.

(** Every provider and client handed to the writer is active and pruned. *)
Definition final_output_positive (m : Manager) : Prop :=
  ∀ kv, kv ∈ (providers m ++ clients m)%list → active kv.2 ∧ pruned kv.2.

(** The category formula in the words of the specification: the fields of
    one status class, the sum of their counts, and the quotient by
    [totalRecords * numberOfFieldsInClass]. *)
Definition class_members (status : string) (fields : gmap string FieldStats)
    : list FieldStats :=
  filter (λ fs, fieldStatus fs = status) (map_to_list fields).*2.

Definition sum_Z (l : list Z) : Z := foldr Z.add 0 l.

Definition sum_Q (l : list Q) : Q := foldr Qplus 0%Q l.

Definition class_completeness (status : string) (fields : gmap string FieldStats)
    (total_records : Z) : Q :=
  let members := class_members status fields in
  let denominator := total_records * Z.of_nat (length members) in
  if Z.ltb 0 denominator
  then py_truediv (sum_Z (count <$> members)) denominator
  else 0%Q.

Definition mean (l : list Q) : Q :=
  (sum_Q l / inject_Z (Z.of_nat (length l)))%Q.

(** The accumulator that [calculate_category_metrics] keeps for a class. *)
Definition acc_for (status : string) (c : CategoriesAcc) : CategoryAcc :=
  if String.eqb status "mandatory" then acc_mandatory c
  else if String.eqb status "recommended" then acc_recommended c
  else acc_optional c.

Definition status_classes : list string := ["mandatory"; "recommended"; "optional"].

(** A class of two mandatory fields over two records: one field present in
    both records, the other in one. *)
Definition two_field_class : gmap string FieldStats :=
  <["A" := {| count := 2; instances := 2; fieldStatus := "mandatory";
              completeness := ratio 2 2; missing := 0; subfields := None |}]>
  (<["B" := {| count := 1; instances := 1; fieldStatus := "mandatory";
               completeness := ratio 1 2; missing := 1; subfields := None |}]> ∅).

(** ** Sample input *)

(** A findable DataCite record of client [cern.zenodo] and provider [cern]
    with the given additional attributes. *)
Definition sample_item (doi : string) (attrs : list (string * json)) : json :=
  JObj [ ("id", JStr doi);
         ("attributes", JObj (("doi", JStr doi) :: ("state", JStr "findable") :: attrs));
         ("relationships",
            JObj [ ("client", JObj [("data", JObj [("id", JStr "cern.zenodo")])]);
                   ("provider", JObj [("data", JObj [("id", JStr "cern")])]) ]) ].

(** The normalised record of an item ([get_fields] does not raise on the
    samples). *)
Definition normalised (item : json) : list (string * json) :=
  match get_fields item with
  | Ok r => r
  | Raise _ => []
  end.

Definition item_personal_creator : json :=
  sample_item "10.5555/a"
    [ ("creators", JList [JObj [("name", JStr "Lovelace, Ada"); ("nameType", JStr "Personal")]]);
      ("titles", JList [JObj [("title", JStr "Notes")]]);
      ("types", JObj [("resourceTypeGeneral", JStr "Dataset")]) ].

Definition item_without_creators : json :=
  sample_item "10.5555/b"
    [ ("titles", JList [JObj [("title", JStr "Sketch")]]);
      ("types", JObj [("resourceTypeGeneral", JStr "Dataset")]) ].

Definition item_unknown_nameType : json :=
  sample_item "10.5555/c"
    [ ("creators", JList [JObj [("name", JStr "Analytical Society"); ("nameType", JStr "Unknown")]]);
      ("titles", JList [JObj [("title", JStr "Memoirs")]]);
      ("types", JObj [("resourceTypeGeneral", JStr "Text")]) ].

Definition item_creators_as_string : json :=
  sample_item "10.5555/d"
    [ ("creators", JStr "Lovelace, Ada");
      ("titles", JList [JObj [("title", JStr "Letters")]]) ].

Definition item_unrecognised_types : json :=
  sample_item "10.5555/e"
    [ ("contributors",
         JList [JObj [("name", JStr "Babbage, Charles"); ("contributorType", JStr "Inventor")]]);
      ("relatedIdentifiers",
         JList [JObj [("relatedIdentifier", JStr "10.5555/a");
                      ("relatedIdentifierType", JStr "DOI");
                      ("relationType", JStr "IsInspiredBy")]]) ].

Definition item_two_name_identifiers : json :=
  sample_item "10.5555/f"
    [ ("creators",
         JList [JObj [("name", JStr "Lovelace, Ada");
                      ("nameIdentifiers",
                         JList [ JObj [("nameIdentifier", JStr "0000-0001-2345-6789");
                                       ("nameIdentifierScheme", JStr "ORCID")];
                                 JObj [("nameIdentifier", JStr "0000000121032683");
                                       ("nameIdentifierScheme", JStr "ISNI")] ])]]) ].

(** The statistics that [process_file] returns for client [cern.zenodo]. *)
Definition client_stats_of (items : list json) : Stats :=
  default create_empty_stats (dict_get (inl "cern.zenodo") (process_file items).1).

Definition provider_stats_of (items : list json) : Stats :=
  default create_empty_stats (dict_get (inl "cern") (process_file items).2).

(** The enumeration configured for a subfield, if it has one. *)
Definition enumeration_of (f sf : string) : list string :=
  match assoc f SUBFIELD_STATS ≫= assoc sf with
  | Some (CSet vs) => vs
  | _ => []
  end.

(** How one occurrence with an unrecognised value would show in a tree
    under the rule "counted under Other where the enumeration has it,
    otherwise dropped from the counters but still counted as present". *)
Definition unrecognised_as_other_or_present (f sf : string) (before after : Tree) : Prop :=
  if bool_decide ("Other" ∈ enumeration_of f sf)
  then value_counter after f sf "Other" = Z.succ <$> value_counter before f sf "Other"
  else (sub_count <$> subfield_of after f sf) = (Z.succ ∘ sub_count <$> subfield_of before f sf) ∧
       (sub_instances <$> subfield_of after f sf)
         = (Z.succ ∘ sub_instances <$> subfield_of before f sf).

(** A record with [n] occurrences counted once, with [n] instances. *)
Definition counted_once_with_instances (f sf : string) (n : Z) (before after : Tree) : Prop :=
  (sub_count <$> subfield_of after f sf) = ((λ x, sub_count x + 1) <$> subfield_of before f sf) ∧
  (sub_instances <$> subfield_of after f sf)
    = ((λ x, sub_instances x + n) <$> subfield_of before f sf).

(** ** Notions used in the proofs about the updater *)

(** A computation never leaves a state that is not related to the one it
    started from, whether it returns or raises. *)
Definition preserves {S A : Type} (R : S → S → Prop) (m : M S A) : Prop :=
  ∀ s, R s (m s).1.

(** The shape of a subfield and of a field: which keys exist, all numbers
    erased. *)
Definition erase_sub (x : SubfieldStats) : SubfieldStats :=
  {| sub_count := 0; sub_instances := 0; sub_missing := 0; sub_completeness := 0%Q;
     values := fmap (M := gmap string) (λ _, 0) <$> values x |}.

Definition erase_field (fs : FieldStats) : FieldStats :=
  {| count := 0; instances := 0; fieldStatus := fieldStatus fs; completeness := 0%Q;
     missing := 0; subfields := fmap (M := gmap string) erase_sub <$> subfields fs |}.

(** What [update_subfield_stats] leaves alone in the field's dictionary. *)
Definition same_field (fs fs' : FieldStats) : Prop :=
  erase_field fs' = erase_field fs ∧ count fs' = count fs ∧ missing fs' = missing fs.

Definition same_field_seen (st st' : FieldStats * gset string) : Prop :=
  same_field st.1 st'.1.

(** ** Trees built from the schema *)

(** The stats objects the program can hold before the clean-up: the empty
    object of the factory, the object left by a record update (completed or
    interrupted), and the merge of two such objects. *)
Inductive built : Stats → Prop :=
| built_empty : built create_empty_stats
| built_update (r : list (string * json)) (s : Stats) :
    built s → built (update_stats_single_record r s).1
| built_merge (a b : Stats) : built a → built b → built (merge_stats a b).

(** What holds of the fields of every tree of a built object: the status is
    the one of the schema, [count + missing] never exceeds the record count
    and reaches it for [identifier], and every schema field is there. *)
Definition field_inv (total : Z) (f : string) (fs : FieldStats) : Prop :=
  (count fs + missing fs ≤ total)%Z ∧ assoc f FIELD_STATUS = Some (fieldStatus fs).

Definition tree_inv (t : Tree) : Prop :=
  (0 ≤ tree_count t)%Z ∧
  map_Forall (field_inv (tree_count t)) (fields t) ∧
  (∃ fs, fields t !! "identifier" = Some fs ∧ count fs + missing fs = tree_count t) ∧
  (∀ f, f ∈ (FIELD_STATUS.*1) → is_Some (fields t !! f)).

Definition stats_inv (s : Stats) : Prop :=
  tree_inv (summary s) ∧
  dom (byResourceType s) = list_to_set resource_types ∧
  map_Forall (λ _ t, tree_inv t) (byResourceType s).

(** Invariant of the loop over [FIELD_STATUS] in [update_tree]: the fields
    still to come are those of [todo]. *)
Definition loop_inv (total : Z) (todo : list (string * string)) (t : Tree) : Prop :=
  (tree_count t = total ∧ tree_inv t) ∧
  NoDup (todo.*1) ∧ ("identifier" ∉ (todo.*1)) ∧
  (∀ f fs, f ∈ (todo.*1) → fields t !! f = Some fs → (count fs + missing fs ≤ total - 1)%Z).

(** ** The merge in the words of the specification *)

(** [m] carries, for every field, subfield and value of [a] or [b], the sum
    of the two counters (an absent one counting zero), with [missing] and
    [completeness] taken against the record count of [m]. *)
Definition merged_from (a b m : Tree) : Prop :=
  tree_count m = tree_count a + tree_count b ∧
  ∀ f, is_Some (fields a !! f) ∨ is_Some (fields b !! f) →
    ∃ fm, fields m !! f = Some fm ∧
      count fm = default 0 (count <$> fields a !! f) + default 0 (count <$> fields b !! f) ∧
      instances fm
        = default 0 (instances <$> fields a !! f) + default 0 (instances <$> fields b !! f) ∧
      missing fm = tree_count m - count fm ∧
      completeness fm = ratio (count fm) (tree_count m) ∧
      (∀ fs, fields a !! f = Some fs ∨ fields b !! f = Some fs →
             fieldStatus fm = fieldStatus fs) ∧
      ∀ sf, is_Some (subfield_of a f sf) ∨ is_Some (subfield_of b f sf) →
        ∃ xm, subfield_of m f sf = Some xm ∧
          sub_count xm = default 0 (sub_count <$> subfield_of a f sf)
                         + default 0 (sub_count <$> subfield_of b f sf) ∧
          sub_instances xm = default 0 (sub_instances <$> subfield_of a f sf)
                             + default 0 (sub_instances <$> subfield_of b f sf) ∧
          sub_missing xm = tree_count m - sub_count xm ∧
          sub_completeness xm = ratio (sub_count xm) (tree_count m) ∧
          ∀ v, is_Some (value_counter a f sf v) ∨ is_Some (value_counter b f sf v) →
            value_counter m f sf v
            = Some (default 0 (value_counter a f sf v) + default 0 (value_counter b f sf v)).

(** The tree that [merge_stats] builds from the two summaries, and from the
    two trees of a resource type that both sides carry. *)
Definition merge_tree (t1 t2 : Tree) : Tree :=
  let merged_fields := merge_fields (fields t1) (fields t2) in
  let total := tree_count t1 + tree_count t2 in
  {| tree_count := total; fields := merged_fields;
     categories := calculate_category_metrics merged_fields total |}.

(** [count] of a field of a tree, zero when the tree has no such field. *)
Definition field_count (t : Tree) (f : string) : Z :=
  default 0 (count <$> fields t !! f).

(** ** Two runs of the updater side by side *)

(** Two computations started in related states end in related states with
    the same outcome. *)
Definition agree {S A : Type} (R : S → S → Prop) (m1 m2 : M S A) : Prop :=
  ∀ s1 s2, R s1 s2 → R (m1 s1).1 (m2 s2).1 ∧ (m1 s1).2 = (m2 s2).2.

(** Two field dictionaries with the same keys at every level. *)
Definition same_shape (a b : FieldStats) : Prop := erase_field a = erase_field b.

Definition same_shape_seen (st1 st2 : FieldStats * gset string) : Prop :=
  same_shape st1.1 st2.1 ∧ st1.2 = st2.2.

(** Two trees whose fields have the same shape and whose counts differ by
    the fixed amounts [d]. *)
Definition shifted_fields (d : string → Z) (a b : FieldStats) (f : string) : Prop :=
  same_shape a b ∧ count a = count b + d f.

Definition shifted (d : string → Z) (t1 t2 : Tree) : Prop :=
  ∀ f, match fields t1 !! f, fields t2 !! f with
       | Some a, Some b => shifted_fields d a b f
       | None, None => True
       | _, _ => False
       end.

(** Two trees with the same fields, each of the same shape. *)
Definition same_tree_shape (t t' : Tree) : Prop :=
  ∀ f, match fields t !! f, fields t' !! f with
       | Some a, Some b => same_shape a b
       | None, None => True
       | _, _ => False
       end.

(** The count a single record adds to a field, read off an empty tree. *)
Definition record_count (f : string) (r : list (string * json)) : Z :=
  field_count (summary (apply_records [r] create_empty_stats)) f.

(** ** Counting a subfield over the occurrences of a list-valued field *)

(** The number of instances one occurrence contributes to a subfield that
    the list branch reads from the occurrence itself: one for a truthy
    (and, outside [fundingReferences], recognised) value, the number of
    name identifiers or affiliations for those two subfields, zero when the
    occurrence does not expose the subfield. *)
Definition exposed_instances (field_name subfield : string) (expected_values : config)
    (item : json) : Z :=
  let one (v : outcome json) (recognised : json → bool) : Z :=
    match v with
    | Ok v => if truthy v && recognised v then 1 else 0
    | Raise _ => 0
    end in
  let many (v : outcome json) : Z :=
    match v with
    | Ok v => if truthy v then Z.of_nat (length (as_list v)) else 0
    | Raise _ => 0
    end in
  if String.eqb field_name "fundingReferences" then one (py_get item subfield) (λ _, true)
  else if String.eqb subfield "nameType" then
    one (py_get_default item "nameType" (JStr "")) (λ _, true)
  else if String.eqb subfield "nameIdentifier" then
    many (py_get_default item "nameIdentifiers" (JList []))
  else if String.eqb subfield "affiliation" then
    many (py_get_default item "affiliation" (JList []))
  else if bool_decide (subfield ∈ simple_enumerated) then
    one (py_get item subfield)
        (λ v, match py_in_config v expected_values with Ok b => b | Raise _ => false end)
  else 0.

(** The subfields that the list branch updates while it handles another
    configuration entry. *)
Definition nested_subfields : list string :=
  ["nameIdentifierScheme"; "affiliationIdentifier"; "affiliationIdentifierScheme"].

(** What the loop can change about one subfield: its [count] and
    [instances], and whether it is in [seen_subfields]. *)
Definition sub_obs (subfield : string) (st : FieldStats * gset string)
    : option (Z * Z) * bool :=
  ((λ x, (sub_count x, sub_instances x)) <$> (subfields st.1 ≫= (.!! subfield)),
   bool_decide (subfield ∈ st.2)).

(** The effect of an occurrence that contributes [k] instances. *)
Definition bump (k : Z) (o : option (Z * Z) * bool) : option (Z * Z) * bool :=
  if Z.eqb k 0 then o
  else ((λ ci : Z * Z, (if o.2 then ci.1 else ci.1 + 1, ci.2 + k)) <$> o.1, true).

Definition same_obs (subfield : string) (st st' : FieldStats * gset string) : Prop :=
  sub_obs subfield st' = sub_obs subfield st.

(** A subfield whose value the list branch reads from the occurrence
    itself, one value per occurrence. *)
Definition read_directly (field_name subfield : string) : bool :=
  String.eqb field_name "fundingReferences" || String.eqb subfield "nameType"
  || bool_decide (subfield ∈ simple_enumerated).

Definition same_entry (subfield : string) (fs fs' : FieldStats) : Prop :=
  same_obs subfield (fs, ∅) (fs', ∅).

(** Two trees with the same statistics for one field. *)
Definition same_entry_of (f : string) (t t' : Tree) : Prop :=
  fields t' !! f = fields t !! f.

(** ** Values outside the permitted set of an enumerated subfield *)

(** The occurrence carries, under the subfield's name, a truthy value that
    the membership test of the list branch finds outside the permitted
    set. *)
Definition unrecognised (subfield : string) (vs : list string) (item : json) : bool :=
  match py_get item subfield with
  | Ok v => truthy v && match py_in v vs with Ok false => true | _ => false end
  | Raise _ => false
  end.

(** The counters of a subfield: [count], [instances] and the per-value
    counters, without the derived [missing] and [completeness]. *)
Definition counters (x : SubfieldStats) : Z * Z * option (gmap string Z) :=
  (sub_count x, sub_instances x, values x).

(** One aspect [π] of the statistics of a subfield is the same in two
    states of the list branch. *)
Definition same_view {A : Type} (π : SubfieldStats → A) (subfield : string)
    (st st' : FieldStats * gset string) : Prop :=
  π <$> (subfields st'.1 ≫= (.!! subfield)) = π <$> (subfields st.1 ≫= (.!! subfield)).

Definition same_counters (subfield : string) (fs fs' : FieldStats) : Prop :=
  same_view counters subfield (fs, ∅) (fs', ∅).

Definition same_counters_of (f subfield : string) (t t' : Tree) : Prop :=
  counters <$> subfield_of t' f subfield = counters <$> subfield_of t f subfield.

(** [field_stats['subfields'][subfield]['values'][v]] in a state of the
    list branch. *)
Definition value_obs (subfield v : string) (st : FieldStats * gset string) : option Z :=
  x ← subfields st.1 ≫= (.!! subfield); vm ← values x; vm !! v.

(** ** Bounds on the numbers of a tree *)

Definition unit_interval (q : Q) : Prop := (0 <= q)%Q ∧ (q <= 1)%Q.

Definition field_bounded (total : Z) (fs : FieldStats) : Prop :=
  (0 ≤ count fs ≤ total)%Z ∧ unit_interval (completeness fs).

Definition categories_bounded (c : Categories) : Prop :=
  unit_interval (mandatory c) ∧ unit_interval (recommended c) ∧ unit_interval (optional c).

(** No field is counted more often than the tree has seen records, and
    every completeness, current or stale, is a fraction. *)
Definition tree_bounded (t : Tree) : Prop :=
  (∀ f fs, fields t !! f = Some fs → field_bounded (tree_count t) fs) ∧
  categories_bounded (categories t).

Definition stats_bounded (s : Stats) : Prop :=
  tree_bounded (summary s) ∧ map_Forall (λ _ t, tree_bounded t) (byResourceType s).

(** Invariant of the loop over [FIELD_STATUS] for the bounds: a field still
    to come has not yet been counted for the current record. *)
Definition bounds_loop_inv (total : Z) (c0 : Categories) (todo : list (string * string))
    (t : Tree) : Prop :=
  tree_count t = total ∧ categories t = c0 ∧ NoDup (todo.*1) ∧
  ∀ f fs, fields t !! f = Some fs →
    field_bounded total fs ∧ (f ∈ (todo.*1) → (count fs ≤ total - 1)%Z).

(** What [update_subfield_stats] cannot change in the field's dictionary:
    any aspect [π] that ignores [instances] and [subfields]. *)
Definition same_aspect {A : Type} (π : FieldStats → A) (fs fs' : FieldStats) : Prop :=
  π fs' = π fs.

Definition same_aspect_seen {A : Type} (π : FieldStats → A)
    (st st' : FieldStats * gset string) : Prop :=
  π st'.1 = π st.1.

(** ** The stored floats *)

(** Python's [sum(values) / len(values)] on doubles: every addition and
    the final division round to the nearest double. *)
Definition double_mean (l : list Q) : Q :=
  nearest_double
    (foldl (λ acc x, nearest_double (acc + x)) 0%Q l / inject_Z (Z.of_nat (length l))).

(** The doubles stored as [completeness] for the fields of one class. *)
Definition stored_completeness (status : string) (fields : gmap string FieldStats)
    : list Q :=
  nearest_double <$> (completeness <$> class_members status fields).

(** A class of two mandatory fields over three records: one field present
    in two of them, the other in all three. *)
Definition three_record_class : gmap string FieldStats :=
  <["A" := {| count := 2; instances := 2; fieldStatus := "mandatory";
              completeness := ratio 2 3; missing := 1; subfields := None |}]>
  (<["B" := {| count := 3; instances := 3; fieldStatus := "mandatory";
               completeness := ratio 3 3; missing := 0; subfields := None |}]> ∅).

(** ** Completeness values that are fractions *)

Definition unit_fraction (q : Q) : bool := Qle_bool 0 q && Qle_bool q 1.

Definition field_fractions (fs : FieldStats) : bool :=
  unit_fraction (completeness fs) &&
  match subfields fs with
  | Some sm => bool_decide (map_Forall (λ _ x, unit_fraction (sub_completeness x) = true) sm)
  | None => true
  end.

Definition tree_fractions (t : Tree) : bool :=
  bool_decide (map_Forall (λ _ fs, field_fractions fs = true) (fields t)) &&
  unit_fraction (mandatory (categories t)) &&
  unit_fraction (recommended (categories t)) &&
  unit_fraction (optional (categories t)).

(** Every completeness of the object, of a field, a subfield or a
    category, in the summary and in every resource type, lies between 0
    and 1. *)
Definition stats_fractions (s : Stats) : bool :=
  tree_fractions (summary s) &&
  bool_decide (map_Forall (λ _ t, tree_fractions t = true) (byResourceType s)).

(** * Properties *)

(** ** Clean-up of the value counters *)

Lemma value_counter_clean_tree (t : Tree) (f sf v : string) (c : Z) :
  value_counter (clean_tree t) f sf v = Some c ↔
  value_counter t f sf v = Some c ∧ 0 < c.
Proof.
  unfold value_counter, subfield_of, clean_tree; simpl.
  rewrite lookup_fmap.
  destruct (fields t !! f) as [fs|]; simpl; [|by split; [|intros [? ?]]].
  destruct (subfields fs) as [sm|]; simpl; [|by split; [|intros [? ?]]].
  rewrite lookup_fmap.
  destruct (sm !! sf) as [x|]; simpl; [|by split; [|intros [? ?]]].
  destruct (values x) as [vm|]; simpl; [|by split; [|intros [? ?]]].
  unfold clean_values. rewrite map_lookup_filter_Some. done.
Qed.

Lemma cleaned_resource_type (s : Stats) (rt : string) (t' : Tree) :
  byResourceType (remove_zero_count_resource_types_and_clean s) !! rt = Some t' ↔
  ∃ t, byResourceType s !! rt = Some t ∧ 0 < tree_count t ∧ t' = clean_tree t.
Proof.
  unfold remove_zero_count_resource_types_and_clean; simpl.
  rewrite lookup_fmap. split.
  - intros H. destruct (filter _ _ !! rt) as [t|] eqn:E; simplify_eq/=.
    apply map_lookup_filter_Some in E as [E1 E2]. eauto.
  - intros (t & E1 & E2 & ->).
    assert (filter (λ kv : string * Tree, 0 < tree_count kv.2) (byResourceType s) !! rt
            = Some t) as ->; [|done].
    apply map_lookup_filter_Some; done.
Qed.

(** C10.  After [remove_zero_count_resource_types_and_clean], every value
    counter that is left in the summary or in a retained resource type is
    strictly positive and is the counter the tree had before; a counter
    that was positive before is still there, so a value that is absent
    afterwards had no positive count. *)
Theorem C10_cleaned_value_counters_positive (s : Stats) (f sf v : string) (c : Z) :
  let s' := remove_zero_count_resource_types_and_clean s in
  (value_counter (summary s') f sf v = Some c ↔
     value_counter (summary s) f sf v = Some c ∧ 0 < c) ∧
  (∀ rt t', byResourceType s' !! rt = Some t' →
     ∃ t, byResourceType s !! rt = Some t ∧
          (value_counter t' f sf v = Some c ↔ value_counter t f sf v = Some c ∧ 0 < c)).
Proof.
  intros s'. split.
  - apply value_counter_clean_tree.
  - intros rt t' H. apply cleaned_resource_type in H as (t & H1 & H2 & ->).
    exists t. split; [done|]. apply value_counter_clean_tree.
Qed.

(** ** Pruning in the aggregation driver *)

Lemma elem_of_dict_set {K V : Type} `{EqDecision K} (k : K) (v : V)
    (d : list (K * V)) (kv : K * V) :
  kv ∈ dict_set k v d → kv = (k, v) ∨ kv ∈ d.
Proof.
  induction d as [|[k' v'] r IH]; simpl.
  - intros ->%list_elem_of_singleton. by left.
  - destruct (decide (k = k')) as [->|Hne]; rewrite !elem_of_cons.
    + intros [->|Hin]; [by left|by right; right].
    + intros [->|Hin]; [by right; left|].
      destruct (IH Hin) as [->|Hd]; [by left|by right; right].
Qed.

Lemma dict_get_dict_set {K V : Type} `{EqDecision K} (k : K) (v : V) (d : list (K * V)) :
  dict_get k (dict_set k v d) = Some v.
Proof.
  induction d as [|[k' v'] r IH]; simpl.
  - by rewrite decide_True.
  - destruct (decide (k = k')) as [->|Hne]; simpl.
    + by rewrite decide_True.
    + by rewrite decide_False.
Qed.

Lemma dict_get_clean (k : string) (d : list (string * Entry)) :
  dict_get k (clean_entry <$> d) = (λ e, (clean_entry (k, e)).2) <$> dict_get k d.
Proof.
  induction d as [|[k' e'] r IH]; simpl; [done|].
  destruct (decide (k = k')) as [->|Hne]; [done|]. apply IH.
Qed.

Lemma clean_entry_pruned (kv : string * Entry) : pruned (clean_entry kv).2.
Proof.
  intros rt t H. simpl in H.
  apply cleaned_resource_type in H as (t0 & _ & Hpos & ->). done.
Qed.

Lemma clean_entry_active (kv : string * Entry) : active (clean_entry kv).2 ↔ active kv.2.
Proof. done. Qed.

(** C9, as the driver implements it.  In the output of [run] every resource
    type of every provider and client has a positive record count, and every
    provider other than ["aggregate"] and every client other than
    ["aggregate.all"] has a positive summary count; the two aggregate
    entities are always part of the output. *)
Theorem C9_final_output_pruned (registry_providers registry_clients : list RegistryItem)
    (results : list (list (pykey * Stats) * list (pykey * Stats))) :
  let m := run registry_providers registry_clients results in
  (∀ kv, kv ∈ (providers m ++ clients m)%list → pruned kv.2) ∧
  (∀ kv, kv ∈ providers m → kv.1 ≠ "aggregate" → active kv.2) ∧
  (∀ kv, kv ∈ clients m → kv.1 ≠ "aggregate.all" → active kv.2) ∧
  is_Some (dict_get "aggregate" (providers m)) ∧
  is_Some (dict_get "aggregate.all" (clients m)).
Proof.
  intros m. subst m. unfold run.
  set (m0 := foldl reduce_file _ results).
  unfold clean_resource_types, create_aggregate_entries; simpl.
  repeat split.
  - intros kv [H|H]%elem_of_app;
      apply list_elem_of_fmap in H as (kv0 & -> & _); apply clean_entry_pruned.
  - intros kv H Hne. apply list_elem_of_fmap in H as ([k0 e0] & -> & H).
    apply clean_entry_active. simpl in *.
    apply elem_of_dict_set in H as [H|H]; [congruence|].
    by apply list_elem_of_filter in H as [H _].
  - intros kv H Hne. apply list_elem_of_fmap in H as ([k0 e0] & -> & H).
    apply clean_entry_active. simpl in *.
    apply elem_of_dict_set in H as [H|H]; [congruence|].
    by apply list_elem_of_filter in H as [H _].
  - rewrite dict_get_clean, dict_get_dict_set. by eexists.
  - rewrite dict_get_clean, dict_get_dict_set. by eexists.
Qed.

(** With a registry of one provider and one client and no record for
    either, both are filtered out and the two aggregate entities, built
    afterwards from nothing, are written with a record count of zero. *)
Lemma C9_aggregate_with_zero_count :
  ¬ final_output_positive
      (run [ {| reg_id := "cern"; reg_attributes := JObj [("name", JStr "CERN")];
                reg_provider := None |} ]
           [ {| reg_id := "cern.zenodo"; reg_attributes := JObj [("name", JStr "Zenodo")];
                reg_provider := Some "cern" |} ]
           [ ([], []) ]).
Proof.
  intros H.
  match type of H with final_output_positive ?m =>
    assert (∃ e, ("aggregate", e) ∈ providers m ∧ tree_count (summary (stats e)) = 0)
      as (e & Hin & Hz)
  end.
  { eexists. split; [vm_compute; apply list_elem_of_here|reflexivity]. }
  destruct (H ("aggregate", e)) as [Hact _]; [apply elem_of_app; by left|].
  unfold active in Hact. simpl in Hact. lia.
Qed.

(** ** Category rollup *)

Lemma acc_for_step (status k : string) (fs : FieldStats) (c : CategoriesAcc) :
  status ∈ status_classes →
  acc_for status (category_step k fs c) =
    if decide (fieldStatus fs = status) then acc_add fs (acc_for status c)
    else acc_for status c.
Proof.
  intros Hin. unfold category_step, acc_for.
  assert (status = "mandatory" ∨ status = "recommended" ∨ status = "optional") as Hs.
  { unfold status_classes in Hin. rewrite !elem_of_cons in Hin.
    destruct Hin as [?|[?|[?|Hin]]]; auto. by apply elem_of_nil in Hin. }
  destruct (String.eqb_spec (fieldStatus fs) "mandatory") as [E1|E1];
    [|destruct (String.eqb_spec (fieldStatus fs) "recommended") as [E2|E2];
      [|destruct (String.eqb_spec (fieldStatus fs) "optional") as [E3|E3]]];
    destruct Hs as [->|[-> | ->]]; simpl;
    try rewrite E1; try rewrite E2; try rewrite E3;
    case_decide; simpl; congruence.
Qed.

Lemma acc_for_accumulate (status : string) (l : list (string * FieldStats)) :
  status ∈ status_classes →
  let members := filter (λ fs, fieldStatus fs = status) l.*2 in
  acc_for status
    (foldr (uncurry category_step)
       {| acc_mandatory := acc_zero; acc_recommended := acc_zero; acc_optional := acc_zero |} l)
  = {| acc_count := sum_Z (count <$> members); acc_total := 0;
       acc_num_fields := Z.of_nat (length members) |}.
Proof.
  intros Hin. induction l as [|[k fs] r IH].
  - simpl. unfold acc_for. by repeat case_match.
  - cbn [foldr uncurry]. rewrite acc_for_step by done. cbv zeta in IH. rewrite IH.
    rewrite fmap_cons, filter_cons. cbn [snd]. case_decide; [|done].
    unfold acc_add. rewrite fmap_cons.
    cbn [acc_count acc_total acc_num_fields sum_Z foldr length].
    unfold sum_Z. f_equal; lia.
Qed.

Lemma category_of_class (status : string) (fields : gmap string FieldStats) (total : Z) :
  status ∈ status_classes →
  acc_completeness (acc_set_total total (acc_for status (category_accumulate fields)))
  = class_completeness status fields total.
Proof.
  intros Hin. unfold category_accumulate. rewrite map_fold_foldr.
  rewrite acc_for_accumulate by done.
  unfold class_completeness, class_members, acc_set_total, acc_completeness; simpl.
  set (members := filter _ _).
  destruct (Z.ltb_spec 0 (Z.of_nat (length members))) as [Hn|Hn]; simpl.
  - done.
  - assert (Z.of_nat (length members) = 0) as -> by lia.
    rewrite Z.mul_0_r. done.
Qed.

(** C4, as the program computes it.  The completeness that
    [calculate_category_metrics] reports for a status class is one
    quotient: the sum of the counts of the fields of the class over
    [total * number of fields in the class], and [0.0] when that
    denominator is not positive. *)
Theorem C4_category_quotient (fields : gmap string FieldStats) (total : Z) :
  let c := calculate_category_metrics fields total in
  mandatory c = class_completeness "mandatory" fields total ∧
  recommended c = class_completeness "recommended" fields total ∧
  optional c = class_completeness "optional" fields total ∧
  ∀ status,
    (total * Z.of_nat (length (class_members status fields)) ≤ 0)%Z →
    class_completeness status fields total = 0%Q.
Proof.
  intros c. subst c. unfold calculate_category_metrics.
  split; [|split; [|split]].
  - apply (category_of_class "mandatory"). apply (bool_decide_unpack _). by vm_compute.
  - apply (category_of_class "recommended"). apply (bool_decide_unpack _). by vm_compute.
  - apply (category_of_class "optional"). apply (bool_decide_unpack _). by vm_compute.
  - intros status Hd. unfold class_completeness. cbv zeta.
    destruct (Z.ltb_spec 0 (total * Z.of_nat (length (class_members status fields))));
      [lia|done].
Qed.

(** The two-field example: one mandatory field present in both of two
    records and one present in one of them give a mandatory completeness
    of 3/4; 3/4 is a double, and the mean of the two stored doubles 1.0 and
    0.5, computed in doubles, is the same 3/4. *)
Lemma C4_two_field_example :
  mandatory (calculate_category_metrics two_field_class 2) = (3 # 4)%Q ∧
  nearest_double (3 # 4) = (3 # 4)%Q ∧
  double_mean (stored_completeness "mandatory" two_field_class) = (3 # 4)%Q.
Proof.
  pose proof (C4_category_quotient two_field_class 2) as (H1 & _).
  split; [rewrite H1; vm_compute; reflexivity|].
  split; vm_compute; reflexivity.
Defined.

(** The category completeness is not the mean of the stored field
    completeness values.  Two mandatory fields over three records, one
    present in two and one in all three: the stored category completeness
    is the double nearest to 5/6, 0.8333333333333334, while the stored
    field values are the doubles nearest to 2/3 and 1, whose mean is a
    smaller number, whether it is taken exactly, taken exactly and rounded
    to a double, or summed and divided in doubles (0.8333333333333333,
    the second fraction below). *)
Lemma C4_mean_differs_in_doubles :
  let stored_category :=
    nearest_double (mandatory (calculate_category_metrics three_record_class 3)) in
  let stored := stored_completeness "mandatory" three_record_class in
  stored_category = (7505999378950827 # 9007199254740992)%Q ∧
  double_mean stored = (3752999689475413 # 4503599627370496)%Q ∧
  ¬ (stored_category == mean stored)%Q ∧
  ¬ (stored_category == nearest_double (mean stored))%Q ∧
  ¬ (stored_category == double_mean stored)%Q.
Proof.
  cbv zeta. split; [vm_compute; reflexivity|]. split; [vm_compute; reflexivity|].
  repeat split; intros H; vm_compute in H; discriminate H.
Qed.

(** ** The updater on the sample records *)

(** C1.  After a record with a creator of name type [Personal] and a second
    record without creators, both processed without error, the summary
    counts two records, but the [nameType] subfield still has the [missing]
    and [completeness] of the first record: [count + missing] is 1, and the
    completeness is 1 instead of 1/2.  The field [creators] itself is
    recomputed. *)
Lemma C1_subfield_missing_is_stale :
  let s := client_stats_of [item_personal_creator; item_without_creators] in
  snd (update_stats_single_record (normalised item_personal_creator) create_empty_stats) = Ok tt ∧
  snd (update_stats_single_record (normalised item_without_creators)
         (client_stats_of [item_personal_creator])) = Ok tt ∧
  tree_count (summary s) = 2 ∧
  ((λ fs, (count fs, missing fs, completeness fs)) <$> fields (summary s) !! "creators")
    = Some (1, 1, (1 # 2)%Q) ∧
  ((λ x, (sub_count x, sub_missing x, sub_completeness x))
     <$> subfield_of (summary s) "creators" "nameType") = Some (1, 0, 1%Q).
Proof. vm_compute. repeat split; reflexivity. Qed.

(** C7.  A creator whose [nameType] is not one of the two counters raises
    [KeyError] in the middle of the record: the record and the creator are
    counted, [titles], although present, is never reached, the tree of the
    record's resource type is not touched, and the provider's tree does not
    see the record at all.  A string where the list of creators is expected
    raises [AttributeError] at the same place. *)
Lemma C7_record_aborted_part_way :
  let r := normalised item_unknown_nameType in
  let s := client_stats_of [item_unknown_nameType] in
  snd (update_stats_single_record r create_empty_stats) = Raise KeyError ∧
  truthy (record_get r "titles") = true ∧
  tree_count (summary s) = 1 ∧
  (count <$> fields (summary s) !! "creators") = Some 1 ∧
  ((λ fs, (count fs, missing fs)) <$> fields (summary s) !! "titles") = Some (0, 0) ∧
  (tree_count <$> byResourceType s !! "Text") = Some 0 ∧
  tree_count (summary (provider_stats_of [item_unknown_nameType])) = 0 ∧
  snd (update_stats_single_record (normalised item_creators_as_string) create_empty_stats)
    = Raise AttributeError ∧
  (count <$> fields (summary (client_stats_of [item_creators_as_string])) !! "titles") = Some 0.
Proof. vm_compute. repeat split; reflexivity. Qed.

(** C8.  The tree built from one record without creators is not a fixed
    point of merging with the empty tree: the merge recomputes the [missing]
    of the [nameType] subfield against the record count, the updater had
    left it at zero. *)
Lemma C8_empty_merge_changes_tree :
  let t := client_stats_of [item_without_creators] in
  snd (update_stats_single_record (normalised item_without_creators) create_empty_stats) = Ok tt ∧
  (sub_missing <$> subfield_of (summary t) "creators" "nameType") = Some 0 ∧
  (sub_missing <$> subfield_of (summary (merge_stats t create_empty_stats)) "creators" "nameType")
    = Some 1 ∧
  merge_stats t create_empty_stats ≠ t.
Proof.
  assert (∀ t : Stats,
            (sub_missing <$> subfield_of (summary t) "creators" "nameType") = Some 0 →
            (sub_missing <$> subfield_of (summary (merge_stats t create_empty_stats))
                               "creators" "nameType") = Some 1 →
            merge_stats t create_empty_stats ≠ t) as Hne.
  { intros t H0 H1 E. rewrite E in H1. rewrite H0 in H1. discriminate. }
  cbv zeta. repeat split; [vm_compute; reflexivity ..|].
  apply Hne; vm_compute; reflexivity.
Qed.

(** An unrecognised [contributorType] is not counted under ["Other"],
    although the enumeration has it, and an unrecognised [relationType],
    whose enumeration has no ["Other"], does not count the subfield as
    present. *)
Lemma C6_unrecognised_value_ignored :
  let before := summary create_empty_stats in
  let after := summary (client_stats_of [item_unrecognised_types]) in
  ¬ unrecognised_as_other_or_present "contributors" "contributorType" before after ∧
  ¬ unrecognised_as_other_or_present "relatedIdentifiers" "relationType" before after.
Proof.
  cbv zeta. split.
  - unfold unrecognised_as_other_or_present.
    replace (bool_decide ("Other" ∈ enumeration_of "contributors" "contributorType"))
      with true by (vm_compute; reflexivity).
    intros H. vm_compute in H. discriminate.
  - unfold unrecognised_as_other_or_present.
    replace (bool_decide ("Other" ∈ enumeration_of "relatedIdentifiers" "relationType"))
      with false by (vm_compute; reflexivity).
    intros [H _]. vm_compute in H. discriminate.
Qed.

(** One creator with two name identifiers: the [nameIdentifier] subfield is
    counted once, with two instances for the single occurrence. *)
Lemma C5_instances_exceed_occurrences :
  ¬ counted_once_with_instances "creators" "nameIdentifier" 1
      (summary create_empty_stats)
      (summary (client_stats_of [item_two_name_identifiers])).
Proof. intros [_ H]. vm_compute in H. discriminate. Qed.

(** ** Reasoning about interruptible computations *)

Section Preservation.
Context {S : Type} (R : S → S → Prop) `{!PreOrder R}.

Lemma preserves_ret {A : Type} (a : A) : preserves R (ret a).
Proof. intros s. simpl. reflexivity. Qed.

Lemma preserves_raise {A : Type} (e : exn) : preserves R (raise (A := A) e).
Proof. intros s. simpl. reflexivity. Qed.

Lemma preserves_lift {A : Type} (o : outcome A) : preserves R (lift o).
Proof. intros s. simpl. reflexivity. Qed.

Lemma preserves_get : preserves R get.
Proof. intros s. simpl. reflexivity. Qed.

Lemma preserves_modify (f : S → S) : (∀ s, R s (f s)) → preserves R (modify f).
Proof. intros H s. apply H. Qed.

Lemma preserves_bind {A B : Type} (m : M S A) (f : A → M S B) :
  preserves R m → (∀ a, preserves R (f a)) → preserves R (bind m f).
Proof.
  intros Hm Hf s. unfold bind. specialize (Hm s).
  destruct (m s) as [s' [a|e]]; simpl in *; [|done].
  etrans; [exact Hm|apply Hf].
Qed.

Lemma preserves_when (b : bool) (m : M S unit) :
  preserves R m → preserves R (when b m).
Proof. intros Hm. destruct b; simpl; [done|apply preserves_ret]. Qed.

Lemma preserves_for_each {X : Type} (l : list X) (body : X → M S unit) :
  (∀ x, preserves R (body x)) → preserves R (for_each l body).
Proof.
  intros Hb. induction l as [|x r IH]; simpl.
  - apply preserves_ret.
  - apply preserves_bind; [apply Hb|done].
Qed.
End Preservation.

(** One step through the structure of a computation, for any of the
    relations used below. *)
Ltac preserves_step :=
  lazymatch goal with
  | |- preserves ?R (bind _ _) => apply (preserves_bind R); [|intros ?]
  | |- preserves ?R (when _ _) => apply (preserves_when R)
  | |- preserves ?R (for_each _ _) => apply (preserves_for_each R); intros ?
  | |- preserves ?R (ret _) => apply (preserves_ret R)
  | |- preserves ?R (raise _) => apply (preserves_raise R)
  | |- preserves ?R (lift _) => apply (preserves_lift R)
  | |- preserves ?R get => apply (preserves_get R)
  end.


Global Instance same_field_preorder : PreOrder same_field.
Proof.
  split.
  - intros fs. by repeat split.
  - intros a b c (H1 & H2 & H3) (H4 & H5 & H6). unfold same_field.
    rewrite H4, H1, H5, H2, H6, H3. done.
Qed.

Global Instance same_field_seen_preorder : PreOrder same_field_seen.
Proof.
  split.
  - intros st. unfold same_field_seen. reflexivity.
  - intros a b c H1 H2. unfold same_field_seen in *. by etrans.
Qed.

Lemma erase_set_subfields (fs : FieldStats) (sm sm' : gmap string SubfieldStats) :
  subfields fs = Some sm → erase_sub <$> sm' = erase_sub <$> sm →
  same_field fs (set_subfields fs sm').
Proof.
  intros Hs E. unfold same_field, erase_field, set_subfields; simpl.
  rewrite Hs; simpl. rewrite E. done.
Qed.

Lemma fmap_insert_same {A B : Type} (g : A → B) (k : string) (x x' : A) (m : gmap string A) :
  m !! k = Some x → g x' = g x → g <$> <[k := x']> m = g <$> m.
Proof.
  intros Hk Hg. rewrite fmap_insert, Hg. apply insert_id.
  by rewrite lookup_fmap, Hk.
Qed.

Lemma with_sub_same_field (sf : string) (f : SubfieldStats → SubfieldStats) :
  (∀ x, erase_sub (f x) = erase_sub x) → preserves same_field (with_sub sf f).
Proof.
  intros Hf fs. unfold with_sub.
  destruct (subfields fs) as [sm|] eqn:Hs; [|reflexivity].
  destruct (sm !! sf) as [x|] eqn:Hx; [|reflexivity]. simpl.
  eapply erase_set_subfields; [done|]. by eapply fmap_insert_same.
Qed.

Lemma incr_value_same_field (sf : string) (v : json) :
  preserves same_field (incr_value sf v).
Proof.
  intros fs. unfold incr_value.
  destruct (subfields fs) as [sm|] eqn:Hs; [|reflexivity].
  destruct (sm !! sf) as [x|] eqn:Hx; [|reflexivity].
  destruct (values x) as [vm|] eqn:Hv; [|reflexivity].
  destruct v as [| | |k| |]; try reflexivity.
  destruct (vm !! k) as [n|] eqn:Hk; [|reflexivity]. simpl.
  eapply erase_set_subfields; [done|]. eapply fmap_insert_same; [done|].
  unfold erase_sub; simpl. rewrite Hv; simpl. f_equal. f_equal.
  by eapply fmap_insert_same.
Qed.

Lemma on_stats_same_field {A : Type} (m : M FieldStats A) :
  preserves same_field m → preserves same_field_seen (on_stats m).
Proof.
  intros Hm [fs seen]. unfold on_stats, same_field_seen; simpl.
  specialize (Hm fs). destruct (m fs) as [fs' o]. done.
Qed.

Lemma with_seen_same_field {A : Type} (m : M (FieldStats * gset string) A) :
  preserves same_field_seen m → preserves same_field (with_seen m).
Proof.
  intros Hm fs. unfold with_seen. specialize (Hm (fs, ∅)).
  destruct (m (fs, ∅)) as [st' o]. done.
Qed.

Lemma count_once_same_field (sf : string) : preserves same_field_seen (count_once sf).
Proof.
  unfold count_once. repeat preserves_step.
  - apply on_stats_same_field, with_sub_same_field. done.
  - apply (preserves_modify same_field_seen). intros s. unfold same_field_seen. reflexivity.
Qed.

Ltac same_field_step :=
  first
    [ preserves_step
    | apply on_stats_same_field
    | apply with_seen_same_field
    | apply count_once_same_field
    | apply incr_value_same_field
    | apply with_sub_same_field; done
    | apply (preserves_modify same_field); intros ?; by repeat split ].

Lemma update_item_subfield_same_field (field_name : string)
    (field_config : list (string * config)) (item : json) (entry : string * config) :
  preserves same_field_seen (update_item_subfield field_name field_config item entry).
Proof.
  destruct entry as [subfield expected_values]. unfold update_item_subfield.
  repeat (case_match; repeat same_field_step).
Qed.

Lemma recompute_subfield_same_field (total_dois : Z) (entry : string * config) :
  preserves same_field (recompute_subfield total_dois entry).
Proof.
  unfold recompute_subfield.
  repeat (case_match; repeat same_field_step).
Qed.

Lemma update_single_subfield_same_field (total_dois : Z) (field_value : json)
    (entry : string * config) :
  preserves same_field (update_single_subfield total_dois field_value entry).
Proof.
  destruct entry as [subfield expected_values]. unfold update_single_subfield.
  repeat (case_match; repeat same_field_step).
Qed.

(** [update_subfield_stats] changes neither the keys of the field's
    dictionary nor its own [count] and [missing], however it ends. *)
Lemma update_subfield_stats_same_field (field_value : json) (field_name : string)
    (total_dois : Z) :
  preserves same_field (update_subfield_stats field_value field_name total_dois).
Proof.
  unfold update_subfield_stats.
  repeat (case_match; repeat same_field_step);
    auto using update_item_subfield_same_field, recompute_subfield_same_field,
      update_single_subfield_same_field.
Qed.

(** ** Invariant of built trees *)

Lemma for_each_inv {S X : Type} (J : list X → S → Prop) (F : S → Prop)
    (body : X → M S unit) (l : list X) (s : S) :
  (∀ s, J [] s → F s) →
  (∀ x r s, J (x :: r) s →
     match body x s with
     | (s', Ok _) => J r s'
     | (s', Raise _) => F s'
     end) →
  J l s → F (for_each l body s).1.
Proof.
  intros Hend Hstep. revert s. induction l as [|x r IH]; intros s HJ; simpl.
  - by apply Hend.
  - unfold bind. specialize (Hstep x r s HJ).
    destruct (body x s) as [s' [[]|e]]; simpl; [by apply IH|done].
Qed.

Lemma update_field_stats_effect (v : json) (f : string) (fs : FieldStats) :
  let fs' := update_field_stats v f fs in
  fieldStatus fs' = fieldStatus fs ∧ missing fs' = missing fs ∧
  subfields fs' = subfields fs ∧
  count fs' = count fs + (if truthy v then 1 else 0).
Proof.
  unfold update_field_stats.
  destruct (truthy v) eqn:Hv; simpl; [|by rewrite Z.add_0_r].
  assert (not_none_or_empty v = true) as Hn.
  { destruct v; simpl in *; try done. }
  destruct v; rewrite ?Hn; simpl in Hv |- *; try rewrite Hv;
    destruct (has_subfields f); simpl; done.
Qed.

(** The computation that [update_tree_field] runs on the field's
    dictionary. *)
Lemma field_update_effect (v : json) (f : string) (total : Z) (fs : FieldStats) :
  let '(fs', o) :=
    (modify (update_field_stats v f) ;;;
     when (has_subfields f && truthy v) (update_subfield_stats v f total) ;;;
     modify (recompute_field total)) fs in
  fieldStatus fs' = fieldStatus fs ∧
  count fs' = count fs + (if truthy v then 1 else 0) ∧
  match o with
  | Ok _ => count fs' + missing fs' = total
  | Raise _ => missing fs' = missing fs ∧ has_subfields f = true
  end.
Proof.
  unfold bind, modify.
  destruct (update_field_stats_effect v f fs) as (E1 & E2 & _ & E4).
  set (fs1 := update_field_stats v f fs) in *.
  assert (preserves same_field
            (when (has_subfields f && truthy v) (update_subfield_stats v f total))) as Hp.
  { apply (preserves_when same_field), update_subfield_stats_same_field. }
  specialize (Hp fs1).
  destruct (has_subfields f) eqn:Hs; simpl in *.
  - destruct (when (truthy v) (update_subfield_stats v f total) fs1) as [fs2 [[]|e]];
      simpl in *; destruct Hp as (Hp1 & Hp2 & Hp3);
      apply (f_equal fieldStatus) in Hp1; simpl in Hp1.
    + repeat split; [congruence|congruence|lia].
    + repeat split; congruence.
  - repeat split; [congruence|congruence|lia].
Qed.

Lemma NoDup_FIELD_STATUS : NoDup (FIELD_STATUS.*1).
Proof. apply (bool_decide_unpack _). vm_compute. exact I. Qed.

Lemma update_tree_field_step (record : list (string * json)) (total : Z)
    (x : string * string) (todo : list (string * string)) (t : Tree) :
  (0 ≤ total)%Z → loop_inv total (x :: todo) t →
  match update_tree_field record total x t with
  | (t', Ok _) => loop_inv total todo t'
  | (t', Raise _) => tree_count t' = total ∧ tree_inv t'
  end.
Proof.
  intros Htot ((Hc & Hpos & Hall & (fi & Hfi & Hi) & Hdom) & Hnd & Hid & Htodo).
  destruct x as [f st]. rewrite fmap_cons in Hnd, Hid, Htodo. simpl in Hnd, Hid, Htodo.
  apply NoDup_cons in Hnd as [Hf Hnd]. apply not_elem_of_cons in Hid as [Hidf Hid].
  unfold update_tree_field, on_field. simpl.
  destruct (fields t !! f) as [fs|] eqn:Hfs.
  2:{ split; [done|]. split; [done|]. split; [done|]. split; [by exists fi|done]. }
  pose proof (field_update_effect (record_get record f) f total fs) as Heff.
  destruct ((modify (update_field_stats (record_get record f) f) ;;; _) fs) as [fs' o].
  destruct Heff as (Hst & Hcnt & Ho).
  assert (count fs + missing fs ≤ total - 1)%Z as Hold
    by (apply (Htodo f); [apply list_elem_of_here|done]).
  assert (count fs' + missing fs' ≤ total)%Z as Hnew.
  { destruct o as [[]|e]; [lia|]. destruct Ho as [Ho _]. rewrite Ho, Hcnt.
    destruct (truthy _); lia. }
  assert (tree_inv {| tree_count := tree_count t; fields := <[f := fs']> (fields t);
                      categories := categories t |}) as Hinv.
  { unfold tree_inv; simpl. split; [done|]. split; [|split].
    - apply map_Forall_insert_2; [|done]. split; [by rewrite Hc|].
      rewrite Hst. by apply (Hall f fs).
    - exists fi. rewrite lookup_insert_ne by done. done.
    - intros g Hg. destruct (decide (f = g)) as [->|Hne].
      + rewrite lookup_insert_eq. by eexists.
      + rewrite lookup_insert_ne by done. by apply Hdom. }
  destruct o as [[]|e]; [|done].
  split; [done|]. split; [done|]. split; [done|]. simpl.
  intros g gs Hg Hgs. rewrite lookup_insert_ne in Hgs.
  - apply (Htodo g); [by apply elem_of_cons; right|done].
  - intros ->. done.
Qed.

Lemma refresh_categories_inv (t : Tree) : tree_inv t → tree_inv (refresh_categories t).
Proof. done. Qed.

Lemma for_each_cons {S X : Type} (x : X) (r : list X) (body : X → M S unit) (s : S) :
  for_each (x :: r) body s =
  match body x s with
  | (s', Ok _) => for_each r body s'
  | (s', Raise e) => (s', Raise e)
  end.
Proof. reflexivity. Qed.

Lemma update_tree_run (record : list (string * json)) (t : Tree) :
  update_tree record t =
  let t0 := incr_tree_count t in
  match for_each FIELD_STATUS (update_tree_field record (tree_count t0)) t0 with
  | (t', Ok _) => (refresh_categories t', Ok tt)
  | (t', Raise e) => (t', Raise e)
  end.
Proof. reflexivity. Qed.

Lemma on_field_run {A : Type} (f : string) (m : M FieldStats A) (t : Tree) (fs : FieldStats) :
  fields t !! f = Some fs →
  on_field f m t =
  ({| tree_count := tree_count t; fields := <[f := (m fs).1]> (fields t);
      categories := categories t |}, (m fs).2).
Proof. intros H. unfold on_field. rewrite H. by destruct (m fs). Qed.

(** The loop over the schema fields, entered with the record already
    counted: [identifier] comes first, has no subfields and cannot raise. *)
Lemma fields_loop_inv (record : list (string * json)) (todo : list (string * string))
    (t0 : Tree) :
  NoDup (todo.*1) → "identifier" ∉ todo.*1 →
  tree_inv {| tree_count := tree_count t0 - 1; fields := fields t0;
              categories := categories t0 |} →
  let r := for_each (("identifier", "mandatory") :: todo)
             (update_tree_field record (tree_count t0)) t0 in
  tree_count r.1 = tree_count t0 ∧ tree_inv r.1.
Proof.
  intros Hnd Hid (Hpos & Hall & (fi & Hfi & Hi) & Hdom). simpl in Hpos, Hall, Hfi, Hi, Hdom.
  set (total := tree_count t0) in *.
  intros r.
  assert (∃ t1, loop_inv total todo t1 ∧
                r = for_each todo (update_tree_field record total) t1) as (t1 & HJ & ->).
  { subst r. rewrite for_each_cons.
    unfold update_tree_field at 1. cbn [fst]. rewrite (on_field_run _ _ t0 fi) by done.
    pose proof (field_update_effect (record_get record "identifier") "identifier" total fi)
      as Heff.
    destruct ((modify (update_field_stats (record_get record "identifier") "identifier") ;;; _)
                fi) as [fi' o].
    destruct Heff as (Hst & Hcnt & Ho). cbn [fst snd].
    destruct o as [[]|e]; [|by destruct Ho as [_ Ho]].
    eexists. split; [|reflexivity].
    split; [split; [done|]|split; [done|split; [done|]]].
    - unfold tree_inv. cbn [tree_count fields]. fold total.
      split; [lia|]. split; [|split].
      + apply map_Forall_insert_2.
        * split; [lia|]. rewrite Hst. by apply (Hall "identifier" fi).
        * intros k fs Hk. destruct (Hall k fs Hk) as [H1 H2]. split; [lia|done].
      + exists fi'. by rewrite lookup_insert_eq.
      + intros g Hg. destruct (decide ("identifier" = g)) as [<-|Hne].
        * rewrite lookup_insert_eq. by eexists.
        * rewrite lookup_insert_ne by done. by apply Hdom.
    - cbn [fields]. intros g gs Hg Hgs.
      rewrite lookup_insert_ne in Hgs by (intros <-; done).
      by destruct (Hall g gs Hgs) as [H1 _]. }
  apply (for_each_inv (loop_inv total) (λ t', tree_count t' = total ∧ tree_inv t')).
  - by intros s [H _].
  - intros x r s HJs. apply update_tree_field_step; [lia|done].
  - done.
Qed.

(** A record update, completed or interrupted, counts the record and keeps
    the invariant of the tree. *)
Lemma update_tree_inv (record : list (string * json)) (t : Tree) :
  tree_inv t →
  tree_count (update_tree record t).1 = tree_count t + 1 ∧
  tree_inv (update_tree record t).1.
Proof.
  intros Hinv. rewrite update_tree_run. cbv zeta.
  pose proof NoDup_FIELD_STATUS as Hnd.
  change FIELD_STATUS with (("identifier", "mandatory") :: tail FIELD_STATUS) in Hnd |- *.
  rewrite fmap_cons in Hnd. apply NoDup_cons in Hnd as [Hid Hnd].
  pose proof (fields_loop_inv record (tail FIELD_STATUS) (incr_tree_count t) Hnd Hid) as Hloop.
  destruct (for_each _ _ (incr_tree_count t)) as [t2 o2].
  destruct Hloop as [Hc2 Hinv2].
  { unfold incr_tree_count; cbn [tree_count fields categories].
    replace (tree_count t + 1 - 1) with (tree_count t) by lia. by destruct t. }
  cbn [fst] in Hc2, Hinv2.
  destruct o2 as [[]|e]; cbn [fst]; (split; [exact Hc2|]); [|exact Hinv2].
  by apply refresh_categories_inv.
Qed.

Lemma summary_update (record : list (string * json)) (s : Stats) :
  summary (update_stats_single_record record s).1 = (update_tree record (summary s)).1.
Proof.
  unfold update_stats_single_record, bind, on_summary, get, lift.
  destruct (update_tree record (summary s)) as [t' [[]|e]]; simpl; [|done].
  destruct (known_resource_type _ _) as [[rt|]|e]; simpl; try done.
  unfold on_resource_type; simpl.
  destruct (byResourceType s !! rt) as [t|]; simpl; [|done].
  by destruct (update_tree record t).
Qed.

(** What an update does to the resource-type dictionary: nothing, or one
    existing tree receives the record. *)
Lemma byResourceType_update (record : list (string * json)) (s : Stats) :
  byResourceType (update_stats_single_record record s).1 = byResourceType s ∨
  ∃ rt t, byResourceType s !! rt = Some t ∧
          byResourceType (update_stats_single_record record s).1
          = <[rt := (update_tree record t).1]> (byResourceType s).
Proof.
  unfold update_stats_single_record, bind, on_summary, get, lift.
  destruct (update_tree record (summary s)) as [t' [[]|e]]; simpl; [|by left].
  destruct (known_resource_type _ _) as [[rt|]|e]; simpl; try by left.
  unfold on_resource_type; simpl.
  destruct (byResourceType s !! rt) as [t|] eqn:Ht; simpl; [|by left].
  right. exists rt, t. split; [done|]. by destruct (update_tree record t).
Qed.

Lemma update_stats_inv (record : list (string * json)) (s : Stats) :
  stats_inv s → stats_inv (update_stats_single_record record s).1.
Proof.
  intros (Hsum & Hdom & Hrt). split; [|split].
  - rewrite summary_update. by apply update_tree_inv.
  - destruct (byResourceType_update record s) as [->|(rt & t & Ht & ->)]; [done|].
    rewrite dom_insert_lookup_L; [done|by eexists].
  - destruct (byResourceType_update record s) as [->|(rt & t & Ht & ->)]; [done|].
    apply map_Forall_insert_2; [|done]. apply update_tree_inv. by apply (Hrt rt).
Qed.

Lemma py_max_bound (l : list Z) (b : Z) :
  b ∈ l → (∀ x, x ∈ l → (x ≤ b)%Z) → py_max l = Some b.
Proof.
  destruct l as [|x r]; [by intros ?%elem_of_nil|]. simpl. intros Hin Hle. f_equal.
  revert x Hin Hle. induction r as [|y r IH]; intros x Hin Hle; simpl.
  - by apply list_elem_of_singleton in Hin.
  - apply IH.
    + pose proof (Hle x (list_elem_of_here _ _)).
      pose proof (Hle y (list_elem_of_further _ _ _ (list_elem_of_here _ _))).
      rewrite !elem_of_cons in Hin. rewrite elem_of_cons.
      destruct Hin as [->|[->|Hin]]; [left; lia|left; lia|by right].
    + intros z. rewrite elem_of_cons. intros [->|Hz].
      * pose proof (Hle x (list_elem_of_here _ _)).
        pose proof (Hle y (list_elem_of_further _ _ _ (list_elem_of_here _ _))). lia.
      * apply Hle. by do 2 apply list_elem_of_further.
Qed.

Lemma count_plus_missing_bound (t : Tree) (f : string) :
  tree_inv t → (count_plus_missing (fields t !! f) ≤ tree_count t)%Z.
Proof.
  intros (Hpos & Hall & _). destruct (fields t !! f) as [fs|] eqn:Hf; simpl; [|done].
  by destruct (Hall f fs Hf).
Qed.

Lemma merged_total_inv (t1 t2 : Tree) :
  tree_inv t1 → tree_inv t2 →
  merged_total (fields t1) (fields t2) = tree_count t1 + tree_count t2.
Proof.
  intros H1 H2. unfold merged_total.
  rewrite (py_max_bound _ (tree_count t1 + tree_count t2)); [done| |].
  - destruct H1 as (_ & _ & (f1 & Hf1 & E1) & _), H2 as (_ & _ & (f2 & Hf2 & E2) & _).
    apply list_elem_of_fmap. exists ("identifier", tree_count t1 + tree_count t2).
    split; [done|]. apply elem_of_map_to_list. unfold field_totals.
    rewrite lookup_merge, Hf1, Hf2. simpl. f_equal. lia.
  - intros x Hx. apply list_elem_of_fmap in Hx as ([k v] & -> & Hk).
    apply elem_of_map_to_list in Hk. unfold field_totals in Hk.
    rewrite lookup_merge in Hk.
    pose proof (count_plus_missing_bound t1 k H1).
    pose proof (count_plus_missing_bound t2 k H2).
    destruct (fields t1 !! k), (fields t2 !! k); simpl in *; simplify_eq; lia.
Qed.

Lemma tree_inv_nonempty (t : Tree) : tree_inv t → dict_empty (fields t) = false.
Proof.
  intros (_ & _ & (fi & Hfi & _) & _). unfold dict_empty.
  apply bool_decide_eq_false. intros E%map_size_empty_iff.
  by rewrite E, lookup_empty in Hfi.
Qed.

Lemma merge_fields_inv (t1 t2 : Tree) :
  tree_inv t1 → tree_inv t2 →
  merge_fields (fields t1) (fields t2)
  = merge (merge_field (tree_count t1 + tree_count t2)) (fields t1) (fields t2).
Proof.
  intros H1 H2. unfold merge_fields.
  rewrite !tree_inv_nonempty by done. by rewrite merged_total_inv.
Qed.

Lemma merge_field_Some (total : Z) (o1 o2 : option FieldStats) (fm : FieldStats) :
  diag_None (merge_field total) o1 o2 = Some fm →
  (is_Some o1 ∨ is_Some o2) ∧
  count fm = default 0 (count <$> o1) + default 0 (count <$> o2) ∧
  instances fm = default 0 (instances <$> o1) + default 0 (instances <$> o2) ∧
  missing fm = total - count fm ∧
  completeness fm = ratio (count fm) total ∧
  (∀ fs, o1 = Some fs → fieldStatus fm = fieldStatus fs) ∧
  (∀ fs, o1 = None → o2 = Some fs → fieldStatus fm = fieldStatus fs).
Proof.
  destruct o1 as [fs1|], o2 as [fs2|]; simpl; intros H; simplify_eq; simpl;
    (split; [eauto|]); repeat split; intros; simplify_eq; done.
Qed.

(** The tree that [merge_stats] builds for the summary and for a resource
    type that both sides have. *)
Lemma merged_tree_inv (t1 t2 : Tree) :
  tree_inv t1 → tree_inv t2 →
  let merged_fields := merge_fields (fields t1) (fields t2) in
  let total := tree_count t1 + tree_count t2 in
  tree_inv {| tree_count := total; fields := merged_fields;
              categories := calculate_category_metrics merged_fields total |}.
Proof.
  intros H1 H2. cbv zeta. rewrite merge_fields_inv by done.
  pose proof H1 as (Hpos1 & Hall1 & (f1 & Hf1 & E1) & Hdom1).
  pose proof H2 as (Hpos2 & Hall2 & (f2 & Hf2 & E2) & Hdom2).
  unfold tree_inv; simpl. split; [lia|]. split; [|split].
  - intros k fm Hk. rewrite lookup_merge in Hk.
    apply merge_field_Some in Hk as (Hsome & Hc & _ & Hm & _ & Hs1 & Hs2).
    split; [lia|].
    destruct (fields t1 !! k) as [fs1|] eqn:Hk1.
    + rewrite (Hs1 fs1 eq_refl). by apply (Hall1 k fs1).
    + destruct Hsome as [[? ?]|[fs2 Hk2]]; [done|].
      rewrite (Hs2 fs2 eq_refl Hk2). by apply (Hall2 k fs2).
  - rewrite lookup_merge, Hf1, Hf2. simpl. eexists. split; [done|]. simpl. lia.
  - intros f Hf. rewrite lookup_merge. destruct (Hdom1 f Hf) as [fs1 ->].
    destruct (fields t2 !! f); simpl; by eexists.
Qed.

Lemma merge_stats_inv (a b : Stats) : stats_inv a → stats_inv b → stats_inv (merge_stats a b).
Proof.
  intros (Ha & Hda & Hra) (Hb & Hdb & Hrb). split; [|split].
  - by apply merged_tree_inv.
  - unfold merge_stats; cbn [byResourceType].
    apply set_eq. intros rt. rewrite elem_of_dom, lookup_merge, <- Hda.
    rewrite elem_of_dom. split.
    + intros Hm. destruct (byResourceType a !! rt) eqn:E1; [by eexists|].
      assert (rt ∈ dom (byResourceType b)) as Hin.
      { apply elem_of_dom. destruct (byResourceType b !! rt); [by eexists|].
        simpl in Hm. by destruct Hm. }
      rewrite Hdb, <- Hda in Hin. apply elem_of_dom in Hin. by rewrite E1 in Hin.
    + intros [t1 ->]. destruct (byResourceType b !! rt); simpl; by eexists.
  - unfold merge_stats; cbn [byResourceType]. intros rt tm Hm. rewrite lookup_merge in Hm.
    destruct (byResourceType a !! rt) as [t1|] eqn:E1,
             (byResourceType b !! rt) as [t2|] eqn:E2; simpl in Hm; simplify_eq.
    + apply merged_tree_inv; [by apply (Hra rt)|by apply (Hrb rt)].
    + assert (rt ∈ dom (byResourceType b)) as Hin
        by (rewrite Hdb, <- Hda; apply elem_of_dom; by eexists).
      apply elem_of_dom in Hin. rewrite E2 in Hin. by destruct Hin.
    + assert (rt ∈ dom (byResourceType a)) as Hin
        by (rewrite Hda, <- Hdb; apply elem_of_dom; by eexists).
      apply elem_of_dom in Hin. rewrite E1 in Hin. by destruct Hin.
Qed.

Lemma empty_tree_inv : tree_inv empty_tree.
Proof.
  unfold tree_inv. split; [done|]. split; [|split].
  - apply (bool_decide_unpack _). vm_compute. exact I.
  - eexists. split; [vm_compute; reflexivity|reflexivity].
  - intros f Hf. apply elem_of_dom.
    assert (dom (fields empty_tree) = list_to_set (FIELD_STATUS.*1)) as ->.
    { apply (bool_decide_unpack _). vm_compute. exact I. }
    by apply elem_of_list_to_set.
Qed.

Lemma create_empty_stats_inv : stats_inv create_empty_stats.
Proof.
  split; [apply empty_tree_inv|]. split.
  - apply (bool_decide_unpack _). vm_compute. exact I.
  - intros rt t Ht.
    change (byResourceType create_empty_stats)
      with (foldl (λ m rt, <[rt := empty_tree]> m) (∅ : gmap string Tree) resource_types) in Ht.
    assert (∀ l (m : gmap string Tree),
              map_Forall (λ _ t, t = empty_tree) m →
              map_Forall (λ _ t, t = empty_tree) (foldl (λ m rt, <[rt := empty_tree]> m) m l))
      as Hfold.
    { induction l as [|x l IH]; intros m Hm; simpl; [done|].
      apply IH. by apply map_Forall_insert_2. }
    rewrite (Hfold resource_types ∅ (map_Forall_empty _) rt t Ht). apply empty_tree_inv.
Qed.

(** Every object the program can build satisfies the invariant. *)
Lemma built_inv (s : Stats) : built s → stats_inv s.
Proof.
  induction 1.
  - apply create_empty_stats_inv.
  - by apply update_stats_inv.
  - by apply merge_stats_inv.
Qed.

(** ** The tree merger, entry by entry *)

Lemma merge_subfield_Some (total : Z) (o1 o2 : option SubfieldStats) (xm : SubfieldStats) :
  diag_None (merge_subfield total) o1 o2 = Some xm →
  sub_count xm = default 0 (sub_count <$> o1) + default 0 (sub_count <$> o2) ∧
  sub_instances xm = default 0 (sub_instances <$> o1) + default 0 (sub_instances <$> o2) ∧
  sub_missing xm = total - sub_count xm ∧
  sub_completeness xm = ratio (sub_count xm) total.
Proof.
  destruct o1 as [x1|], o2 as [x2|]; simpl; intros H; simplify_eq; simpl; done.
Qed.

(** Looking a subfield up in a merged field dictionary. *)
Lemma subfield_of_merge (total : Z) (fa fb : gmap string FieldStats) (c : Categories)
    (ta tb : Tree) (f sf : string) :
  fields ta = fa → fields tb = fb →
  subfield_of {| tree_count := total; fields := merge (merge_field total) fa fb;
                 categories := c |} f sf
  = diag_None (merge_subfield total) (subfield_of ta f sf) (subfield_of tb f sf).
Proof.
  intros <- <-. unfold subfield_of. cbn [fields]. rewrite lookup_merge.
  destruct (fields ta !! f) as [fs1|], (fields tb !! f) as [fs2|]; simpl; try done.
  - destruct (subfields fs1), (subfields fs2); simpl;
      rewrite ?lookup_merge, ?lookup_empty; done.
  - destruct (subfields fs1); simpl; rewrite ?lookup_merge, ?lookup_empty; done.
  - destruct (subfields fs2); simpl; rewrite ?lookup_merge, ?lookup_empty; done.
Qed.

Lemma value_counter_merge (total : Z) (fa fb : gmap string FieldStats) (c : Categories)
    (ta tb : Tree) (f sf v : string) :
  fields ta = fa → fields tb = fb →
  value_counter {| tree_count := total; fields := merge (merge_field total) fa fb;
                   categories := c |} f sf v
  = diag_None (λ a b, Some (default 0 a + default 0 b))
      (value_counter ta f sf v) (value_counter tb f sf v).
Proof.
  intros Ha Hb. unfold value_counter. rewrite (subfield_of_merge _ _ _ _ ta tb) by done.
  destruct (subfield_of ta f sf) as [x1|], (subfield_of tb f sf) as [x2|]; simpl; try done.
  - destruct (values x1), (values x2); simpl; unfold merge_values;
      rewrite ?lookup_merge, ?lookup_empty; done.
  - destruct (values x1); simpl; unfold merge_values;
      rewrite ?lookup_merge, ?lookup_empty; done.
  - destruct (values x2); simpl; unfold merge_values;
      rewrite ?lookup_merge, ?lookup_empty; done.
Qed.

(** The tree that [merge_stats] builds from two trees that satisfy the
    invariant is their merge in the sense of the specification. *)
Lemma merged_tree_spec (ta tb : Tree) :
  tree_inv ta → tree_inv tb →
  let merged_fields := merge_fields (fields ta) (fields tb) in
  let total := tree_count ta + tree_count tb in
  merged_from ta tb
    {| tree_count := total; fields := merged_fields;
       categories := calculate_category_metrics merged_fields total |}.
Proof.
  intros Ha Hb. cbv zeta. rewrite merge_fields_inv by done.
  set (total := tree_count ta + tree_count tb).
  split; [done|]. cbn [tree_count fields].
  intros f Hf. rewrite lookup_merge.
  destruct (diag_None (merge_field total) (fields ta !! f) (fields tb !! f)) as [fm|] eqn:E.
  2:{ destruct Hf as [[? Hf]|[? Hf]]; rewrite Hf in E;
        destruct (fields ta !! f), (fields tb !! f); done. }
  exists fm. split; [done|].
  pose proof (merge_field_Some _ _ _ _ E) as (_ & Hc & Hi & Hm & Hq & Hs1 & Hs2).
  split; [done|]. split; [done|]. split; [done|]. split; [done|]. split.
  - intros fs [Hfs|Hfs].
    + by apply Hs1.
    + destruct (fields ta !! f) as [fs1|] eqn:E1.
      * rewrite (Hs1 fs1 eq_refl).
        destruct Ha as (_ & Hall1 & _), Hb as (_ & Hall2 & _).
        destruct (Hall1 f fs1 E1) as [_ H1]. destruct (Hall2 f fs Hfs) as [_ H2]. congruence.
      * by apply Hs2.
  - intros sf Hsf.
    rewrite (subfield_of_merge total _ _ _ ta tb) by done.
    destruct (diag_None (merge_subfield total) (subfield_of ta f sf) (subfield_of tb f sf))
      as [xm|] eqn:Ex.
    2:{ destruct Hsf as [[? Hsf]|[? Hsf]]; rewrite Hsf in Ex;
          destruct (subfield_of ta f sf), (subfield_of tb f sf); done. }
    exists xm. split; [done|].
    pose proof (merge_subfield_Some _ _ _ _ Ex) as (Hxc & Hxi & Hxm & Hxq).
    split; [done|]. split; [done|]. split; [done|]. split; [done|].
    intros v Hv. rewrite (value_counter_merge total _ _ _ ta tb) by done.
    destruct Hv as [[n Hv]|[n Hv]]; rewrite Hv;
      destruct (value_counter ta f sf v), (value_counter tb f sf v); done.
Qed.

(** C2.  For two objects built from the schema, [merge_stats] returns a
    summary whose record count is the sum of the two record counts and in
    which every field of either side has the summed [count] and [instances],
    [missing] and [completeness] recomputed against the merged record count
    and the status of whichever side defines it; subfield counts and
    instances and the value counters are summed in the same way.  The same
    holds for every resource type that both objects carry. *)
Theorem C2_merge_stats_sums (a b : Stats) :
  built a → built b →
  merged_from (summary a) (summary b) (summary (merge_stats a b)) ∧
  ∀ rt ta tb, byResourceType a !! rt = Some ta → byResourceType b !! rt = Some tb →
    ∃ tm, byResourceType (merge_stats a b) !! rt = Some tm ∧ merged_from ta tb tm.
Proof.
  intros (Ha & _ & Hra)%built_inv (Hb & _ & Hrb)%built_inv. split.
  - by apply merged_tree_spec.
  - intros rt ta tb Hta Htb. unfold merge_stats; cbn [byResourceType].
    rewrite lookup_merge, Hta, Htb. simpl. eexists. split; [done|].
    apply merged_tree_spec; [by apply (Hra rt)|by apply (Hrb rt)].
Qed.

(** ** Commutativity and associativity of the merge *)

Lemma SubfieldStats_eq (x y : SubfieldStats) :
  sub_count x = sub_count y → sub_instances x = sub_instances y →
  sub_missing x = sub_missing y → sub_completeness x = sub_completeness y →
  values x = values y → x = y.
Proof. destruct x, y; simpl; congruence. Qed.

Lemma FieldStats_eq (x y : FieldStats) :
  count x = count y → instances x = instances y → fieldStatus x = fieldStatus y →
  completeness x = completeness y → missing x = missing y →
  subfields x = subfields y → x = y.
Proof. destruct x, y; simpl; congruence. Qed.

Lemma merge_optional_comm {A : Type} (g : gmap string A → gmap string A → gmap string A)
    (a b : option (gmap string A)) :
  (∀ m1 m2, g m1 m2 = g m2 m1) → merge_optional g a b = merge_optional g b a.
Proof. intros Hg. destruct a, b; simpl; try done; f_equal; apply Hg. Qed.

Lemma merge_optional_assoc {A : Type}
    (g g1 g2 : gmap string A → gmap string A → gmap string A)
    (a b c : option (gmap string A)) :
  g1 ∅ ∅ = ∅ → g2 ∅ ∅ = ∅ →
  (∀ m1 m2 m3, g (g1 m1 m2) m3 = g m1 (g2 m2 m3)) →
  merge_optional g (merge_optional g1 a b) c = merge_optional g a (merge_optional g2 b c).
Proof.
  intros H1 H2 Hg. destruct a, b, c; simpl; try done; f_equal;
    rewrite ?Hg, ?H2; try done. by rewrite <- Hg, H1.
Qed.

Section MergeAlgebra.
#[local] Arguments merge_optional {A} g o1 o2 : simpl never.

Lemma merge_values_comm (v1 v2 : gmap string Z) : merge_values v1 v2 = merge_values v2 v1.
Proof.
  apply map_eq. intros k. unfold merge_values. rewrite !lookup_merge.
  destruct (v1 !! k), (v2 !! k); simpl; try done; f_equal; lia.
Qed.

Lemma merge_values_assoc (v1 v2 v3 : gmap string Z) :
  merge_values (merge_values v1 v2) v3 = merge_values v1 (merge_values v2 v3).
Proof.
  apply map_eq. intros k. unfold merge_values. rewrite !lookup_merge.
  destruct (v1 !! k), (v2 !! k), (v3 !! k); simpl; try done; f_equal; lia.
Qed.

Lemma merge_subfield_comm (total : Z) (x y : option SubfieldStats) :
  diag_None (merge_subfield total) x y = diag_None (merge_subfield total) y x.
Proof.
  destruct x as [x|], y as [y|]; simpl; try done;
    f_equal; apply SubfieldStats_eq; simpl; try lia; try (f_equal; lia);
    apply (merge_optional_comm merge_values), merge_values_comm.
Qed.

Lemma merge_subfield_assoc (total t1 t2 : Z) (x y z : option SubfieldStats) :
  diag_None (merge_subfield total) (diag_None (merge_subfield t1) x y) z
  = diag_None (merge_subfield total) x (diag_None (merge_subfield t2) y z).
Proof.
  destruct x as [x|], y as [y|], z as [z|]; simpl; try done;
    f_equal; apply SubfieldStats_eq; simpl; try lia; try (f_equal; lia);
    first [ apply (merge_optional_assoc merge_values merge_values merge_values)
          | apply (merge_optional_assoc merge_values merge_values merge_values _ None None)
          | apply (merge_optional_assoc merge_values merge_values merge_values None None _) ];
    first [ apply merge_empty | apply merge_values_assoc ].
Qed.

Lemma merge_subfields_comm (total : Z) (s1 s2 : gmap string SubfieldStats) :
  merge (merge_subfield total) s1 s2 = merge (merge_subfield total) s2 s1.
Proof. apply map_eq. intros k. rewrite !lookup_merge. apply merge_subfield_comm. Qed.

Lemma merge_subfields_assoc (total t1 t2 : Z) (s1 s2 s3 : gmap string SubfieldStats) :
  merge (merge_subfield total) (merge (merge_subfield t1) s1 s2) s3
  = merge (merge_subfield total) s1 (merge (merge_subfield t2) s2 s3).
Proof. apply map_eq. intros k. rewrite !lookup_merge. apply merge_subfield_assoc. Qed.

Lemma merge_field_comm (total : Z) (x y : option FieldStats) :
  (∀ fx fy, x = Some fx → y = Some fy → fieldStatus fx = fieldStatus fy) →
  diag_None (merge_field total) x y = diag_None (merge_field total) y x.
Proof.
  intros Hst. destruct x as [x|], y as [y|]; simpl; try done;
    f_equal; apply FieldStats_eq; simpl; try lia; try (f_equal; lia);
    try (apply (merge_optional_comm (merge (merge_subfield total))), merge_subfields_comm).
  by apply Hst.
Qed.

Lemma merge_field_assoc (total t1 t2 : Z) (x y z : option FieldStats) :
  diag_None (merge_field total) (diag_None (merge_field t1) x y) z
  = diag_None (merge_field total) x (diag_None (merge_field t2) y z).
Proof.
  destruct x as [x|], y as [y|], z as [z|]; simpl; try done;
    f_equal; apply FieldStats_eq; simpl; try lia; try (f_equal; lia); try done;
    first [ apply (merge_optional_assoc (merge (merge_subfield total))
                     (merge (merge_subfield t1)) (merge (merge_subfield t2)))
          | apply (merge_optional_assoc (merge (merge_subfield total))
                     (merge (merge_subfield t1)) (merge (merge_subfield t2)) _ None None)
          | apply (merge_optional_assoc (merge (merge_subfield total))
                     (merge (merge_subfield t1)) (merge (merge_subfield t2)) None None _) ];
    first [ apply merge_empty | apply merge_subfields_assoc ].
Qed.

End MergeAlgebra.

Lemma merge_tree_inv (t1 t2 : Tree) : tree_inv t1 → tree_inv t2 → tree_inv (merge_tree t1 t2).
Proof. apply merged_tree_inv. Qed.

Lemma merge_tree_fields (t1 t2 : Tree) :
  tree_inv t1 → tree_inv t2 →
  fields (merge_tree t1 t2)
  = merge (merge_field (tree_count t1 + tree_count t2)) (fields t1) (fields t2).
Proof. intros H1 H2. unfold merge_tree; cbn [fields]. by apply merge_fields_inv. Qed.

Lemma Tree_eq (x y : Tree) :
  tree_count x = tree_count y → fields x = fields y →
  (fields x = fields y → tree_count x = tree_count y → categories x = categories y) → x = y.
Proof. destruct x, y; simpl. intros -> -> H. by rewrite H. Qed.

Lemma merge_tree_comm (t1 t2 : Tree) :
  tree_inv t1 → tree_inv t2 → merge_tree t1 t2 = merge_tree t2 t1.
Proof.
  intros H1 H2.
  assert (fields (merge_tree t1 t2) = fields (merge_tree t2 t1)) as Hf.
  { rewrite !merge_tree_fields by done. rewrite (Z.add_comm (tree_count t2)).
    apply map_eq. intros k. rewrite !lookup_merge. apply merge_field_comm.
    intros fx fy Hx Hy.
    destruct H1 as (_ & Hall1 & _), H2 as (_ & Hall2 & _).
    destruct (Hall1 k fx Hx) as [_ E1]. destruct (Hall2 k fy Hy) as [_ E2]. congruence. }
  apply Tree_eq; [apply Z.add_comm|done|].
  intros _ _. unfold merge_tree in *. cbn [fields categories] in *.
  rewrite Hf. f_equal. lia.
Qed.

Lemma merge_tree_assoc (t1 t2 t3 : Tree) :
  tree_inv t1 → tree_inv t2 → tree_inv t3 →
  merge_tree (merge_tree t1 t2) t3 = merge_tree t1 (merge_tree t2 t3).
Proof.
  intros H1 H2 H3.
  pose proof (merge_tree_inv t1 t2 H1 H2) as H12.
  pose proof (merge_tree_inv t2 t3 H2 H3) as H23.
  assert (fields (merge_tree (merge_tree t1 t2) t3) = fields (merge_tree t1 (merge_tree t2 t3)))
    as Hf.
  { rewrite (merge_tree_fields (merge_tree t1 t2) t3) by done.
    rewrite (merge_tree_fields t1 (merge_tree t2 t3)) by done.
    rewrite (merge_tree_fields t1 t2), (merge_tree_fields t2 t3) by done.
    change (tree_count (merge_tree t1 t2)) with (tree_count t1 + tree_count t2).
    change (tree_count (merge_tree t2 t3)) with (tree_count t2 + tree_count t3).
    rewrite Z.add_assoc.
    apply map_eq. intros k. rewrite !lookup_merge. apply merge_field_assoc. }
  apply Tree_eq; [unfold merge_tree; cbn [tree_count]; lia|done|].
  intros _ _. unfold merge_tree at 1 3. cbn [categories].
  change (merge_fields (fields (merge_tree t1 t2)) (fields t3))
    with (fields (merge_tree (merge_tree t1 t2) t3)).
  change (merge_fields (fields t1) (fields (merge_tree t2 t3)))
    with (fields (merge_tree t1 (merge_tree t2 t3))).
  rewrite Hf. f_equal. unfold merge_tree; cbn [tree_count]. lia.
Qed.

Lemma same_dom_lookup {A B : Type} (m1 : gmap string A) (m2 : gmap string B) (k : string) :
  dom m1 = dom m2 → is_Some (m1 !! k) → is_Some (m2 !! k).
Proof. intros Hd H. apply elem_of_dom. rewrite <- Hd. by apply elem_of_dom. Qed.

Lemma Stats_eq (x y : Stats) :
  summary x = summary y → byResourceType x = byResourceType y → x = y.
Proof. destruct x, y; simpl; congruence. Qed.

Lemma merge_stats_comm (a b : Stats) :
  stats_inv a → stats_inv b → merge_stats a b = merge_stats b a.
Proof.
  intros (Ha & Hda & Hra) (Hb & Hdb & Hrb). apply Stats_eq.
  - by apply (merge_tree_comm (summary a) (summary b)).
  - unfold merge_stats; cbn [byResourceType]. apply map_eq. intros rt.
    rewrite !lookup_merge.
    destruct (byResourceType a !! rt) as [t1|] eqn:E1,
             (byResourceType b !! rt) as [t2|] eqn:E2; simpl; try done.
    + f_equal. apply (merge_tree_comm t1 t2); [by apply (Hra rt)|by apply (Hrb rt)].
    + destruct (same_dom_lookup (byResourceType a) (byResourceType b) rt) as [? E];
        [congruence|by eexists|congruence].
    + destruct (same_dom_lookup (byResourceType b) (byResourceType a) rt) as [? E];
        [congruence|by eexists|congruence].
Qed.

Lemma merge_stats_assoc (a b c : Stats) :
  stats_inv a → stats_inv b → stats_inv c →
  merge_stats (merge_stats a b) c = merge_stats a (merge_stats b c).
Proof.
  intros (Ha & Hda & Hra) (Hb & Hdb & Hrb) (Hc & Hdc & Hrc). apply Stats_eq.
  - by apply (merge_tree_assoc (summary a) (summary b) (summary c)).
  - unfold merge_stats; cbn [byResourceType]. apply map_eq. intros rt.
    rewrite !lookup_merge.
    destruct (byResourceType a !! rt) as [t1|] eqn:E1.
    + destruct (same_dom_lookup (byResourceType a) (byResourceType b) rt) as [t2 E2];
        [congruence|by eexists|].
      destruct (same_dom_lookup (byResourceType a) (byResourceType c) rt) as [t3 E3];
        [congruence|by eexists|].
      rewrite E2, E3. simpl. f_equal.
      apply (merge_tree_assoc t1 t2 t3);
        [by apply (Hra rt)|by apply (Hrb rt)|by apply (Hrc rt)].
    + destruct (byResourceType b !! rt) as [t2|] eqn:E2.
      { destruct (same_dom_lookup (byResourceType b) (byResourceType a) rt) as [? E];
          [congruence|by eexists|congruence]. }
      destruct (byResourceType c !! rt) as [t3|] eqn:E3; [|done].
      destruct (same_dom_lookup (byResourceType c) (byResourceType a) rt) as [? E];
        [congruence|by eexists|congruence].
Qed.

(** ** The outcome of an update depends on the shape of the tree only *)

Section Agreement.
Context {S : Type} (R : S → S → Prop).

Lemma agree_ret {A : Type} (a : A) : agree R (ret a) (ret a).
Proof. by intros s1 s2 H. Qed.

Lemma agree_raise {A : Type} (e : exn) : agree R (raise (A := A) e) (raise e).
Proof. by intros s1 s2 H. Qed.

Lemma agree_lift {A : Type} (o : outcome A) : agree R (lift o) (lift o).
Proof. by intros s1 s2 H. Qed.

Lemma agree_modify (f1 f2 : S → S) :
  (∀ s1 s2, R s1 s2 → R (f1 s1) (f2 s2)) → agree R (modify f1) (modify f2).
Proof. intros Hf s1 s2 H. split; [by apply Hf|done]. Qed.

Lemma agree_bind {A B : Type} (m1 m2 : M S A) (f1 f2 : A → M S B) :
  agree R m1 m2 → (∀ a, agree R (f1 a) (f2 a)) → agree R (bind m1 f1) (bind m2 f2).
Proof.
  intros Hm Hf s1 s2 H. unfold bind. destruct (Hm s1 s2 H) as [H1 H2].
  destruct (m1 s1) as [s1' o1], (m2 s2) as [s2' o2]. simpl in *. subst o2.
  destruct o1 as [a|e]; [by apply Hf|done].
Qed.

Lemma agree_get_bind {B : Type} (k1 k2 : S → M S B) :
  (∀ s1 s2, R s1 s2 → agree R (k1 s1) (k2 s2)) → agree R (bind get k1) (bind get k2).
Proof. intros Hk s1 s2 H. unfold bind, get. by apply Hk. Qed.

Lemma agree_when (b : bool) (m1 m2 : M S unit) :
  agree R m1 m2 → agree R (when b m1) (when b m2).
Proof. intros Hm. destruct b; [done|apply agree_ret]. Qed.

Lemma agree_for_each {X : Type} (l : list X) (body1 body2 : X → M S unit) :
  (∀ x, agree R (body1 x) (body2 x)) → agree R (for_each l body1) (for_each l body2).
Proof.
  intros Hb. induction l as [|x r IH]; simpl; [apply agree_ret|].
  apply agree_bind; [apply Hb|done].
Qed.
End Agreement.

Ltac agree_step :=
  lazymatch goal with
  | |- agree ?R (bind get _) (bind get _) =>
      apply (agree_get_bind R); intros ? ? ?
  | |- agree ?R (bind _ _) (bind _ _) => apply (agree_bind R); [|intros ?]
  | |- agree ?R (when _ _) (when _ _) => apply (agree_when R)
  | |- agree ?R (for_each _ _) (for_each _ _) => apply (agree_for_each R); intros ?
  | |- agree ?R (ret _) (ret _) => apply (agree_ret R)
  | |- agree ?R (raise _) (raise _) => apply (agree_raise R)
  | |- agree ?R (lift _) (lift _) => apply (agree_lift R)
  end.

Lemma same_shape_subfields (a b : FieldStats) :
  same_shape a b →
  match subfields a, subfields b with
  | Some sa, Some sb => erase_sub <$> sa = erase_sub <$> sb
  | None, None => True
  | _, _ => False
  end.
Proof.
  intros H. apply (f_equal subfields) in H. simpl in H.
  destruct (subfields a), (subfields b); simpl in H; try done. by apply (inj Some).
Qed.

Lemma same_shape_sub (sa sb : gmap string SubfieldStats) (k : string) :
  erase_sub <$> sa = erase_sub <$> sb →
  match sa !! k, sb !! k with
  | Some xa, Some xb => erase_sub xa = erase_sub xb
  | None, None => True
  | _, _ => False
  end.
Proof.
  intros H. apply (f_equal (.!! k)) in H. rewrite !lookup_fmap in H.
  destruct (sa !! k), (sb !! k); simpl in H; try done. by apply (inj Some).
Qed.

Lemma same_shape_values (xa xb : SubfieldStats) :
  erase_sub xa = erase_sub xb →
  match values xa, values xb with
  | Some va, Some vb => ∀ k, is_Some (va !! k) ↔ is_Some (vb !! k)
  | None, None => True
  | _, _ => False
  end.
Proof.
  intros H. apply (f_equal values) in H. simpl in H.
  destruct (values xa) as [va|], (values xb) as [vb|]; simpl in H; simplify_eq; [|done].
  intros k. apply (f_equal (.!! k)) in H. rewrite !lookup_fmap in H.
  destruct (va !! k), (vb !! k); simpl in H; simplify_eq; split; intros [? ?]; by eauto.
Qed.

(** Unary preservation gives the relation between the final states. *)
Lemma same_shape_after {A : Type} (m1 m2 : M FieldStats A) (a b : FieldStats) :
  preserves same_field m1 → preserves same_field m2 → same_shape a b →
  same_shape (m1 a).1 (m2 b).1.
Proof.
  intros H1 H2 H. destruct (H1 a) as [E1 _], (H2 b) as [E2 _].
  unfold same_shape in *. congruence.
Qed.

Lemma with_sub_agree (sf : string) (g1 g2 : SubfieldStats → SubfieldStats) :
  (∀ x, erase_sub (g1 x) = erase_sub x) → (∀ x, erase_sub (g2 x) = erase_sub x) →
  agree same_shape (with_sub sf g1) (with_sub sf g2).
Proof.
  intros Hg1 Hg2 a b H. split.
  - apply same_shape_after; [by apply with_sub_same_field ..|done].
  - unfold with_sub. pose proof (same_shape_subfields a b H) as Hs.
    destruct (subfields a) as [sa|], (subfields b) as [sb|]; try done.
    pose proof (same_shape_sub sa sb sf Hs) as Hk.
    destruct (sa !! sf), (sb !! sf); done.
Qed.

Lemma incr_value_agree (sf : string) (v : json) :
  agree same_shape (incr_value sf v) (incr_value sf v).
Proof.
  intros a b H. split.
  - apply same_shape_after; [apply incr_value_same_field ..|done].
  - unfold incr_value. pose proof (same_shape_subfields a b H) as Hs.
    destruct (subfields a) as [sa|], (subfields b) as [sb|]; try done.
    pose proof (same_shape_sub sa sb sf Hs) as Hk.
    destruct (sa !! sf) as [xa|], (sb !! sf) as [xb|]; try done.
    pose proof (same_shape_values xa xb Hk) as Hv.
    destruct (values xa) as [va|], (values xb) as [vb|]; try done.
    destruct v as [| | |k| |]; try done.
    specialize (Hv k). destruct (va !! k), (vb !! k); try done.
    + destruct Hv as [Hv _]. by destruct Hv.
    + destruct Hv as [_ Hv]. by destruct Hv.
Qed.

Lemma on_stats_agree {A : Type} (m1 m2 : M FieldStats A) :
  agree same_shape m1 m2 → agree same_shape_seen (on_stats m1) (on_stats m2).
Proof.
  intros Hm [a s1] [b s2] [H Hs]. simpl in *. subst s2.
  destruct (Hm a b H) as [H1 H2]. unfold on_stats; simpl.
  destruct (m1 a), (m2 b); simpl in *. by repeat split.
Qed.

Lemma with_seen_agree {A : Type} (m1 m2 : M (FieldStats * gset string) A) :
  agree same_shape_seen m1 m2 → agree same_shape (with_seen m1) (with_seen m2).
Proof.
  intros Hm a b H. unfold with_seen.
  destruct (Hm (a, ∅) (b, ∅)) as [[H1 _] H2]; [by split|].
  destruct (m1 (a, ∅)), (m2 (b, ∅)); simpl in *. by split.
Qed.

Lemma count_once_agree (sf : string) : agree same_shape_seen (count_once sf) (count_once sf).
Proof.
  unfold count_once. agree_step. destruct H as [_ ->]. repeat agree_step.
  - apply on_stats_agree, with_sub_agree; done.
  - apply (agree_modify same_shape_seen). intros x1 x2 [H1 H2]. split; simpl; [done|by rewrite H2].
Qed.

Ltac shape_step :=
  first
    [ agree_step
    | apply on_stats_agree
    | apply with_seen_agree
    | apply count_once_agree
    | apply incr_value_agree
    | apply with_sub_agree; done ].

Lemma update_item_subfield_agree (field_name : string)
    (field_config : list (string * config)) (item : json) (entry : string * config) :
  agree same_shape_seen (update_item_subfield field_name field_config item entry)
    (update_item_subfield field_name field_config item entry).
Proof.
  destruct entry as [subfield expected_values]. unfold update_item_subfield.
  repeat (case_match; repeat shape_step).
Qed.

Lemma recompute_subfield_agree (total1 total2 : Z) (entry : string * config) :
  agree same_shape (recompute_subfield total1 entry) (recompute_subfield total2 entry).
Proof.
  unfold recompute_subfield. destruct (String.eqb entry.1 "multiple"); [apply agree_ret|].
  agree_step. pose proof (same_shape_subfields _ _ H) as Hs.
  destruct (subfields s1) as [sa|], (subfields s2) as [sb|]; try done;
    try apply (agree_raise same_shape).
  pose proof (same_shape_sub sa sb entry.1 Hs) as Hk.
  destruct (sa !! entry.1), (sb !! entry.1); try done; try apply (agree_ret same_shape).
  by apply with_sub_agree.
Qed.

Lemma update_single_subfield_agree (total1 total2 : Z) (field_value : json)
    (entry : string * config) :
  agree same_shape (update_single_subfield total1 field_value entry)
    (update_single_subfield total2 field_value entry).
Proof.
  destruct entry as [subfield expected_values]. unfold update_single_subfield.
  destruct (String.eqb subfield "multiple"); [apply agree_ret|].
  do 3 agree_step. agree_step.
  pose proof (same_shape_subfields _ _ H) as Hs.
  destruct (subfields s1) as [sa|], (subfields s2) as [sb|]; try done;
    try apply (agree_raise same_shape).
  pose proof (same_shape_sub sa sb subfield Hs) as Hk.
  destruct (sa !! subfield) as [xa|], (sb !! subfield) as [xb|]; try done;
    try apply (agree_ret same_shape).
  pose proof (same_shape_values xa xb Hk) as Hv.
  agree_step; [by apply with_sub_agree|].
  agree_step; [by apply with_sub_agree|].
  agree_step; [|by apply with_sub_agree].
  destruct (values xa), (values xb); try done;
    first [apply incr_value_agree|apply (agree_ret same_shape)].
Qed.

(** Two runs of [update_subfield_stats] on field dictionaries of the same
    shape end the same way, whatever the record counts. *)
Lemma update_subfield_stats_agree (field_value : json) (field_name : string)
    (total1 total2 : Z) :
  agree same_shape (update_subfield_stats field_value field_name total1)
    (update_subfield_stats field_value field_name total2).
Proof.
  unfold update_subfield_stats.
  destruct (assoc field_name SUBFIELD_STATS) as [field_config|]; [|apply agree_ret].
  destruct (negb (truthy field_value)); [apply agree_ret|].
  assert (∀ n, agree same_shape (modify (add_instances n)) (modify (add_instances n))) as Hadd.
  { intros n. apply (agree_modify same_shape). intros a b H. unfold same_shape in *.
    unfold erase_field in *. simpl. done. }
  destruct field_value; try (destruct (String.eqb field_name "fundingReferences");
    [apply agree_ret|agree_step; [apply Hadd|agree_step; apply update_single_subfield_agree]]).
  agree_step; [apply Hadd|]. agree_step.
  - apply with_seen_agree. do 2 agree_step. apply update_item_subfield_agree.
  - agree_step. apply recompute_subfield_agree.
Qed.

(** ** Counts add up over the records *)

Lemma update_field_stats_shape (v : json) (f : string) (fs : FieldStats) :
  same_shape (update_field_stats v f fs) fs.
Proof.
  destruct (update_field_stats_effect v f fs) as (E1 & _ & E3 & _).
  unfold same_shape, erase_field. by rewrite E1, E3.
Qed.

(** The computation run on one field, in two trees whose counts for that
    field differ by [d f]. *)
Lemma field_update_agree (v : json) (f : string) (total1 total2 : Z) (d : string → Z)
    (a b : FieldStats) :
  shifted_fields d a b f →
  let m total :=
    (modify (update_field_stats v f) ;;;
     when (has_subfields f && truthy v) (update_subfield_stats v f total) ;;;
     modify (recompute_field total)) in
  shifted_fields d (m total1 a).1 (m total2 b).1 f ∧ (m total1 a).2 = (m total2 b).2.
Proof.
  intros [Hs Hc] m. subst m. cbv beta. unfold bind, modify.
  destruct (update_field_stats_effect v f a) as (_ & _ & _ & Ca).
  destruct (update_field_stats_effect v f b) as (_ & _ & _ & Cb).
  set (a1 := update_field_stats v f a) in *. set (b1 := update_field_stats v f b) in *.
  assert (same_shape a1 b1) as Hs1.
  { pose proof (update_field_stats_shape v f a). pose proof (update_field_stats_shape v f b).
    unfold same_shape in *. subst a1 b1. congruence. }
  assert (agree same_shape
            (when (has_subfields f && truthy v) (update_subfield_stats v f total1))
            (when (has_subfields f && truthy v) (update_subfield_stats v f total2))) as Hag.
  { apply (agree_when same_shape), update_subfield_stats_agree. }
  destruct (Hag a1 b1 Hs1) as [Hs2 Ho].
  assert (∀ total, preserves same_field
            (when (has_subfields f && truthy v) (update_subfield_stats v f total))) as Hp.
  { intros. apply (preserves_when same_field), update_subfield_stats_same_field. }
  destruct (Hp total1 a1) as (_ & Ca2 & _). destruct (Hp total2 b1) as (_ & Cb2 & _).
  destruct (when _ _ a1) as [a2 oa], (when _ _ b1) as [b2 ob]. simpl in *. subst ob.
  destruct oa as [[]|e]; simpl.
  - split; [|done]. split; [|simpl; lia].
    unfold same_shape, erase_field in *; simpl. done.
  - split; [|done]. split; [done|lia].
Qed.

Lemma shifted_insert (d : string → Z) (t1 t2 : Tree) (f : string) (a b : FieldStats) :
  shifted d t1 t2 → shifted_fields d a b f →
  shifted d
    {| tree_count := tree_count t1; fields := <[f := a]> (fields t1);
       categories := categories t1 |}
    {| tree_count := tree_count t2; fields := <[f := b]> (fields t2);
       categories := categories t2 |}.
Proof.
  intros H Hab g. cbn [fields]. destruct (decide (f = g)) as [<-|Hne].
  - by rewrite !lookup_insert_eq.
  - rewrite !lookup_insert_ne by done. apply H.
Qed.

Lemma update_tree_field_agree (record : list (string * json)) (total1 total2 : Z)
    (d : string → Z) (x : string * string) :
  agree (shifted d) (update_tree_field record total1 x) (update_tree_field record total2 x).
Proof.
  intros t1 t2 H. unfold update_tree_field. pose proof (H x.1) as Hx.
  destruct (fields t1 !! x.1) as [a|] eqn:Ea, (fields t2 !! x.1) as [b|] eqn:Eb; try done.
  - rewrite (on_field_run _ _ t1 a), (on_field_run _ _ t2 b) by done. cbn [fst snd].
    destruct (field_update_agree (record_get record x.1) x.1 total1 total2 d a b Hx)
      as [H1 H2].
    split; [by apply shifted_insert|done].
  - unfold on_field. rewrite Ea, Eb. done.
Qed.

Lemma update_tree_shifted (record : list (string * json)) (d : string → Z) (t1 t2 : Tree) :
  shifted d t1 t2 → shifted d (update_tree record t1).1 (update_tree record t2).1.
Proof.
  intros H. rewrite !update_tree_run. cbv zeta.
  assert (shifted d (incr_tree_count t1) (incr_tree_count t2)) as H0 by done.
  destruct (agree_for_each (shifted d) FIELD_STATUS
              (update_tree_field record (tree_count (incr_tree_count t1)))
              (update_tree_field record (tree_count (incr_tree_count t2)))
              (update_tree_field_agree record _ _ d) _ _ H0) as [H1 H2].
  destruct (for_each _ _ (incr_tree_count t1)) as [t1' o1],
           (for_each _ _ (incr_tree_count t2)) as [t2' o2]. simpl in *. subst o2.
  by destruct o1 as [[]|e].
Qed.

Lemma apply_records_snoc (l : list (list (string * json))) (r : list (string * json))
    (s : Stats) :
  apply_records (l ++ [r])%list s = (update_stats_single_record r (apply_records l s)).1.
Proof. unfold apply_records. by rewrite foldl_snoc. Qed.

Lemma apply_records_shifted (l : list (list (string * json))) (d : string → Z)
    (s1 s2 : Stats) :
  shifted d (summary s1) (summary s2) →
  shifted d (summary (apply_records l s1)) (summary (apply_records l s2)).
Proof.
  revert s1 s2. induction l as [|r l IH]; intros s1 s2 H; [done|].
  simpl. apply IH. rewrite !summary_update. by apply update_tree_shifted.
Qed.

Lemma shifted_count (d : string → Z) (t1 t2 : Tree) (f : string) :
  shifted d t1 t2 → is_Some (fields t2 !! f) → field_count t1 f = field_count t2 f + d f.
Proof.
  intros H [b Hb]. specialize (H f). unfold field_count. rewrite Hb in *.
  destruct (fields t1 !! f) as [a|]; [|done]. simpl. by destruct H.
Qed.

Lemma shifted_dom (d : string → Z) (t1 t2 : Tree) (f : string) :
  shifted d t1 t2 → fields t1 !! f = None ↔ fields t2 !! f = None.
Proof.
  intros H. specialize (H f).
  destruct (fields t1 !! f), (fields t2 !! f); try done.
Qed.

(** Shapes never change: the tree after an update is the tree before, up
    to the numbers. *)
Lemma shifted_self (t1 t2 : Tree) :
  same_tree_shape t1 t2 →
  shifted (λ f, field_count t1 f - field_count t2 f) t1 t2.
Proof.
  intros H f. specialize (H f).
  destruct (fields t1 !! f) as [a|] eqn:Ea, (fields t2 !! f) as [b|] eqn:Eb; try done.
  split; [done|]. unfold field_count. rewrite Ea, Eb. simpl. lia.
Qed.

Global Instance same_tree_shape_preorder : PreOrder same_tree_shape.
Proof.
  split.
  - intros t f. by destruct (fields t !! f).
  - intros t1 t2 t3 H12 H23 f. specialize (H12 f). specialize (H23 f).
    destruct (fields t1 !! f), (fields t2 !! f), (fields t3 !! f); try done.
    unfold same_shape in *. congruence.
Qed.

Lemma field_update_shape (v : json) (f : string) (total : Z) (a : FieldStats) :
  same_shape a
    ((modify (update_field_stats v f) ;;;
      when (has_subfields f && truthy v) (update_subfield_stats v f total) ;;;
      modify (recompute_field total)) a).1.
Proof.
  unfold bind, modify.
  pose proof (update_field_stats_shape v f a) as H1.
  set (a1 := update_field_stats v f a) in *.
  assert (preserves same_field
            (when (has_subfields f && truthy v) (update_subfield_stats v f total))) as Hp.
  { apply (preserves_when same_field), update_subfield_stats_same_field. }
  destruct (Hp a1) as (H2 & _).
  destruct (when _ _ a1) as [a2 [[]|e]]; simpl in *; unfold same_shape in *.
  - change (erase_field (recompute_field total a2)) with (erase_field a2). congruence.
  - congruence.
Qed.

Lemma update_tree_field_shape (record : list (string * json)) (total : Z)
    (x : string * string) :
  preserves same_tree_shape (update_tree_field record total x).
Proof.
  intros t. unfold update_tree_field.
  destruct (fields t !! x.1) as [a|] eqn:Ea.
  - rewrite (on_field_run _ _ t a) by done. cbn [fst]. intros g. cbn [fields].
    destruct (decide (x.1 = g)) as [<-|Hne].
    + rewrite Ea, lookup_insert_eq. apply field_update_shape.
    + rewrite lookup_insert_ne by done. by destruct (fields t !! g).
  - unfold on_field. rewrite Ea. reflexivity.
Qed.

Lemma update_tree_shape (record : list (string * json)) (t : Tree) :
  same_tree_shape t (update_tree record t).1.
Proof.
  rewrite update_tree_run. cbv zeta.
  assert (same_tree_shape t (incr_tree_count t)) as H0
    by (intros f; simpl; by destruct (fields t !! f)).
  pose proof (preserves_for_each same_tree_shape FIELD_STATUS
                (update_tree_field record (tree_count (incr_tree_count t)))
                (update_tree_field_shape record _) (incr_tree_count t)) as H1.
  destruct (for_each _ _ (incr_tree_count t)) as [t' [[]|e]]; simpl in *.
  - etrans; [exact H0|]. etrans; [exact H1|].
    intros f; simpl; by destruct (fields t' !! f).
  - by etrans.
Qed.

Lemma apply_records_shape (l : list (list (string * json))) (s : Stats) :
  same_tree_shape (summary s) (summary (apply_records l s)).
Proof.
  revert s. induction l as [|r l IH]; intros s; [reflexivity|].
  simpl. etrans; [|apply IH]. rewrite summary_update. apply update_tree_shape.
Qed.

Lemma same_tree_shape_sym (t1 t2 : Tree) : same_tree_shape t1 t2 → same_tree_shape t2 t1.
Proof.
  intros H f. specialize (H f).
  destruct (fields t1 !! f), (fields t2 !! f); done.
Qed.

(** Processing [l2] after [l1] adds to every field count what [l2] adds to
    an empty tree. *)
Lemma apply_records_app_count (l1 l2 : list (list (string * json))) (f : string) :
  field_count (summary (apply_records (l1 ++ l2)%list create_empty_stats)) f
  = field_count (summary (apply_records l1 create_empty_stats)) f
    + field_count (summary (apply_records l2 create_empty_stats)) f.
Proof.
  unfold apply_records at 1. rewrite foldl_app. fold (apply_records l1 create_empty_stats).
  set (s1 := apply_records l1 create_empty_stats).
  change (foldl _ s1 l2) with (apply_records l2 s1).
  pose proof (apply_records_shape l1 create_empty_stats) as Hsh. fold s1 in Hsh.
  apply same_tree_shape_sym, shifted_self in Hsh.
  pose proof (apply_records_shifted l2 _ _ _ Hsh) as H2.
  destruct (fields (summary (apply_records l2 create_empty_stats)) !! f) as [b|] eqn:Eb.
  - rewrite (shifted_count _ _ _ f H2) by (by eexists).
    assert (field_count (summary create_empty_stats) f = 0) as E0.
    { pose proof (apply_records_shape l2 create_empty_stats f) as Hf. rewrite Eb in Hf.
      unfold field_count.
      destruct (fields (summary create_empty_stats) !! f) as [e|] eqn:Ee; [|done].
      assert (map_Forall (λ _ fs, count fs = 0) (fields (summary create_empty_stats))) as Hz.
      { apply (bool_decide_unpack _). vm_compute. exact I. }
      simpl. by apply (Hz f). }
    lia.
  - pose proof (proj2 (shifted_dom _ _ _ f H2) Eb) as Ea.
    pose proof (apply_records_shape l1 create_empty_stats f) as Hf.
    pose proof (apply_records_shape l2 create_empty_stats f) as Hg.
    fold s1 in Hf. rewrite Eb in Hg.
    unfold field_count. rewrite Ea, Eb.
    destruct (fields (summary create_empty_stats) !! f); [done|].
    destruct (fields (summary s1) !! f); done.
Qed.

Lemma empty_field_count (f : string) : field_count (summary create_empty_stats) f = 0.
Proof.
  unfold field_count.
  destruct (fields (summary create_empty_stats) !! f) as [e|] eqn:Ee; [|done].
  assert (map_Forall (λ _ fs, count fs = 0) (fields (summary create_empty_stats))) as Hz.
  { apply (bool_decide_unpack _). vm_compute. exact I. }
  simpl. by apply (Hz f).
Qed.

Lemma apply_records_count_sum (l : list (list (string * json))) (f : string) :
  field_count (summary (apply_records l create_empty_stats)) f = sum_Z (record_count f <$> l).
Proof.
  induction l as [|r l IH].
  - apply empty_field_count.
  - change (r :: l) with ([r] ++ l)%list. rewrite apply_records_app_count, IH. done.
Qed.

Lemma sum_Z_perm (l l' : list Z) : l ≡ₚ l' → sum_Z l = sum_Z l'.
Proof. induction 1; simpl in *; lia. Qed.

Lemma merge_stats_field_count (a b : Stats) (f : string) :
  stats_inv a → stats_inv b →
  field_count (summary (merge_stats a b)) f
  = field_count (summary a) f + field_count (summary b) f.
Proof.
  intros (Ha & _) (Hb & _). unfold field_count.
  change (summary (merge_stats a b)) with (merge_tree (summary a) (summary b)).
  rewrite merge_tree_fields by done. rewrite lookup_merge.
  destruct (fields (summary a) !! f), (fields (summary b) !! f); simpl; lia.
Qed.

Lemma apply_records_built (l : list (list (string * json))) (s : Stats) :
  built s → built (apply_records l s).
Proof.
  revert s. induction l as [|r l IH]; intros s Hs; [done|].
  simpl. apply IH. by constructor.
Qed.

Lemma foldl_merge_built (ts : list Stats) (s : Stats) :
  built s → Forall built ts → built (foldl merge_stats s ts).
Proof.
  revert s. induction ts as [|t ts IH]; intros s Hs Hts; [done|].
  apply Forall_cons in Hts as [Ht Hts]. simpl. apply IH; [by constructor|done].
Qed.

Lemma foldl_merge_perm (ts ts' : list Stats) (s : Stats) :
  ts ≡ₚ ts' → built s → Forall built ts →
  foldl merge_stats s ts = foldl merge_stats s ts'.
Proof.
  intros Hp. revert s. induction Hp as [|x l l' Hp IH|x y l|l l' l'' Hp1 IH1 Hp2 IH2];
    intros s Hs Hts.
  - done.
  - apply Forall_cons in Hts as [Hx Hts]. simpl. apply IH; [by constructor|done].
  - apply Forall_cons in Hts as [Hy Hts]. apply Forall_cons in Hts as [Hx Hts]. simpl.
    f_equal.
    rewrite !merge_stats_assoc by (by apply built_inv).
    f_equal. apply merge_stats_comm; by apply built_inv.
  - rewrite IH1 by done. apply IH2; [done|]. by rewrite <- Hp1.
Qed.

(** C3.  On objects built from the schema the merge is commutative and
    associative, so folding any permutation of a list of partial results
    gives the same object; and for any split of a list of records into two
    parts, each folded into its own empty object, every field count of the
    merged summary is the count obtained by folding all the records into
    one object. *)
Theorem C3_merge_order_independent :
  (∀ a b, built a → built b → merge_stats a b = merge_stats b a) ∧
  (∀ a b c, built a → built b → built c →
     merge_stats (merge_stats a b) c = merge_stats a (merge_stats b c)) ∧
  (∀ ts ts', Forall built ts → ts ≡ₚ ts' →
     foldl merge_stats create_empty_stats ts = foldl merge_stats create_empty_stats ts') ∧
  (∀ (l l1 l2 : list (list (string * json))) f, l ≡ₚ (l1 ++ l2)%list →
     field_count (summary (merge_stats (apply_records l1 create_empty_stats)
                                       (apply_records l2 create_empty_stats))) f
     = field_count (summary (apply_records l create_empty_stats)) f).
Proof.
  split; [|split; [|split]].
  - intros a b Ha Hb. apply merge_stats_comm; by apply built_inv.
  - intros a b c Ha Hb Hc. apply merge_stats_assoc; by apply built_inv.
  - intros ts ts' Hts Hp. apply foldl_merge_perm; [done|constructor|done].
  - intros l l1 l2 f Hp.
    rewrite merge_stats_field_count
      by (apply built_inv, apply_records_built; constructor).
    rewrite !apply_records_count_sum.
    rewrite (sum_Z_perm (record_count f <$> l) (record_count f <$> (l1 ++ l2)%list))
      by (by apply fmap_Permutation).
    rewrite fmap_app. unfold sum_Z. rewrite foldr_app.
    generalize (record_count f <$> l2). generalize (record_count f <$> l1).
    intros x y. induction x as [|n x IH]; simpl; [lia|]. rewrite <- IH. lia.
Qed.

(** ** Counting a subfield once per record *)

Lemma bind_Ok {S A B : Type} (m : M S A) (f : A → M S B) (s s'' : S) (b : B) :
  bind m f s = (s'', Ok b) → ∃ s' a, m s = (s', Ok a) ∧ f a s' = (s'', Ok b).
Proof.
  unfold bind. destruct (m s) as [s' [a|e]]; intros H; [by exists s', a|done].
Qed.

Lemma lift_Ok {S A : Type} (o : outcome A) (s s' : S) (a : A) :
  lift o s = (s', Ok a) → o = Ok a ∧ s' = s.
Proof. unfold lift. intros H. by simplify_eq. Qed.

Global Instance same_obs_preorder (sub : string) : PreOrder (same_obs sub).
Proof.
  split.
  - by intros st.
  - intros a b c H1 H2. unfold same_obs in *. congruence.
Qed.

Lemma sub_obs_set_subfields (sub s : string) (fs : FieldStats) (seen : gset string)
    (sm : gmap string SubfieldStats) (x x' : SubfieldStats) :
  subfields fs = Some sm → sm !! s = Some x →
  (s = sub → sub_count x' = sub_count x ∧ sub_instances x' = sub_instances x) →
  sub_obs sub (set_subfields fs (<[s := x']> sm), seen) = sub_obs sub (fs, seen).
Proof.
  intros Hs Hx Hsame. unfold sub_obs; simpl. rewrite Hs; simpl. f_equal.
  destruct (decide (s = sub)) as [->|Hne].
  - rewrite lookup_insert_eq, Hx. simpl. destruct (Hsame eq_refl) as [-> ->]. done.
  - by rewrite lookup_insert_ne.
Qed.

Lemma with_sub_frame (sub s : string) (g : SubfieldStats → SubfieldStats) :
  (s = sub → ∀ x, sub_count (g x) = sub_count x ∧ sub_instances (g x) = sub_instances x) →
  preserves (same_obs sub) (on_stats (with_sub s g)).
Proof.
  intros Hg [fs seen]. unfold on_stats, with_sub; simpl.
  destruct (subfields fs) as [sm|] eqn:Hs; [|done].
  destruct (sm !! s) as [x|] eqn:Hx; [|done]. simpl.
  apply (sub_obs_set_subfields sub s fs seen sm x); auto.
Qed.

Lemma incr_value_frame (sub s : string) (v : json) :
  preserves (same_obs sub) (on_stats (incr_value s v)).
Proof.
  intros [fs seen]. unfold on_stats, incr_value; simpl.
  destruct (subfields fs) as [sm|] eqn:Hs; [|done].
  destruct (sm !! s) as [x|] eqn:Hx; [|done].
  destruct (values x) as [vm|]; [|done].
  destruct v as [| | |k| |]; try done.
  destruct (vm !! k); [|done]. simpl.
  by apply (sub_obs_set_subfields sub s fs seen sm x).
Qed.

Lemma count_once_frame (sub s : string) : s ≠ sub → preserves (same_obs sub) (count_once s).
Proof.
  intros Hne. unfold count_once. repeat preserves_step.
  - apply with_sub_frame. by intros ->.
  - apply (preserves_modify (same_obs sub)). intros [fs seen]. unfold same_obs, sub_obs; simpl.
    f_equal. apply bool_decide_ext. rewrite elem_of_union, elem_of_singleton.
    split; [intros [E|E]; [congruence|done]|by right].
Qed.

Ltac frame_step sub :=
  first
    [ preserves_step
    | apply (incr_value_frame sub)
    | apply (count_once_frame sub); congruence
    | apply (with_sub_frame sub); congruence ].

Lemma nested_subfields_ne (sub : string) :
  sub ∉ nested_subfields →
  sub ≠ "nameIdentifierScheme" ∧ sub ≠ "affiliationIdentifier" ∧
  sub ≠ "affiliationIdentifierScheme".
Proof. unfold nested_subfields. set_solver. Qed.

(** Handling another configuration entry leaves the subfield alone. *)
Lemma update_item_subfield_frame (sub field_name : string)
    (field_config : list (string * config)) (item : json) (s : string) (c : config) :
  s ≠ sub → sub ∉ nested_subfields →
  preserves (same_obs sub) (update_item_subfield field_name field_config item (s, c)).
Proof.
  intros Hne (N1 & N2 & N3)%nested_subfields_ne. unfold update_item_subfield.
  repeat (case_match; repeat frame_step sub).
Qed.

Lemma count_once_effect (sub : string) (st st' : FieldStats * gset string) :
  count_once sub st = (st', Ok tt) →
  sub_obs sub st'
  = ((λ ci : Z * Z, (if (sub_obs sub st).2 then ci.1 else ci.1 + 1, ci.2))
       <$> (sub_obs sub st).1, true).
Proof.
  destruct st as [fs seen]. unfold count_once, bind, get, when, sub_obs. cbn [fst snd].
  destruct (decide (sub ∈ seen)) as [Hin|Hin].
  - rewrite !bool_decide_eq_true_2 by done. simpl. intros H. unfold ret in H.
    injection H as <-. simpl. rewrite bool_decide_eq_true_2 by done.
    f_equal. by destruct (subfields fs ≫= _) as [x|].
  - rewrite !bool_decide_eq_false_2 by done. simpl.
    unfold on_stats, with_sub, modify; simpl.
    destruct (subfields fs) as [sm|] eqn:Hs; [|done].
    destruct (sm !! sub) as [x|] eqn:Hx; [|done]. simpl. intros H. simplify_eq.
    simpl. rewrite lookup_insert_eq, Hx. simpl.
    f_equal. apply bool_decide_eq_true_2. apply elem_of_union. left.
    by apply elem_of_singleton.
Qed.

Lemma add_instances_effect (sub : string) (k : Z) (st st' : FieldStats * gset string) :
  on_stats (with_sub sub (sub_add_instances k)) st = (st', Ok tt) →
  is_Some (sub_obs sub st).1 ∧
  sub_obs sub st' = ((λ ci : Z * Z, (ci.1, ci.2 + k)) <$> (sub_obs sub st).1, (sub_obs sub st).2).
Proof.
  destruct st as [fs seen]. unfold on_stats, with_sub, sub_obs. cbn [fst snd].
  destruct (subfields fs) as [sm|] eqn:Hs; [|done]. simpl.
  destruct (sm !! sub) as [x|] eqn:Hx; [|done]. simpl. intros H.
  injection H as <-. simpl. rewrite lookup_insert_eq. simpl.
  split; [by eexists|done].
Qed.

(** [count_once] followed by the addition of [k] instances and by anything
    that leaves the subfield alone. *)
Lemma counted_prefix_effect (sub : string) (k : Z) (rest : M (FieldStats * gset string) unit)
    (st st' : FieldStats * gset string) :
  k ≠ 0 → preserves (same_obs sub) rest →
  (count_once sub ;;; on_stats (with_sub sub (sub_add_instances k)) ;;; rest) st = (st', Ok tt) →
  is_Some (sub_obs sub st).1 ∧ sub_obs sub st' = bump k (sub_obs sub st).
Proof.
  intros Hk Hrest H.
  apply bind_Ok in H as (st1 & [] & H1 & H). apply bind_Ok in H as (st2 & [] & H2 & H3).
  apply count_once_effect in H1. apply add_instances_effect in H2 as [Hsome H2].
  pose proof (Hrest st2) as Hf. rewrite H3 in Hf. unfold same_obs in Hf. cbn [fst] in Hf.
  rewrite Hf, H2, H1. rewrite H1 in Hsome.
  destruct (sub_obs sub st) as [o b]. cbn [fst snd] in *.
  unfold bump. rewrite (proj2 (Z.eqb_neq k 0) Hk). cbn [fst snd].
  destruct o as [[c i]|]; cbn in *; [split; [by eexists|done]|by destruct Hsome].
Qed.

Lemma truthy_as_list_length (v : json) : truthy v = true → 0 < Z.of_nat (length (as_list v)).
Proof. destruct v as [| | | |[|x l]|]; simpl; intros H; try done; lia. Qed.

Lemma when_false_Ok {S : Type} (m : M S unit) (s s' : S) :
  when false m s = (s', Ok tt) → s' = s.
Proof. unfold when, ret. intros H. by simplify_eq. Qed.

Lemma bump_zero (o : option (Z * Z) * bool) : bump 0 o = o.
Proof. done. Qed.

(** Handling the configuration entry of the subfield itself, when the
    handling completes. *)
Lemma update_item_subfield_effect (field_name : string)
    (field_config : list (string * config)) (item : json) (sub : string) (cfg : config)
    (st st' : FieldStats * gset string) :
  sub ≠ "multiple" → sub ∉ nested_subfields →
  update_item_subfield field_name field_config item (sub, cfg) st = (st', Ok tt) →
  sub_obs sub st' = bump (exposed_instances field_name sub cfg item) (sub_obs sub st) ∧
  (exposed_instances field_name sub cfg item ≠ 0 → is_Some (sub_obs sub st).1).
Proof.
  intros Hm (N1 & N2 & N3)%nested_subfields_ne.
  unfold update_item_subfield, exposed_instances.
  rewrite (proj2 (String.eqb_neq sub "multiple") Hm).
  destruct (String.eqb field_name "fundingReferences").
  { intros H. apply bind_Ok in H as (st1 & v & [Hv ->]%lift_Ok & H). rewrite Hv.
    destruct (truthy v); simpl.
    - apply counted_prefix_effect in H as [H1 H2]; [done|done|].
      destruct cfg; repeat frame_step sub.
    - apply when_false_Ok in H as ->. by rewrite bump_zero. }
  destruct (String.eqb sub "nameType").
  { intros H. apply bind_Ok in H as (st1 & v & [Hv ->]%lift_Ok & H). rewrite Hv.
    destruct (truthy v); simpl.
    - apply counted_prefix_effect in H as [H1 H2]; [done|done|]. repeat frame_step sub.
    - apply when_false_Ok in H as ->. by rewrite bump_zero. }
  destruct (String.eqb sub "nameIdentifier").
  { intros H. apply bind_Ok in H as (st1 & v & [Hv ->]%lift_Ok & H). rewrite Hv.
    destruct (truthy v) eqn:Ht; simpl.
    - pose proof (truthy_as_list_length v Ht).
      apply counted_prefix_effect in H as [H1 H2]; [done|lia|]. repeat frame_step sub.
    - apply when_false_Ok in H as ->. by rewrite bump_zero. }
  destruct (String.eqb sub "affiliation").
  { intros H. apply bind_Ok in H as (st1 & v & [Hv ->]%lift_Ok & H). rewrite Hv.
    destruct (truthy v) eqn:Ht; simpl.
    - pose proof (truthy_as_list_length v Ht).
      apply counted_prefix_effect in H as [H1 H2]; [done|lia|]. repeat frame_step sub.
    - apply when_false_Ok in H as ->. by rewrite bump_zero. }
  destruct (bool_decide (sub ∈ simple_enumerated)).
  { intros H. apply bind_Ok in H as (st1 & v & [Hv ->]%lift_Ok & H). rewrite Hv.
    apply bind_Ok in H as (st2 & ok & [Hok ->]%lift_Ok & H).
    destruct (truthy v); simpl.
    - rewrite Hok. destruct ok.
      + apply counted_prefix_effect in H as [H1 H2]; [done|done|]. repeat frame_step sub.
      + apply when_false_Ok in H as ->. by rewrite bump_zero.
    - injection Hok as <-. apply when_false_Ok in H as ->. by rewrite bump_zero. }
  unfold ret. intros H. injection H as <-. by rewrite bump_zero.
Qed.

Lemma for_each_cons_bind {S X : Type} (x : X) (r : list X) (body : X → M S unit) :
  for_each (x :: r) body = (body x ;;; for_each r body).
Proof. reflexivity. Qed.

Lemma preserves_for_each_in {S X : Type} (R : S → S → Prop) `{!PreOrder R}
    (l : list X) (body : X → M S unit) :
  (∀ x, x ∈ l → preserves R (body x)) → preserves R (for_each l body).
Proof.
  induction l as [|x r IH]; intros Hb; simpl.
  - apply (preserves_ret R).
  - apply (preserves_bind R).
    + apply Hb, list_elem_of_here.
    + intros _. apply IH. intros y Hy. by apply Hb, list_elem_of_further.
Qed.

(** The loop over the configuration entries for one occurrence. *)
Lemma config_loop_effect (field_name : string) (field_config cfgs : list (string * config))
    (item : json) (sub : string) (cfg : config) (st st' : FieldStats * gset string) :
  sub ≠ "multiple" → sub ∉ nested_subfields →
  NoDup (cfgs.*1) → (sub, cfg) ∈ cfgs →
  for_each cfgs (update_item_subfield field_name field_config item) st = (st', Ok tt) →
  sub_obs sub st' = bump (exposed_instances field_name sub cfg item) (sub_obs sub st) ∧
  (exposed_instances field_name sub cfg item ≠ 0 → is_Some (sub_obs sub st).1).
Proof.
  intros Hm Hn. revert st. induction cfgs as [|[s c] rest IH]; intros st Hnd Hin H.
  { by apply elem_of_nil in Hin. }
  rewrite fmap_cons in Hnd. apply NoDup_cons in Hnd as [Hs Hnd]. simpl in Hs.
  rewrite for_each_cons_bind in H. apply bind_Ok in H as (st1 & [] & H1 & H2).
  apply elem_of_cons in Hin as [Heq|Hin].
  - injection Heq as <- <-.
    apply update_item_subfield_effect in H1 as [H1 H1']; [|done|done].
    assert (sub_obs sub st' = sub_obs sub st1) as Hfr.
    { change st' with (st', Ok tt).1. rewrite <- H2.
      apply (preserves_for_each_in (same_obs sub)). intros [s' c'] Hin'.
      apply update_item_subfield_frame; [|done].
      intros ->. apply Hs. apply list_elem_of_fmap. by exists (sub, c'). }
    by rewrite Hfr.
  - assert (s ≠ sub) as Hne.
    { intros ->. apply Hs. apply list_elem_of_fmap. by exists (sub, cfg). }
    assert (sub_obs sub st1 = sub_obs sub st) as Hfr.
    { change st1 with (st1, Ok tt).1. rewrite <- H1.
      by apply update_item_subfield_frame. }
    destruct (IH st1 Hnd Hin H2) as [E1 E2]. by rewrite <- Hfr.
Qed.

(** The loop over the occurrences. *)
Lemma items_loop_effect (field_name : string) (field_config : list (string * config))
    (items : list json) (sub : string) (cfg : config) (st st' : FieldStats * gset string) :
  sub ≠ "multiple" → sub ∉ nested_subfields →
  NoDup (field_config.*1) → (sub, cfg) ∈ field_config →
  for_each items
    (λ item, for_each field_config (update_item_subfield field_name field_config item)) st
  = (st', Ok tt) →
  sub_obs sub st'
  = foldl (λ o item, bump (exposed_instances field_name sub cfg item) o) (sub_obs sub st) items ∧
  (∀ item, item ∈ items → exposed_instances field_name sub cfg item ≠ 0 →
     is_Some (sub_obs sub st).1).
Proof.
  intros Hm Hn Hnd Hin. revert st. induction items as [|item items IH]; intros st H.
  { unfold for_each, ret in H. injection H as <-. split; [done|].
    by intros item ?%elem_of_nil. }
  rewrite for_each_cons_bind in H. apply bind_Ok in H as (st1 & [] & H1 & H2).
  apply config_loop_effect with (sub := sub) (cfg := cfg) in H1 as [E1 E1']; try done.
  destruct (IH st1 H2) as [E2 E2']. split.
  - simpl. by rewrite E2, E1.
  - intros it [->|Hit]%elem_of_cons Hk; [by apply E1'|].
    specialize (E2' it Hit Hk). rewrite E1 in E2'. unfold bump in E2'.
    destruct (sub_obs sub st) as [[ci|] b]; cbn [fst snd] in *; [by eexists|].
    destruct (Z.eqb _ 0); cbn in E2'; by destruct E2'.
Qed.

(** Occurrences that all expose the subfield, met with the subfield not
    yet seen: the count goes up by one, the instances by the sum. *)
Lemma foldl_bump_exposed {X : Type} (k : X → Z) (items : list X) (c i : Z) (b : bool) :
  (∀ x, x ∈ items → 0 < k x) →
  foldl (λ o x, bump (k x) o) (Some (c, i), b) items
  = (Some (if b || bool_decide (items = []) then c else c + 1, i + sum_Z (k <$> items)),
     b || negb (bool_decide (items = []))).
Proof.
  revert c i b. induction items as [|x items IH]; intros c i b Hk.
  - simpl. rewrite !orb_true_r, orb_false_r, Z.add_0_r. done.
  - simpl. unfold bump at 2.
    assert (0 < k x) as Hx by apply Hk, list_elem_of_here.
    rewrite (proj2 (Z.eqb_neq (k x) 0)) by lia. cbn [fst snd fmap option_fmap option_map].
    rewrite IH by (intros y Hy; by apply Hk, list_elem_of_further).
    rewrite orb_true_l, orb_false_r. simpl. rewrite orb_true_r.
    do 3 f_equal. change (list_fmap X Z k items) with (k <$> items). lia.
Qed.

Global Instance same_entry_preorder (sub : string) : PreOrder (same_entry sub).
Proof.
  split.
  - intros fs. unfold same_entry. reflexivity.
  - intros a b c H1 H2. unfold same_entry in *. by etrans.
Qed.

Lemma recompute_subfield_frame (sub : string) (total : Z) (entry : string * config) :
  preserves (same_entry sub) (recompute_subfield total entry).
Proof.
  unfold recompute_subfield. destruct (String.eqb entry.1 "multiple"); [apply (preserves_ret _)|].
  apply (preserves_bind _); [apply (preserves_get _)|]. intros fs0.
  destruct (subfields fs0); [|apply (preserves_raise _)].
  destruct (_ !! entry.1); [|apply (preserves_ret _)].
  intros fs. pose proof (with_sub_frame sub entry.1 (sub_recompute total)) as H.
  specialize (H (λ _ x, conj eq_refl eq_refl) (fs, ∅)).
  unfold same_entry. unfold on_stats in H. cbn [fst snd] in H.
  by destruct (with_sub entry.1 (sub_recompute total) fs).
Qed.

Lemma assoc_elem_of {V : Type} (k : string) (l : list (string * V)) (v : V) :
  assoc k l = Some v → (k, v) ∈ l.
Proof.
  induction l as [|[k' v'] r IH]; simpl; [done|].
  destruct (String.eqb_spec k k') as [->|Hne].
  - intros H. injection H as ->. apply list_elem_of_here.
  - intros H. apply list_elem_of_further. by apply IH.
Qed.

Lemma SUBFIELD_STATS_keys (field_name : string) (field_config : list (string * config)) :
  assoc field_name SUBFIELD_STATS = Some field_config →
  NoDup (field_config.*1) ∧ field_name ∈ FIELD_STATUS.*1.
Proof.
  intros H%assoc_elem_of.
  assert (Forall (λ kv : string * list (string * config),
                    NoDup (kv.2.*1) ∧ kv.1 ∈ FIELD_STATUS.*1) SUBFIELD_STATS) as Hall.
  { apply (bool_decide_unpack _). vm_compute. exact I. }
  rewrite Forall_forall in Hall. apply (Hall _ H).
Qed.

Lemma exposed_instances_direct (field_name sub : string) (cfg : config) (item : json) :
  read_directly field_name sub = true →
  0 < exposed_instances field_name sub cfg item →
  exposed_instances field_name sub cfg item = 1.
Proof.
  unfold read_directly, exposed_instances.
  destruct (String.eqb field_name "fundingReferences"); simpl.
  { intros _. destruct (py_get item sub) as [v|]; [|lia]. destruct (truthy v); simpl; lia. }
  destruct (String.eqb sub "nameType"); simpl.
  { intros _. destruct (py_get_default _ _ _) as [v|]; [|lia]. destruct (truthy v); simpl; lia. }
  intros Hd. rewrite Hd.
  assert (String.eqb sub "nameIdentifier" = false ∧ String.eqb sub "affiliation" = false)
    as [-> ->].
  { apply bool_decide_eq_true_1 in Hd. unfold simple_enumerated in Hd.
    rewrite !elem_of_cons in Hd.
    destruct Hd as [->|[->|[->|[->|Hd]]]]; [done..|by apply elem_of_nil in Hd]. }
  destruct (py_get item sub) as [v|]; [|lia].
  destruct (truthy v && _); lia.
Qed.

(** The list branch of [update_subfield_stats], when it completes, on a
    subfield that every occurrence exposes. *)
Lemma update_subfield_stats_counts (field_name : string)
    (field_config : list (string * config)) (sub : string) (cfg : config)
    (items : list json) (total : Z) (fs fs' : FieldStats) :
  assoc field_name SUBFIELD_STATS = Some field_config →
  (sub, cfg) ∈ field_config → sub ≠ "multiple" → sub ∉ nested_subfields →
  items ≠ [] →
  (∀ item, item ∈ items → 0 < exposed_instances field_name sub cfg item) →
  update_subfield_stats (JList items) field_name total fs = (fs', Ok tt) →
  ∃ x x', subfields fs ≫= (.!! sub) = Some x ∧ subfields fs' ≫= (.!! sub) = Some x' ∧
    sub_count x' = sub_count x + 1 ∧
    sub_instances x'
    = sub_instances x + sum_Z (exposed_instances field_name sub cfg <$> items).
Proof.
  intros Hcfg Hin Hm Hn Hne Hexp. destruct (SUBFIELD_STATS_keys _ _ Hcfg) as [Hnd _].
  unfold update_subfield_stats. rewrite Hcfg.
  assert (truthy (JList items) = true) as -> by (by destruct items). cbn [negb].
  intros H. apply bind_Ok in H as (fs1 & [] & H1 & H). apply bind_Ok in H as (fs2 & [] & H2 & H3).
  unfold modify in H1. injection H1 as <-.
  unfold with_seen in H2.
  destruct (for_each items _ (add_instances (Z.of_nat (length items)) fs, ∅))
    as [st' o] eqn:Hloop.
  injection H2 as <- ->.
  apply items_loop_effect with (sub := sub) (cfg := cfg) in Hloop as [E1 E2]; try done.
  assert (sub_obs sub (fs', ∅) = sub_obs sub (st'.1, ∅)) as E3.
  { change fs' with (fs', Ok tt).1. rewrite <- H3.
    apply (preserves_for_each (same_entry sub)). intros entry.
    apply recompute_subfield_frame. }
  destruct items as [|item items]; [done|].
  assert (is_Some (sub_obs sub (add_instances (Z.of_nat (length (item :: items))) fs, ∅)).1)
    as [[c i] Hci].
  { apply (E2 item); [apply list_elem_of_here|].
    pose proof (Hexp item (list_elem_of_here _ _)). lia. }
  assert (sub_obs sub (add_instances (Z.of_nat (length (item :: items))) fs, ∅)
          = (Some (c, i), false)) as E0.
  { unfold sub_obs in *. cbn [fst snd] in *. by rewrite Hci. }
  rewrite E0, foldl_bump_exposed in E1 by done. simpl in E1.
  unfold sub_obs in E0, E1, E3. cbn [fst snd subfields add_instances] in *.
  apply (f_equal fst) in E0, E1, E3. cbn [fst] in E0, E1, E3.
  rewrite <- E3 in E1.
  destruct (subfields fs ≫= _) as [x|]; [|done].
  destruct (subfields fs' ≫= _) as [x'|]; [|done].
  simpl in *. exists x, x'. repeat split; try done; simplify_eq; done.
Qed.

Global Instance same_entry_of_preorder (f : string) : PreOrder (same_entry_of f).
Proof.
  split.
  - by intros t.
  - intros a b c H1 H2. unfold same_entry_of in *. congruence.
Qed.

Lemma update_tree_field_other (record : list (string * json)) (total : Z)
    (x : string * string) (f : string) :
  x.1 ≠ f → preserves (same_entry_of f) (update_tree_field record total x).
Proof.
  intros Hne t. unfold update_tree_field, same_entry_of.
  destruct (fields t !! x.1) as [fs|] eqn:E.
  - rewrite (on_field_run _ _ t fs) by done. cbn [fst fields].
    by rewrite lookup_insert_ne.
  - unfold on_field. by rewrite E.
Qed.

Lemma field_computation_run (v : json) (f : string) (total : Z) (fs : FieldStats) :
  (modify (update_field_stats v f) ;;;
   when (has_subfields f && truthy v) (update_subfield_stats v f total) ;;;
   modify (recompute_field total)) fs
  = match when (has_subfields f && truthy v) (update_subfield_stats v f total)
            (update_field_stats v f fs) with
    | (fs2, Ok _) => (recompute_field total fs2, Ok tt)
    | (fs2, Raise e) => (fs2, Raise e)
    end.
Proof. reflexivity. Qed.

Lemma update_tree_field_self (record : list (string * json)) (total : Z) (f st : string)
    (t t' : Tree) (fs : FieldStats) :
  fields t !! f = Some fs →
  update_tree_field record total (f, st) t = (t', Ok tt) →
  ∃ fs2,
    when (has_subfields f && truthy (record_get record f))
         (update_subfield_stats (record_get record f) f total)
         (update_field_stats (record_get record f) f fs) = (fs2, Ok tt) ∧
    fields t' !! f = Some (recompute_field total fs2).
Proof.
  intros Hf. unfold update_tree_field. cbn [fst]. rewrite (on_field_run _ _ t fs) by done.
  rewrite field_computation_run.
  destruct (when _ _ _) as [fs2 [[]|e]]; cbn [fst snd]; intros H; [|done].
  injection H as <-. exists fs2. split; [done|]. simpl. by rewrite lookup_insert_eq.
Qed.

(** In a completed loop over the schema fields, the statistics of a field
    are those its own step produced. *)
Lemma fields_loop_entry (record : list (string * json)) (total : Z)
    (l : list (string * string)) (f st : string) (t0 t' : Tree) :
  NoDup (l.*1) → (f, st) ∈ l →
  for_each l (update_tree_field record total) t0 = (t', Ok tt) →
  ∃ t1 t2, fields t1 !! f = fields t0 !! f ∧
           update_tree_field record total (f, st) t1 = (t2, Ok tt) ∧
           fields t' !! f = fields t2 !! f.
Proof.
  revert t0. induction l as [|[g sg] rest IH]; intros t0 Hnd Hin H.
  { by apply elem_of_nil in Hin. }
  rewrite fmap_cons in Hnd. apply NoDup_cons in Hnd as [Hg Hnd]. simpl in Hg.
  rewrite for_each_cons_bind in H. apply bind_Ok in H as (ta & [] & H1 & H2).
  apply elem_of_cons in Hin as [Heq|Hin].
  - injection Heq as <- <-. exists t0, ta. split; [done|]. split; [done|].
    change t' with (t', Ok tt).1. rewrite <- H2.
    apply (preserves_for_each_in (same_entry_of f)). intros [g sg] Hx.
    apply update_tree_field_other. simpl. intros ->. apply Hg.
    apply list_elem_of_fmap. by exists (f, sg).
  - destruct (IH ta Hnd Hin H2) as (t1 & t2 & E1 & E2 & E3). exists t1, t2.
    split; [|done]. rewrite E1. change ta with (ta, Ok tt).1. rewrite <- H1.
    apply update_tree_field_other. simpl. intros ->. apply Hg.
    apply list_elem_of_fmap. by exists (f, st).
Qed.

Lemma update_stats_Ok_summary (record : list (string * json)) (s : Stats) :
  (update_stats_single_record record s).2 = Ok tt →
  ∃ t', for_each FIELD_STATUS
          (update_tree_field record (tree_count (summary s) + 1))
          (incr_tree_count (summary s)) = (t', Ok tt) ∧
        summary (update_stats_single_record record s).1 = refresh_categories t'.
Proof.
  intros H. rewrite summary_update.
  assert ((update_tree record (summary s)).2 = Ok tt) as Hs.
  { revert H. unfold update_stats_single_record. unfold bind at 1. unfold on_summary.
    destruct (update_tree record (summary s)) as [t' [[]|e]]; simpl; [done|].
    intros H. done. }
  revert Hs. rewrite update_tree_run. cbv zeta.
  change (tree_count (incr_tree_count (summary s))) with (tree_count (summary s) + 1).
  destruct (for_each _ _ _) as [t' [[]|e]]; simpl; [|done]. intros _. by exists t'.
Qed.

Lemma assoc_lookup_status (f : string) :
  f ∈ FIELD_STATUS.*1 → ∃ st, (f, st) ∈ FIELD_STATUS.
Proof. intros ([g st] & -> & H)%list_elem_of_fmap. by exists st. Qed.

(** C5, as the updater implements it.  When an update completes on a
    record whose list-valued field [field_name] has occurrences that all
    expose a subfield handled by its own configuration entry, the count of
    the subfield in the summary goes up by exactly one and its instances by
    the sum of what the occurrences expose: the number of occurrences for a
    subfield read directly from the occurrence, the number of name
    identifiers or affiliations found for [nameIdentifier] and
    [affiliation]. *)
Theorem C5_subfield_counted_once_per_record (record : list (string * json)) (s : Stats)
    (field_name : string) (field_config : list (string * config))
    (sub : string) (cfg : config) (items : list json) :
  assoc field_name SUBFIELD_STATS = Some field_config →
  (sub, cfg) ∈ field_config → sub ≠ "multiple" → sub ∉ nested_subfields →
  record_get record field_name = JList items → items ≠ [] →
  (∀ item, item ∈ items → 0 < exposed_instances field_name sub cfg item) →
  (update_stats_single_record record s).2 = Ok tt →
  ∃ x x',
    subfield_of (summary s) field_name sub = Some x ∧
    subfield_of (summary (update_stats_single_record record s).1) field_name sub = Some x' ∧
    sub_count x' = sub_count x + 1 ∧
    sub_instances x'
    = sub_instances x + sum_Z (exposed_instances field_name sub cfg <$> items) ∧
    (read_directly field_name sub = true →
     sub_instances x' = sub_instances x + Z.of_nat (length items)).
Proof.
  intros Hcfg Hin Hm Hn Hrec Hne Hexp Hok.
  destruct (SUBFIELD_STATS_keys _ _ Hcfg) as [_ Hfield].
  destruct (assoc_lookup_status _ Hfield) as [st Hst].
  destruct (update_stats_Ok_summary _ _ Hok) as (t' & Hloop & ->).
  destruct (fields_loop_entry _ _ _ _ _ _ _ NoDup_FIELD_STATUS Hst Hloop)
    as (t1 & t2 & E1 & E2 & E3).
  change (fields (incr_tree_count (summary s))) with (fields (summary s)) in E1.
  destruct (fields t1 !! field_name) as [fs|] eqn:Hfs.
  2:{ unfold update_tree_field, on_field in E2. cbn [fst] in E2. by rewrite Hfs in E2. }
  destruct (update_tree_field_self _ _ _ _ _ _ _ Hfs E2) as (fs2 & Hrun & Hfs2).
  rewrite Hrec in Hrun.
  assert (has_subfields field_name = true) as Hhas by (unfold has_subfields; by rewrite Hcfg).
  assert (truthy (JList items) = true) as Htr by (by destruct items).
  rewrite Hhas, Htr in Hrun. cbn [andb when] in Hrun.
  destruct (update_subfield_stats_counts _ _ _ _ _ _ _ _ Hcfg Hin Hm Hn Hne Hexp Hrun)
    as (x & x' & Hx & Hx' & Hc & Hi).
  destruct (update_field_stats_effect (JList items) field_name fs) as (_ & _ & Hsub & _).
  rewrite Hsub in Hx.
  exists x, x'. split; [|split; [|split; [done|split; [done|]]]].
  - unfold subfield_of. rewrite <- E1. simpl. exact Hx.
  - unfold subfield_of. cbn [fields refresh_categories]. rewrite E3, Hfs2. simpl. exact Hx'.
  - intros Hd. rewrite Hi. f_equal.
    clear -Hexp Hd. induction items as [|item items IH]; [done|].
    rewrite fmap_cons. cbn [sum_Z foldr length].
    rewrite (exposed_instances_direct _ _ _ _ Hd) by apply Hexp, list_elem_of_here.
    fold (sum_Z (exposed_instances field_name sub cfg <$> items)).
    rewrite IH by (intros y Hy; by apply Hexp, list_elem_of_further). lia.
Qed.

(** ** Values outside the permitted set *)

Section View.
Context {A : Type} (π : SubfieldStats → A) (sub : string).

Global Instance same_view_preorder : PreOrder (same_view π sub).
Proof.
  split.
  - by intros st.
  - intros a b c H1 H2. unfold same_view in *. congruence.
Qed.

Lemma view_set_subfields (s : string) (fs : FieldStats)
    (sm : gmap string SubfieldStats) (x x' : SubfieldStats) :
  subfields fs = Some sm → sm !! s = Some x → (s = sub → π x' = π x) →
  π <$> (subfields (set_subfields fs (<[s := x']> sm)) ≫= (.!! sub))
  = π <$> (subfields fs ≫= (.!! sub)).
Proof.
  intros Hs Hx Hsame. simpl. rewrite Hs; simpl.
  destruct (decide (s = sub)) as [->|Hne].
  - rewrite lookup_insert_eq, Hx. simpl. by rewrite Hsame.
  - by rewrite lookup_insert_ne.
Qed.

Lemma with_sub_view (s : string) (g : SubfieldStats → SubfieldStats) :
  (s = sub → ∀ x, π (g x) = π x) →
  preserves (same_view π sub) (on_stats (with_sub s g)).
Proof.
  intros Hg [fs seen]. unfold on_stats, with_sub; simpl.
  destruct (subfields fs) as [sm|] eqn:Hs; [|done].
  destruct (sm !! s) as [x|] eqn:Hx; [|done]. simpl.
  unfold same_view. cbn [fst]. apply (view_set_subfields s fs sm x); auto.
Qed.

Lemma incr_value_view (s : string) (v : json) :
  s ≠ sub → preserves (same_view π sub) (on_stats (incr_value s v)).
Proof.
  intros Hne [fs seen]. unfold on_stats, incr_value; simpl.
  destruct (subfields fs) as [sm|] eqn:Hs; [|done].
  destruct (sm !! s) as [x|] eqn:Hx; [|done].
  destruct (values x) as [vm|]; [|done].
  destruct v as [| | |k| |]; try done.
  destruct (vm !! k); [|done]. simpl.
  unfold same_view. cbn [fst]. by apply (view_set_subfields s fs sm x).
Qed.

Lemma count_once_view (s : string) :
  (s = sub → ∀ x, π (sub_incr_count x) = π x) →
  preserves (same_view π sub) (count_once s).
Proof.
  intros Hg. unfold count_once. repeat preserves_step.
  - by apply with_sub_view.
  - apply (preserves_modify (same_view π sub)). by intros [fs seen].
Qed.
End View.

Ltac view_step π sub :=
  first
    [ preserves_step
    | apply (incr_value_view π sub); congruence
    | apply (count_once_view π sub); congruence
    | apply (with_sub_view π sub); congruence ].

(** Handling another configuration entry leaves every aspect of the
    subfield as it was. *)
Lemma update_item_subfield_view {A : Type} (π : SubfieldStats → A) (sub field_name : string)
    (field_config : list (string * config)) (item : json) (s : string) (c : config) :
  s ≠ sub → sub ∉ nested_subfields →
  preserves (same_view π sub) (update_item_subfield field_name field_config item (s, c)).
Proof.
  intros Hne (N1 & N2 & N3)%nested_subfields_ne. unfold update_item_subfield.
  repeat (case_match; repeat view_step π sub).
Qed.

Lemma simple_enumerated_branch (sub : string) :
  sub ∈ simple_enumerated →
  String.eqb sub "multiple" = false ∧ String.eqb sub "nameType" = false ∧
  String.eqb sub "nameIdentifier" = false ∧ String.eqb sub "affiliation" = false ∧
  sub ∉ nested_subfields.
Proof.
  unfold simple_enumerated. rewrite !elem_of_cons.
  intros [->|[->|[->|[->|H]]]]; [..|by apply elem_of_nil in H];
    (repeat split; [done..|]); apply (bool_decide_unpack _); by vm_compute.
Qed.

(** Outside [fundingReferences], the entry of a subfield read with a plain
    membership test does nothing at all for an unrecognised value. *)
Lemma update_item_subfield_ignored (field_name : string)
    (field_config : list (string * config)) (item : json) (sub : string)
    (vs : list string) (st : FieldStats * gset string) :
  sub ∈ simple_enumerated → field_name ≠ "fundingReferences" →
  unrecognised sub vs item = true →
  update_item_subfield field_name field_config item (sub, CSet vs) st = (st, Ok tt).
Proof.
  intros Hs Hf Hu. unfold update_item_subfield.
  destruct (simple_enumerated_branch _ Hs) as (-> & -> & -> & -> & _).
  rewrite (proj2 (String.eqb_neq field_name _) Hf).
  rewrite (bool_decide_eq_true_2 _ Hs).
  unfold unrecognised in Hu. destruct (py_get item sub) as [v|]; [|done].
  apply andb_true_iff in Hu as [Ht Hin]. unfold bind, lift. rewrite Ht.
  cbn [py_in_config]. destruct (py_in v vs) as [[]|]; done.
Qed.

Lemma NoDup_keys_unique {V : Type} (l : list (string * V)) (k : string) (v v' : V) :
  NoDup (l.*1) → (k, v) ∈ l → (k, v') ∈ l → v = v'.
Proof.
  induction l as [|[k0 v0] r IH]; [by intros _ ?%elem_of_nil|].
  rewrite fmap_cons, NoDup_cons, !elem_of_cons. simpl.
  intros [Hk Hnd] [E1|H1] [E2|H2].
  - congruence.
  - injection E1 as -> ->. destruct Hk. apply list_elem_of_fmap. by exists (k0, v').
  - injection E2 as -> ->. destruct Hk. apply list_elem_of_fmap. by exists (k0, v).
  - by apply IH.
Qed.

Global Instance same_counters_preorder (sub : string) : PreOrder (same_counters sub).
Proof.
  split.
  - intros fs. unfold same_counters. reflexivity.
  - intros a b c H1 H2. unfold same_counters in *. by etrans.
Qed.

Lemma recompute_subfield_counters (sub : string) (total : Z) (entry : string * config) :
  preserves (same_counters sub) (recompute_subfield total entry).
Proof.
  unfold recompute_subfield. destruct (String.eqb entry.1 "multiple"); [apply (preserves_ret _)|].
  apply (preserves_bind _); [apply (preserves_get _)|]. intros fs0.
  destruct (subfields fs0); [|apply (preserves_raise _)].
  destruct (_ !! entry.1); [|apply (preserves_ret _)].
  intros fs. pose proof (with_sub_view counters sub entry.1 (sub_recompute total)) as H.
  specialize (H (λ _ x, eq_refl) (fs, ∅)).
  unfold same_counters. unfold on_stats in H. cbn [fst snd] in H.
  by destruct (with_sub entry.1 (sub_recompute total) fs).
Qed.

(** The list branch on occurrences whose values are all unrecognised. *)
Lemma update_subfield_stats_unrecognised (field_name : string)
    (field_config : list (string * config)) (sub : string) (vs : list string)
    (items : list json) (total : Z) :
  assoc field_name SUBFIELD_STATS = Some field_config →
  (sub, CSet vs) ∈ field_config →
  sub ∈ simple_enumerated → field_name ≠ "fundingReferences" →
  (∀ item, item ∈ items → unrecognised sub vs item = true) →
  preserves (same_counters sub) (update_subfield_stats (JList items) field_name total).
Proof.
  intros Hcfg Hin Hs Hf Hu. destruct (SUBFIELD_STATS_keys _ _ Hcfg) as [Hnd _].
  destruct (simple_enumerated_branch _ Hs) as (_ & _ & _ & _ & Hn).
  unfold update_subfield_stats. rewrite Hcfg.
  destruct (negb _); [apply (preserves_ret _)|].
  repeat preserves_step.
  - by apply (preserves_modify (same_counters sub)).
  - intros fs. unfold with_seen.
    assert (preserves (same_view counters sub)
              (for_each items (λ item,
                 for_each field_config (update_item_subfield field_name field_config item))))
      as Hloop.
    { apply (preserves_for_each_in _). intros item Hitem.
      apply (preserves_for_each_in _). intros [s c] Hentry.
      destruct (decide (s = sub)) as [->|Hne].
      - rewrite (NoDup_keys_unique _ _ _ _ Hnd Hentry Hin). intros st.
        rewrite update_item_subfield_ignored by auto. reflexivity.
      - by apply update_item_subfield_view. }
    specialize (Hloop (fs, ∅)). by destruct (for_each items _ (fs, ∅)).
  - apply recompute_subfield_counters.
Qed.

Global Instance same_counters_of_preorder (f sub : string) : PreOrder (same_counters_of f sub).
Proof.
  split.
  - by intros t.
  - intros a b c H1 H2. unfold same_counters_of in *. congruence.
Qed.

Lemma update_tree_field_counters (record : list (string * json)) (total : Z)
    (entry : string * string) (f sub : string) :
  preserves (same_counters sub)
    (when (has_subfields f && truthy (record_get record f))
          (update_subfield_stats (record_get record f) f total)) →
  preserves (same_counters_of f sub) (update_tree_field record total entry).
Proof.
  intros Hsub. destruct (decide (entry.1 = f)) as [<-|Hne].
  - intros t. unfold update_tree_field.
    destruct (fields t !! entry.1) as [fs|] eqn:E; [|unfold on_field; by rewrite E].
    rewrite (on_field_run _ _ t fs) by done.
    unfold same_counters_of, subfield_of. cbn [fst fields]. rewrite lookup_insert_eq, E. simpl.
    assert (preserves (same_counters sub)
              (modify (update_field_stats (record_get record entry.1) entry.1) ;;;
               when (has_subfields entry.1 && truthy (record_get record entry.1))
                    (update_subfield_stats (record_get record entry.1) entry.1 total) ;;;
               modify (recompute_field total))) as Hm.
    { apply (preserves_bind _); [|intros _; apply (preserves_bind _)];
        [|exact Hsub|intros _; by apply (preserves_modify _)].
      apply (preserves_modify _). intros fs0. unfold same_counters, same_view. cbn [fst].
      by destruct (update_field_stats_effect (record_get record entry.1) entry.1 fs0)
        as (_ & _ & -> & _). }
    apply (Hm fs).
  - intros t. pose proof (update_tree_field_other record total entry f Hne t) as H.
    unfold same_counters_of, subfield_of. unfold same_entry_of in H. by rewrite H.
Qed.

Lemma update_tree_counters (record : list (string * json)) (f sub : string) :
  (∀ total, preserves (same_counters sub)
    (when (has_subfields f && truthy (record_get record f))
          (update_subfield_stats (record_get record f) f total))) →
  preserves (same_counters_of f sub) (update_tree record).
Proof.
  intros Hsub. unfold update_tree. repeat preserves_step.
  - by apply (preserves_modify _).
  - by apply update_tree_field_counters.
  - by apply (preserves_modify _).
Qed.

(** *** The ["Other"] counter of [fundingReferences] *)

Lemma value_obs_view (sub v : string) (st st' : FieldStats * gset string) :
  same_view values sub st st' → value_obs sub v st' = value_obs sub v st.
Proof.
  unfold same_view, value_obs. intros H.
  destruct (subfields st'.1 ≫= _) as [x'|], (subfields st.1 ≫= _) as [x|]; simpl in *;
    try done.
  injection H as H. by rewrite H.
Qed.

Lemma same_counters_values (sub : string) (st st' : FieldStats * gset string) :
  same_view counters sub st st' → same_view values sub st st'.
Proof.
  unfold same_view. intros H.
  destruct (subfields st'.1 ≫= _) as [x'|], (subfields st.1 ≫= _) as [x|]; simpl in *;
    try done.
  unfold counters in H. injection H as _ _ H. by rewrite H.
Qed.

(** What an occurrence adds to the counter of [key] when it is counted
    under ["Other"]. *)
Lemma incr_value_effect (sub k key : string) (st st' : FieldStats * gset string) :
  on_stats (incr_value sub (JStr k)) st = (st', Ok tt) →
  is_Some (value_obs sub k st) ∧
  value_obs sub key st'
  = (λ n, n + (if bool_decide (key = k) then 1 else 0)) <$> value_obs sub key st.
Proof.
  destruct st as [fs seen]. unfold on_stats, incr_value, value_obs. cbn [fst snd].
  destruct (subfields fs) as [sm|] eqn:Hs; [|done]. simpl.
  destruct (sm !! sub) as [x|] eqn:Hx; [|done]. simpl.
  destruct (values x) as [vm|] eqn:Hv; [|done]. simpl.
  destruct (vm !! k) as [n|] eqn:Hk; [|done]. intros H. injection H as <-.
  split; [by eexists|]. simpl. rewrite lookup_insert_eq. simpl.
  destruct (decide (key = k)) as [->|Hne].
  - rewrite bool_decide_eq_true_2 by done. by rewrite lookup_insert_eq, Hk.
  - rewrite bool_decide_eq_false_2 by done. rewrite lookup_insert_ne by done.
    destruct (vm !! key); simpl; [f_equal; lia|done].
Qed.

(** The entry of an enumerated subfield of [fundingReferences], on an
    occurrence with an unrecognised value. *)
Lemma funding_unrecognised_effect (field_config : list (string * config)) (item : json)
    (sub : string) (vs : list string) (key : string) (st st' : FieldStats * gset string) :
  sub ≠ "multiple" → unrecognised sub vs item = true →
  update_item_subfield "fundingReferences" field_config item (sub, CSet vs) st = (st', Ok tt) →
  is_Some (value_obs sub "Other" st) ∧
  value_obs sub key st'
  = (λ n, n + (if bool_decide (key = "Other") then 1 else 0)) <$> value_obs sub key st.
Proof.
  intros Hm Hu. unfold update_item_subfield.
  rewrite (proj2 (String.eqb_neq sub "multiple") Hm), String.eqb_refl.
  unfold unrecognised in Hu. destruct (py_get item sub) as [v|]; [|done].
  apply andb_true_iff in Hu as [Ht Hin]. intros H.
  apply bind_Ok in H as (st0 & v' & [Hv ->]%lift_Ok & H). injection Hv as <-.
  rewrite Ht in H. cbn [when] in H.
  apply bind_Ok in H as (st1 & [] & H1 & H). apply bind_Ok in H as (st2 & [] & H2 & H).
  apply bind_Ok in H as (st3 & known & [Hk ->]%lift_Ok & H).
  rewrite Hk in Hin. destruct known; [done|].
  apply (incr_value_effect sub "Other" key) in H as [Hsome H].
  assert (∀ k, value_obs sub k st2 = value_obs sub k st) as Hfr.
  { intros k. etrans.
    - apply value_obs_view. change st2 with (st2, Ok tt).1. rewrite <- H2.
      by apply (with_sub_view values sub).
    - apply value_obs_view. change st1 with (st1, Ok tt).1. rewrite <- H1.
      by apply (count_once_view values sub). }
  by rewrite <- !Hfr.
Qed.

Lemma add_shift (o : option Z) (a b : Z) :
  (λ n, n + b) <$> ((λ n, n + a) <$> o) = (λ n, n + (a + b)) <$> o.
Proof. destruct o; simpl; [f_equal; lia|done]. Qed.

Lemma funding_config_loop (field_config cfgs : list (string * config)) (item : json)
    (sub : string) (vs : list string) (key : string) (st st' : FieldStats * gset string) :
  sub ≠ "multiple" → sub ∉ nested_subfields →
  NoDup (cfgs.*1) → (sub, CSet vs) ∈ cfgs → unrecognised sub vs item = true →
  for_each cfgs (update_item_subfield "fundingReferences" field_config item) st = (st', Ok tt) →
  is_Some (value_obs sub "Other" st) ∧
  value_obs sub key st'
  = (λ n, n + (if bool_decide (key = "Other") then 1 else 0)) <$> value_obs sub key st.
Proof.
  intros Hm Hn. revert st. induction cfgs as [|[s c] rest IH]; intros st Hnd Hin Hu H.
  { by apply elem_of_nil in Hin. }
  rewrite fmap_cons in Hnd. apply NoDup_cons in Hnd as [Hs Hnd]. simpl in Hs.
  rewrite for_each_cons_bind in H. apply bind_Ok in H as (st1 & [] & H1 & H2).
  apply elem_of_cons in Hin as [Heq|Hin].
  - injection Heq as <- <-.
    apply (funding_unrecognised_effect _ _ _ _ key) in H1 as [H1 H1']; [|done|done].
    split; [done|]. rewrite <- H1'. apply value_obs_view.
    change st' with (st', Ok tt).1. rewrite <- H2.
    apply (preserves_for_each_in (same_view values sub)). intros [s' c'] Hin'.
    apply update_item_subfield_view; [|done].
    intros ->. apply Hs. apply list_elem_of_fmap. by exists (sub, c').
  - assert (s ≠ sub) as Hne.
    { intros ->. apply Hs. apply list_elem_of_fmap. by exists (sub, CSet vs). }
    assert (∀ k, value_obs sub k st1 = value_obs sub k st) as Hfr.
    { intros k. apply value_obs_view. change st1 with (st1, Ok tt).1. rewrite <- H1.
      by apply update_item_subfield_view. }
    destruct (IH st1 Hnd Hin Hu H2) as [E1 E2]. by rewrite <- !Hfr.
Qed.

Lemma funding_items_loop (field_config : list (string * config)) (items : list json)
    (sub : string) (vs : list string) (key : string) (st st' : FieldStats * gset string) :
  sub ≠ "multiple" → sub ∉ nested_subfields →
  NoDup (field_config.*1) → (sub, CSet vs) ∈ field_config →
  (∀ item, item ∈ items → unrecognised sub vs item = true) →
  for_each items
    (λ item, for_each field_config
               (update_item_subfield "fundingReferences" field_config item)) st
  = (st', Ok tt) →
  (items ≠ [] → is_Some (value_obs sub "Other" st)) ∧
  value_obs sub key st'
  = (λ n, n + (if bool_decide (key = "Other") then Z.of_nat (length items) else 0))
      <$> value_obs sub key st.
Proof.
  intros Hm Hn Hnd Hin. revert st. induction items as [|item items IH]; intros st Hu H.
  { unfold for_each, ret in H. injection H as <-. split; [done|].
    destruct (value_obs sub key st); simpl; [|done]. f_equal. case_bool_decide; simpl; lia. }
  rewrite for_each_cons_bind in H. apply bind_Ok in H as (st1 & [] & H1 & H2).
  destruct (funding_config_loop field_config field_config item sub vs key st st1
              Hm Hn Hnd Hin (Hu item (list_elem_of_here _ _)) H1) as [E1 E1'].
  destruct (IH st1) as [_ E2]; [intros y Hy; by apply Hu, list_elem_of_further|done|].
  split; [done|]. rewrite E2, E1', add_shift.
  destruct (value_obs sub key st); simpl; [|done]. f_equal.
  case_bool_decide; [|lia]. rewrite Nat2Z.inj_succ. lia.
Qed.

Lemma unrecognised_exposed (sub : string) (vs : list string) (item : json) :
  unrecognised sub vs item = true →
  exposed_instances "fundingReferences" sub (CSet vs) item = 1.
Proof.
  unfold unrecognised, exposed_instances. rewrite String.eqb_refl.
  destruct (py_get item sub) as [v|]; [|done]. intros [-> _]%andb_true_iff. done.
Qed.

(** The list branch on a [fundingReferences] value whose occurrences all
    carry an unrecognised value, when it completes. *)
Lemma update_subfield_stats_other (field_config : list (string * config))
    (sub : string) (vs : list string) (items : list json) (total : Z) (key : string)
    (fs fs' : FieldStats) :
  assoc "fundingReferences" SUBFIELD_STATS = Some field_config →
  (sub, CSet vs) ∈ field_config → sub ≠ "multiple" → sub ∉ nested_subfields →
  items ≠ [] →
  (∀ item, item ∈ items → unrecognised sub vs item = true) →
  update_subfield_stats (JList items) "fundingReferences" total fs = (fs', Ok tt) →
  is_Some (value_obs sub "Other" (fs, ∅)) ∧
  value_obs sub key (fs', ∅)
  = (λ n, n + (if bool_decide (key = "Other") then Z.of_nat (length items) else 0))
      <$> value_obs sub key (fs, ∅).
Proof.
  intros Hcfg Hin Hm Hn Hne Hu. destruct (SUBFIELD_STATS_keys _ _ Hcfg) as [Hnd _].
  unfold update_subfield_stats. rewrite Hcfg.
  assert (truthy (JList items) = true) as -> by (by destruct items). cbn [negb].
  intros H. apply bind_Ok in H as (fs1 & [] & H1 & H). apply bind_Ok in H as (fs2 & [] & H2 & H3).
  unfold modify in H1. injection H1 as <-.
  unfold with_seen in H2.
  destruct (for_each items _ (add_instances (Z.of_nat (length items)) fs, ∅))
    as [st' o] eqn:Hloop.
  injection H2 as <- ->.
  destruct (funding_items_loop field_config items sub vs key _ _ Hm Hn Hnd Hin Hu Hloop)
    as [E1 E2].
  assert (value_obs sub key (fs', ∅) = value_obs sub key st') as E3.
  { change (value_obs sub key st') with (value_obs sub key (st'.1, ∅)).
    apply value_obs_view, same_counters_values. change fs' with (fs', Ok tt).1. rewrite <- H3.
    apply (preserves_for_each (same_counters sub)). intros entry.
    apply recompute_subfield_counters. }
  split; [by apply E1|]. by rewrite E3, E2.
Qed.

(** A completed update of the summary, seen from one list-valued field
    with subfields. *)
Lemma update_stats_field_run (record : list (string * json)) (s : Stats)
    (f : string) (field_config : list (string * config)) (items : list json) :
  assoc f SUBFIELD_STATS = Some field_config →
  record_get record f = JList items → items ≠ [] →
  (update_stats_single_record record s).2 = Ok tt →
  ∃ fs fs2,
    fields (summary s) !! f = Some fs ∧
    update_subfield_stats (JList items) f (tree_count (summary s) + 1)
      (update_field_stats (JList items) f fs) = (fs2, Ok tt) ∧
    fields (summary (update_stats_single_record record s).1) !! f
    = Some (recompute_field (tree_count (summary s) + 1) fs2).
Proof.
  intros Hcfg Hrec Hne Hok.
  destruct (SUBFIELD_STATS_keys _ _ Hcfg) as [_ Hfield].
  destruct (assoc_lookup_status _ Hfield) as [st Hst].
  destruct (update_stats_Ok_summary _ _ Hok) as (t' & Hloop & ->).
  destruct (fields_loop_entry _ _ _ _ _ _ _ NoDup_FIELD_STATUS Hst Hloop)
    as (t1 & t2 & E1 & E2 & E3).
  change (fields (incr_tree_count (summary s))) with (fields (summary s)) in E1.
  destruct (fields t1 !! f) as [fs|] eqn:Hfs.
  2:{ unfold update_tree_field, on_field in E2. cbn [fst] in E2. by rewrite Hfs in E2. }
  destruct (update_tree_field_self _ _ _ _ _ _ _ Hfs E2) as (fs2 & Hrun & Hfs2).
  rewrite Hrec in Hrun.
  assert (has_subfields f = true) as Hhas by (unfold has_subfields; by rewrite Hcfg).
  assert (truthy (JList items) = true) as Htr by (by destruct items).
  rewrite Hhas, Htr in Hrun. cbn [andb when] in Hrun.
  exists fs, fs2. split; [done|]. split; [done|].
  cbn [fields refresh_categories]. by rewrite E3.
Qed.

Lemma funding_enumerated (field_config : list (string * config)) (sub : string)
    (vs : list string) :
  assoc "fundingReferences" SUBFIELD_STATS = Some field_config →
  (sub, CSet vs) ∈ field_config → sub ≠ "multiple" ∧ sub ∉ nested_subfields.
Proof.
  intros Hcfg Hin. vm_compute in Hcfg. injection Hcfg as <-.
  rewrite !elem_of_cons in Hin.
  destruct Hin as [H|[H|[H|[H|[H|[H|[H|H]]]]]]];
    try discriminate H; [|by apply elem_of_nil in H].
  injection H as -> _. split; [done|]. apply (bool_decide_unpack _). by vm_compute.
Qed.

Lemma value_counter_obs (t : Tree) (f sub v : string) (fs : FieldStats) :
  fields t !! f = Some fs → value_counter t f sub v = value_obs sub v (fs, ∅).
Proof. intros H. unfold value_counter, subfield_of, value_obs. by rewrite H. Qed.

Lemma sum_exposed_unrecognised (sub : string) (vs : list string) (items : list json) :
  (∀ item, item ∈ items → unrecognised sub vs item = true) →
  sum_Z (exposed_instances "fundingReferences" sub (CSet vs) <$> items)
  = Z.of_nat (length items).
Proof.
  induction items as [|item items IH]; intros Hu; [done|].
  rewrite fmap_cons. cbn [sum_Z foldr length].
  rewrite (unrecognised_exposed _ _ _ (Hu item (list_elem_of_here _ _))).
  fold (sum_Z (exposed_instances "fundingReferences" sub (CSet vs) <$> items)).
  rewrite IH by (intros y Hy; by apply Hu, list_elem_of_further). lia.
Qed.

(** C6, as the updater implements it.  The occurrences of a list-valued
    field all carry, for an enumerated subfield, a value outside the
    permitted set.  Under [contributorType], [relationType],
    [relatedIdentifierType] and [resourceTypeGeneral] the occurrences are
    ignored: the count, the instances and every per-value counter of the
    subfield in the summary are what they were, whether or not the
    enumeration has ["Other"] and whether or not the update completes.  In
    [fundingReferences], when the update completes, the subfield is counted
    once, its instances and its ["Other"] counter go up by the number of
    occurrences, and no other per-value counter changes. *)
Theorem C6_unrecognised_value_by_branch (record : list (string * json)) (s : Stats)
    (field_name : string) (field_config : list (string * config))
    (sub : string) (vs : list string) (items : list json) :
  assoc field_name SUBFIELD_STATS = Some field_config →
  (sub, CSet vs) ∈ field_config →
  record_get record field_name = JList items →
  (∀ item, item ∈ items → unrecognised sub vs item = true) →
  let before := summary s in
  let after := summary (update_stats_single_record record s).1 in
  (field_name ≠ "fundingReferences" → sub ∈ simple_enumerated →
   counters <$> subfield_of after field_name sub
   = counters <$> subfield_of before field_name sub) ∧
  (field_name = "fundingReferences" → items ≠ [] →
   (update_stats_single_record record s).2 = Ok tt →
   ∃ x x' n,
     subfield_of before field_name sub = Some x ∧
     subfield_of after field_name sub = Some x' ∧
     sub_count x' = sub_count x + 1 ∧
     sub_instances x' = sub_instances x + Z.of_nat (length items) ∧
     value_counter before field_name sub "Other" = Some n ∧
     value_counter after field_name sub "Other" = Some (n + Z.of_nat (length items)) ∧
     ∀ v, v ≠ "Other" →
       value_counter after field_name sub v = value_counter before field_name sub v).
Proof.
  intros Hcfg Hin Hrec Hu before after. split.
  - intros Hf Hs. unfold after, before. rewrite summary_update.
    apply (update_tree_counters record field_name sub). intros total.
    rewrite Hrec. apply (preserves_when _).
    by apply (update_subfield_stats_unrecognised _ field_config _ vs).
  - intros -> Hne Hok.
    destruct (funding_enumerated _ _ _ Hcfg Hin) as [Hm Hn].
    destruct (update_stats_field_run _ _ _ _ _ Hcfg Hrec Hne Hok)
      as (fs & fs2 & Hfs & Hrun & Hfs2).
    assert (∀ item, item ∈ items →
              0 < exposed_instances "fundingReferences" sub (CSet vs) item) as Hexp.
    { intros item Hitem. rewrite (unrecognised_exposed _ _ _ (Hu item Hitem)). lia. }
    destruct (update_subfield_stats_counts _ _ _ _ _ _ _ _ Hcfg Hin Hm Hn Hne Hexp Hrun)
      as (x & x' & Hx & Hx' & Hc & Hi).
    rewrite sum_exposed_unrecognised in Hi by done.
    destruct (update_field_stats_effect (JList items) "fundingReferences" fs)
      as (_ & _ & Hsub & _).
    rewrite Hsub in Hx.
    assert (∀ key, value_counter after "fundingReferences" sub key
                   = (λ n, n + (if bool_decide (key = "Other")
                                then Z.of_nat (length items) else 0))
                       <$> value_counter before "fundingReferences" sub key) as Hval.
    { intros key. unfold after, before.
      rewrite (value_counter_obs _ _ _ _ _ Hfs2), (value_counter_obs _ _ _ _ _ Hfs).
      destruct (update_subfield_stats_other _ _ _ _ _ key _ _ Hcfg Hin Hm Hn Hne Hu Hrun)
        as [_ E].
      unfold value_obs in *. cbn [fst recompute_field subfields] in *.
      by rewrite E, Hsub. }
    assert (is_Some (value_counter before "fundingReferences" sub "Other")) as [n Hn0].
    { unfold before. rewrite (value_counter_obs _ _ _ _ _ Hfs).
      destruct (update_subfield_stats_other _ _ _ _ _ "Other" _ _ Hcfg Hin Hm Hn Hne Hu Hrun)
        as [E _].
      unfold value_obs in *. cbn [fst] in *. by rewrite Hsub in E. }
    exists x, x', n. split; [|split; [|split; [done|split; [done|split; [done|split]]]]].
    + unfold before, subfield_of. rewrite Hfs. exact Hx.
    + unfold after, subfield_of. rewrite Hfs2. exact Hx'.
    + rewrite Hval, Hn0. reflexivity.
    + intros v Hv. rewrite Hval. rewrite bool_decide_eq_false_2 by done.
      destruct (value_counter before _ _ v); simpl; [f_equal; lia|done].
Qed.

(** A contributor of the unrecognised type ["Inventor"] leaves the counters
    of [contributorType] in an empty summary untouched. *)
Lemma C6_inventor_ignored :
  counters <$> subfield_of
                 (summary (update_stats_single_record (normalised item_unrecognised_types)
                             create_empty_stats).1)
                 "contributors" "contributorType"
  = counters <$> subfield_of (summary create_empty_stats) "contributors" "contributorType".
Proof.
  refine (proj1 (C6_unrecognised_value_by_branch
                   (normalised item_unrecognised_types) create_empty_stats
                   "contributors" (default [] (assoc "contributors" SUBFIELD_STATS))
                   "contributorType" (enumeration_of "contributors" "contributorType")
                   [JObj [("name", JStr "Babbage, Charles");
                          ("contributorType", JStr "Inventor")]]
                   _ _ _ _) _ _).
  - reflexivity.
  - apply (list_elem_of_lookup_2 _ 1%nat). reflexivity.
  - vm_compute. reflexivity.
  - intros item ->%list_elem_of_singleton. vm_compute. reflexivity.
  - discriminate.
  - apply (bool_decide_unpack _). vm_compute. exact I.
Defined.

(** ** Worked examples *)

(** Two one-record objects, one with a creator and one without, merge into
    an object that carries the sums. *)
Lemma C2_two_objects_example :
  let a := (update_stats_single_record (normalised item_personal_creator)
              create_empty_stats).1 in
  let b := (update_stats_single_record (normalised item_without_creators)
              create_empty_stats).1 in
  merged_from (summary a) (summary b) (summary (merge_stats a b)) ∧
  ∀ rt ta tb, byResourceType a !! rt = Some ta → byResourceType b !! rt = Some tb →
    ∃ tm, byResourceType (merge_stats a b) !! rt = Some tm ∧ merged_from ta tb tm.
Proof.
  intros a b. apply C2_merge_stats_sums; apply built_update, built_empty.
Defined.

(** The same two objects merge to the same result in either order. *)
Lemma C3_two_objects_example :
  let a := (update_stats_single_record (normalised item_personal_creator)
              create_empty_stats).1 in
  let b := (update_stats_single_record (normalised item_without_creators)
              create_empty_stats).1 in
  merge_stats a b = merge_stats b a.
Proof.
  intros a b. apply (proj1 C3_merge_order_independent); apply built_update, built_empty.
Defined.

(** One creator with two name identifiers: [nameIdentifier] is counted
    once, with two instances. *)
Lemma C5_two_name_identifiers_example :
  let record := normalised item_two_name_identifiers in
  ∃ x x',
    subfield_of (summary create_empty_stats) "creators" "nameIdentifier" = Some x ∧
    subfield_of (summary (update_stats_single_record record create_empty_stats).1)
      "creators" "nameIdentifier" = Some x' ∧
    sub_count x' = sub_count x + 1 ∧ sub_instances x' = sub_instances x + 2.
Proof.
  intros record.
  destruct (C5_subfield_counted_once_per_record record create_empty_stats
              "creators" (default [] (assoc "creators" SUBFIELD_STATS))
              "nameIdentifier" (CDict false)
              [JObj [("name", JStr "Lovelace, Ada");
                     ("nameIdentifiers",
                        JList [ JObj [("nameIdentifier", JStr "0000-0001-2345-6789");
                                      ("nameIdentifierScheme", JStr "ORCID")];
                                JObj [("nameIdentifier", JStr "0000000121032683");
                                      ("nameIdentifierScheme", JStr "ISNI")] ])]])
    as (x & x' & Hx & Hx' & Hc & Hi & _).
  - reflexivity.
  - apply (list_elem_of_lookup_2 _ 2%nat). reflexivity.
  - discriminate.
  - apply (bool_decide_unpack _). vm_compute. exact I.
  - vm_compute. reflexivity.
  - discriminate.
  - intros item ->%list_elem_of_singleton. vm_compute. reflexivity.
  - vm_compute. reflexivity.
  - exists x, x'. split; [exact Hx|]. split; [exact Hx'|]. split; [exact Hc|]. exact Hi.
Defined.

(** With one provider and one client in the registry and no record, the
    output still holds the two aggregate entities. *)
Lemma C9_empty_run_example :
  let m := run [ {| reg_id := "cern"; reg_attributes := JObj [("name", JStr "CERN")];
                    reg_provider := None |} ]
               [ {| reg_id := "cern.zenodo"; reg_attributes := JObj [("name", JStr "Zenodo")];
                    reg_provider := Some "cern" |} ]
               [ ([], []) ] in
  (∀ kv, kv ∈ (providers m ++ clients m)%list → pruned kv.2) ∧
  is_Some (dict_get "aggregate" (providers m)) ∧
  is_Some (dict_get "aggregate.all" (clients m)).
Proof.
  intros m.
  destruct (C9_final_output_pruned
              [ {| reg_id := "cern"; reg_attributes := JObj [("name", JStr "CERN")];
                   reg_provider := None |} ]
              [ {| reg_id := "cern.zenodo"; reg_attributes := JObj [("name", JStr "Zenodo")];
                   reg_provider := Some "cern" |} ]
              [ ([], []) ]) as (H1 & _ & _ & H2 & H3).
  split; [exact H1|]. split; [exact H2|exact H3].
Defined.

(** After the clean-up of a one-record object the counter of ["Personal"]
    is there with its value and the counter of ["Organizational"] is
    gone. *)
Lemma C10_personal_creator_example :
  let s := (update_stats_single_record (normalised item_personal_creator)
              create_empty_stats).1 in
  let s' := remove_zero_count_resource_types_and_clean s in
  value_counter (summary s') "creators" "nameType" "Personal" = Some 1 ∧
  value_counter (summary s') "creators" "nameType" "Organizational" = None.
Proof.
  intros s s'. split.
  - apply (proj1 (C10_cleaned_value_counters_positive s "creators" "nameType" "Personal" 1)).
    split; [vm_compute; reflexivity|lia].
  - destruct (value_counter (summary s') "creators" "nameType" "Organizational") as [c|] eqn:E;
      [|reflexivity].
    apply (proj1 (C10_cleaned_value_counters_positive s "creators" "nameType"
                    "Organizational" c)) in E as [E1 E2].
    vm_compute in E1. injection E1 as <-. lia.
Defined.

(** ** What one record update does to the object *)

Lemma update_tree_field_count (record : list (string * json)) (total : Z)
    (entry : string * string) (t : Tree) :
  tree_count (update_tree_field record total entry t).1 = tree_count t.
Proof.
  unfold update_tree_field.
  destruct (fields t !! entry.1) as [fs|] eqn:E.
  - by rewrite (on_field_run _ _ t fs).
  - unfold on_field. by rewrite E.
Qed.

Lemma update_tree_count (record : list (string * json)) (t : Tree) :
  tree_count (update_tree record t).1 = tree_count t + 1.
Proof.
  rewrite update_tree_run. cbv zeta.
  assert (∀ l t0, tree_count (for_each l
            (update_tree_field record (tree_count (incr_tree_count t))) t0).1 = tree_count t0)
    as Hloop.
  { induction l as [|x l IH]; intros t0; [done|].
    rewrite for_each_cons_bind. unfold bind.
    pose proof (update_tree_field_count record (tree_count (incr_tree_count t)) x t0) as Hx.
    destruct (update_tree_field _ _ x t0) as [t1 [[]|e]]; simpl in *; [|done].
    by rewrite IH. }
  specialize (Hloop FIELD_STATUS (incr_tree_count t)).
  destruct (for_each _ _ _) as [t' [[]|e]]; simpl in *; by rewrite Hloop.
Qed.

(** The record is counted in the summary whatever happens afterwards: the
    record count goes up by one also when the update raises part-way, and
    on an object built from the schema the structural invariant survives
    the interruption. *)
Theorem record_counted_even_on_error (record : list (string * json)) (s : Stats) :
  let s' := (update_stats_single_record record s).1 in
  tree_count (summary s') = tree_count (summary s) + 1 ∧
  (built s → stats_inv s').
Proof.
  intros s'. split.
  - unfold s'. rewrite summary_update. apply update_tree_count.
  - intros Hs. apply built_inv. by constructor.
Qed.

Lemma record_counted_example :
  stats_inv (update_stats_single_record (normalised item_unknown_nameType)
               create_empty_stats).1.
Proof.
  apply (proj2 (record_counted_even_on_error (normalised item_unknown_nameType)
                  create_empty_stats)).
  apply built_empty.
Defined.

(** After an update that completes, every schema field of the summary is
    consistent with the new record count: the field was counted exactly
    when the record carries a truthy value for it, [missing] and
    [completeness] are recomputed, the status is untouched, and the
    categories are those of the new fields. *)
Theorem completed_update_recomputes_fields (record : list (string * json)) (s : Stats)
    (f : string) :
  f ∈ FIELD_STATUS.*1 →
  (update_stats_single_record record s).2 = Ok tt →
  let t := summary s in
  let t' := summary (update_stats_single_record record s).1 in
  tree_count t' = tree_count t + 1 ∧
  categories t' = calculate_category_metrics (fields t') (tree_count t') ∧
  ∃ fs fs', fields t !! f = Some fs ∧ fields t' !! f = Some fs' ∧
    count fs' = count fs + (if truthy (record_get record f) then 1 else 0) ∧
    missing fs' = tree_count t' - count fs' ∧
    completeness fs' = ratio (count fs') (tree_count t') ∧
    fieldStatus fs' = fieldStatus fs.
Proof.
  intros Hf Hok t t'.
  assert (tree_count t' = tree_count t + 1) as Hc.
  { unfold t', t. rewrite summary_update. apply update_tree_count. }
  split; [done|].
  destruct (assoc_lookup_status _ Hf) as [st Hst].
  destruct (update_stats_Ok_summary _ _ Hok) as (t1 & Hloop & Hsum).
  fold t' in Hsum. fold t in Hloop.
  assert (tree_count t1 = tree_count t + 1) as Hc1 by (rewrite Hsum in Hc; exact Hc).
  split; [rewrite Hsum; reflexivity|].
  destruct (fields_loop_entry _ _ _ _ _ _ _ NoDup_FIELD_STATUS Hst Hloop)
    as (ta & tb & E1 & E2 & E3).
  change (fields (incr_tree_count t)) with (fields t) in E1.
  destruct (fields ta !! f) as [fs|] eqn:Hfs.
  2:{ unfold update_tree_field, on_field in E2. cbn [fst] in E2. by rewrite Hfs in E2. }
  destruct (update_tree_field_self _ _ _ _ _ _ _ Hfs E2) as (fs2 & Hrun & Hfs2).
  exists fs, (recompute_field (tree_count t + 1) fs2).
  split; [done|]. split; [rewrite Hsum; cbn [fields refresh_categories]; by rewrite E3|].
  assert (same_field (update_field_stats (record_get record f) f fs) fs2) as (Hsh & Hcnt & _).
  { change fs2 with (fs2, Ok tt).1. rewrite <- Hrun.
    destruct (has_subfields f && truthy (record_get record f)); [|by split].
    apply update_subfield_stats_same_field. }
  destruct (update_field_stats_effect (record_get record f) f fs) as (Hst' & _ & _ & Hcount).
  cbn [count missing completeness fieldStatus recompute_field]. rewrite Hc, Hcnt, Hcount.
  repeat split. rewrite <- Hst'. apply (f_equal fieldStatus) in Hsh. exact Hsh.
Qed.

Lemma completed_update_example :
  let record := normalised item_personal_creator in
  let t' := summary (update_stats_single_record record create_empty_stats).1 in
  tree_count t' = 1 ∧ (count <$> fields t' !! "creators") = Some 1.
Proof.
  intros record t'.
  destruct (completed_update_recomputes_fields record create_empty_stats "creators")
    as (Hc & _ & fs & fs' & Hfs & Hfs' & Hcount & _).
  - apply (bool_decide_unpack _). vm_compute. exact I.
  - vm_compute. reflexivity.
  - split; [exact Hc|]. fold t' in Hfs'. rewrite Hfs'. simpl. rewrite Hcount.
    vm_compute in Hfs. injection Hfs as <-. reflexivity.
Defined.

(** [update_subfield_stats] works below the field: whatever the value and
    whether or not it raises, it leaves the field's [count], [missing] and
    [fieldStatus] alone and neither adds nor removes a subfield or a value
    key. *)
Theorem subfield_update_frame (field_value : json) (field_name : string) (total : Z)
    (fs : FieldStats) :
  let fs' := (update_subfield_stats field_value field_name total fs).1 in
  count fs' = count fs ∧ missing fs' = missing fs ∧ fieldStatus fs' = fieldStatus fs ∧
  dom <$> subfields fs' = dom <$> subfields fs ∧
  ∀ sf, (λ x, dom <$> values x) <$> (subfields fs' ≫= (.!! sf))
        = (λ x, dom <$> values x) <$> (subfields fs ≫= (.!! sf)).
Proof.
  intros fs'.
  destruct (update_subfield_stats_same_field field_value field_name total fs)
    as (Hsh & Hc & Hm).
  fold fs' in Hsh, Hc, Hm. split; [done|]. split; [done|].
  split; [exact (f_equal fieldStatus Hsh)|].
  apply (f_equal subfields) in Hsh. cbn [subfields erase_field] in Hsh.
  destruct (subfields fs') as [sm'|], (subfields fs) as [sm|]; simpl in *; try done.
  injection Hsh as Hsh. split.
  - f_equal. rewrite <- (dom_fmap_L erase_sub sm'), <- (dom_fmap_L erase_sub sm). by rewrite Hsh.
  - intros sf. apply (f_equal (.!! sf)) in Hsh. rewrite !lookup_fmap in Hsh.
    destruct (sm' !! sf) as [x'|], (sm !! sf) as [x|]; simpl in *; try done.
    injection Hsh as Hsh. f_equal.
    destruct (values x') as [vm'|], (values x) as [vm|]; simpl in *; try done.
    injection Hsh as Hsh. f_equal.
    rewrite <- (dom_fmap_L (λ _, 0) vm'), <- (dom_fmap_L (λ _, 0) vm). by rewrite Hsh.
Qed.

Lemma known_resource_type_Some (v : json) (s : Stats) (rt : string) :
  known_resource_type v s = Ok (Some rt) → v = JStr rt ∧ is_Some (byResourceType s !! rt).
Proof.
  unfold known_resource_type. destruct (truthy v); [|done].
  destruct v as [| | |k| |]; try done.
  case_bool_decide as Hin; [|done]. intros E. injection E as ->. done.
Qed.

Lemma known_resource_type_str (rt : string) (s : Stats) :
  truthy (JStr rt) = true → is_Some (byResourceType s !! rt) →
  known_resource_type (JStr rt) s = Ok (Some rt).
Proof.
  intros Htr Hin. unfold known_resource_type. rewrite Htr.
  by rewrite bool_decide_eq_true_2.
Qed.

(** Only the tree of the record's own resource type is touched: a tree
    under another key is the one it was, and when the update completes for
    a record whose resource type is a key of the object, that tree has
    received the record. *)
Theorem update_touches_own_resource_type (record : list (string * json)) (s : Stats)
    (rt : string) (t : Tree) :
  byResourceType s !! rt = Some t →
  let s' := (update_stats_single_record record s).1 in
  (record_resource_type record ≠ JStr rt → byResourceType s' !! rt = Some t) ∧
  ((update_stats_single_record record s).2 = Ok tt →
   record_resource_type record = JStr rt → truthy (JStr rt) = true →
   byResourceType s' !! rt = Some (update_tree record t).1 ∧
   tree_count (update_tree record t).1 = tree_count t + 1).
Proof.
  intros Ht s'. unfold s'.
  unfold update_stats_single_record, bind, on_summary, get, lift.
  destruct (update_tree record (summary s)) as [t1 [[]|e]]; cbn [fst snd byResourceType];
    [|split; [done|discriminate]].
  destruct (known_resource_type _ _) as [[k|]|e] eqn:Hk; cbn [fst snd byResourceType].
  - apply known_resource_type_Some in Hk as [Hk [tk Htk]]. cbn [byResourceType] in Htk.
    unfold on_resource_type. cbn [byResourceType]. rewrite Htk.
    destruct (update_tree record tk) as [tk' o] eqn:Hup. cbn [fst snd byResourceType].
    split.
    + intros Hne. rewrite lookup_insert_ne; [done|congruence].
    + intros -> Heq _. rewrite Hk in Heq. injection Heq as ->. rewrite lookup_insert_eq.
      rewrite Ht in Htk. injection Htk as <-. rewrite Hup. split; [done|].
      change tk' with (tk', Ok tt).1. rewrite <- Hup. apply update_tree_count.
  - split; [done|]. intros _ Heq Htr. rewrite Heq in Hk.
    rewrite known_resource_type_str in Hk; [done|done|]. cbn [byResourceType]. by eexists.
  - split; [done|discriminate].
Qed.

Lemma create_empty_stats_resource_type (rt : string) :
  rt ∈ resource_types → byResourceType create_empty_stats !! rt = Some empty_tree.
Proof.
  change (byResourceType create_empty_stats)
    with (foldl (λ m rt, <[rt := empty_tree]> m) (∅ : gmap string Tree) resource_types).
  generalize resource_types (∅ : gmap string Tree). intros l.
  assert (∀ m : gmap string Tree, rt ∈ l ∨ m !! rt = Some empty_tree →
            foldl (λ m rt, <[rt := empty_tree]> m) m l !! rt = Some empty_tree) as H.
  { induction l as [|x l IH]; intros m [Hin|Hm]; simpl.
    - by apply elem_of_nil in Hin.
    - done.
    - apply IH. apply elem_of_cons in Hin as [->|Hin]; [right|by left].
      by rewrite lookup_insert_eq.
    - apply IH. right. destruct (decide (x = rt)) as [->|Hne].
      + by rewrite lookup_insert_eq.
      + by rewrite lookup_insert_ne. }
  intros m Hin. apply H. by left.
Qed.
Lemma update_touches_dataset_example :
  byResourceType
    (update_stats_single_record (normalised item_personal_creator) create_empty_stats).1
    !! "Text" = Some empty_tree.
Proof.
  apply (update_touches_own_resource_type (normalised item_personal_creator)
           create_empty_stats "Text" empty_tree).
  - apply create_empty_stats_resource_type. apply (bool_decide_unpack _). vm_compute. exact I.
  - vm_compute. discriminate.
Defined.

(** Folding records one after the other: the summary counts every record,
    and the count of a field does not depend on the order of the
    records. *)
Theorem field_counts_ignore_record_order (l l' : list (list (string * json))) (f : string) :
  l ≡ₚ l' →
  tree_count (summary (apply_records l create_empty_stats)) = Z.of_nat (length l) ∧
  field_count (summary (apply_records l create_empty_stats)) f
  = field_count (summary (apply_records l' create_empty_stats)) f.
Proof.
  intros Hp. split.
  - assert (∀ s, tree_count (summary (apply_records l s))
                 = tree_count (summary s) + Z.of_nat (length l)) as H.
    { clear. induction l as [|r l IH]; intros s; [simpl; lia|].
      change (apply_records (r :: l) s)
        with (apply_records l (update_stats_single_record r s).1).
      rewrite IH, summary_update, update_tree_count. cbn [length]. lia. }
    rewrite H. reflexivity.
  - rewrite !apply_records_count_sum. apply sum_Z_perm. by apply fmap_Permutation.
Qed.

Lemma field_counts_swap_example :
  field_count (summary (apply_records [normalised item_personal_creator;
                                       normalised item_without_creators]
                          create_empty_stats)) "creators"
  = field_count (summary (apply_records [normalised item_without_creators;
                                         normalised item_personal_creator]
                            create_empty_stats)) "creators".
Proof.
  apply (field_counts_ignore_record_order
           [normalised item_personal_creator; normalised item_without_creators]
           [normalised item_without_creators; normalised item_personal_creator]).
  apply perm_swap.
Defined.

(** ** Cleaning twice *)

Lemma round_half_even_nonneg (q : Q) : (0 <= q)%Q → (0 ≤ round_half_even q)%Z.
Proof.
  intros Hq. unfold round_half_even.
  assert (0 ≤ Qfloor q)%Z as Hf.
  { change 0%Z with (Qfloor 0). by apply Qfloor_resp_le. }
  cbv zeta. destruct (Qcompare _ _); [destruct (Z.even _)|..]; lia.
Qed.

Lemma round_half_even_le (q : Q) (n : Z) :
  (q <= inject_Z n)%Q → (round_half_even q ≤ n)%Z.
Proof.
  intros Hq. unfold round_half_even. cbv zeta.
  assert (Qfloor q ≤ n)%Z as Hf.
  { rewrite <- (Qfloor_Z n). by apply Qfloor_resp_le. }
  destruct (Z.eq_dec (Qfloor q) n) as [E|E].
  - assert (q - inject_Z (Qfloor q) <= 0)%Q as Hz.
    { rewrite E. apply (Qplus_le_l _ _ (inject_Z n)). ring_simplify. exact Hq. }
    assert (Qcompare (q - inject_Z (Qfloor q)) (1 # 2) = Lt) as ->; [|lia].
    apply Qlt_alt. eapply Qle_lt_trans; [exact Hz|reflexivity].
  - destruct (Qcompare _ _); [destruct (Z.even _)|..]; lia.
Qed.

Lemma unit_fraction_spec (q : Q) : unit_fraction q = true ↔ (0 <= q)%Q ∧ (q <= 1)%Q.
Proof. unfold unit_fraction. by rewrite andb_true_iff, !Qle_bool_iff. Qed.

Lemma binade_upper (a : Z) (b : positive) : (binade a b ≤ Z.log2 a - Z.log2 (Zpos b))%Z.
Proof. unfold binade. cbv zeta. destruct (if Z.leb 0 _ then _ else _); lia. Qed.

(** The double nearest to a fraction between 0 and 1 lies between 0 and 1. *)
Lemma nearest_double_fraction (q : Q) :
  (0 <= q)%Q → (q <= 1)%Q → (0 <= nearest_double q)%Q ∧ (nearest_double q <= 1)%Q.
Proof.
  intros H0 H1. unfold nearest_double.
  destruct (Z.eqb_spec (Qnum q) 0) as [Hz|Hz]; [done|]. cbv zeta.
  assert (0 < Qnum q ≤ Zpos (Qden q))%Z as Hnum.
  { unfold Qle in H0, H1. simpl in H0, H1. lia. }
  set (e := Z.max (binade (Z.abs (Qnum q)) (Qden q) - 52) (-1074)).
  assert (e ≤ 0)%Z as He.
  { pose proof (binade_upper (Z.abs (Qnum q)) (Qden q)) as Hb.
    pose proof (Z.log2_le_mono (Z.abs (Qnum q)) (Zpos (Qden q))) as Hl. lia. }
  set (p := (2 ^ (- e))%Z).
  assert (0 < p)%Z as Hp by (apply Z.pow_pos_nonneg; lia).
  assert (Qshift q (- e) = q * inject_Z p)%Q as Hs.
  { unfold Qshift. destruct (Z.leb_spec 0 (- e)); [done|lia]. }
  assert (0 <= q * inject_Z p)%Q as Hlo.
  { apply Qmult_le_0_compat; [done|]. unfold Qle. simpl. lia. }
  assert (q * inject_Z p <= inject_Z p)%Q as Hhi.
  { rewrite <- (Qmult_1_l (inject_Z p)) at 2. apply Qmult_le_compat_r; [done|].
    unfold Qle. simpl. lia. }
  rewrite Hs. set (m := round_half_even (q * inject_Z p)).
  assert (0 ≤ m ≤ p)%Z as Hm.
  { split; [by apply round_half_even_nonneg|by apply round_half_even_le]. }
  rewrite Qred_correct. unfold Qshift.
  destruct (Z.leb_spec 0 e) as [He0|He0].
  - assert (e = 0)%Z as E0 by lia. assert (p = 1)%Z as Ep by (unfold p; by rewrite E0).
    rewrite E0. change (2 ^ 0)%Z with 1%Z. unfold Qle. simpl. lia.
  - fold p. split.
    + apply Qle_shift_div_l; [unfold Qlt; simpl; lia|]. unfold Qle. simpl. lia.
    + apply Qle_shift_div_r; [unfold Qlt; simpl; lia|]. unfold Qle. simpl. lia.
Qed.

(** Rounding a fraction gives one of the 10001 decimals between 0 and 1. *)
Lemma py_round4_fraction (q : Q) :
  unit_fraction q = true →
  ∃ n, (0 ≤ n ≤ 10000)%Z ∧ py_round4 q = Qred (n # 10000).
Proof.
  intros [H0 H1]%unit_fraction_spec.
  destruct (nearest_double_fraction q H0 H1) as [D0 D1].
  exists (round_half_even (nearest_double q * inject_Z 10000)). split; [|done]. split.
  - apply round_half_even_nonneg. apply Qmult_le_0_compat; [done|]. by unfold Qle.
  - apply round_half_even_le. change (inject_Z 10000) with (1 * inject_Z 10000)%Q at 2.
    apply Qmult_le_compat_r; [done|]. by unfold Qle.
Qed.

(** Each of those decimals rounds to itself: the double nearest to it is
    closer to it than to any other multiple of 1/10000. *)
Lemma py_round4_decimal (n : Z) :
  (0 ≤ n ≤ 10000)%Z → py_round4 (Qred (n # 10000)) = Qred (n # 10000).
Proof.
  intros Hn.
  assert (forallb (λ k, Z.eqb (round_half_even
                                 (nearest_double (Qred (Z.of_nat k # 10000)) * inject_Z 10000))
                              (Z.of_nat k))
                  (seq 0 (Z.to_nat 10001)) = true) as Hall by (vm_compute; reflexivity).
  rewrite forallb_forall in Hall. specialize (Hall (Z.to_nat n)).
  rewrite Z2Nat.id in Hall by lia. unfold py_round4.
  rewrite (proj1 (Z.eqb_eq _ _) (Hall ltac:(apply in_seq; lia))). done.
Qed.

Lemma py_round4_idempotent (q : Q) :
  unit_fraction q = true → py_round4 (py_round4 q) = py_round4 q.
Proof.
  intros (n & Hn & ->)%py_round4_fraction. by apply py_round4_decimal.
Qed.

Lemma clean_values_idempotent (vm : gmap string Z) :
  clean_values (clean_values vm) = clean_values vm.
Proof.
  unfold clean_values. apply map_eq. intros k. apply option_eq. intros v.
  rewrite !map_lookup_filter_Some. tauto.
Qed.

Lemma clean_subfield_idempotent (x : SubfieldStats) :
  unit_fraction (sub_completeness x) = true →
  clean_subfield (clean_subfield x) = clean_subfield x.
Proof.
  intros Hx. unfold clean_subfield.
  cbn [sub_count sub_instances sub_missing sub_completeness values].
  rewrite py_round4_idempotent by done. f_equal.
  destruct (values x) as [vm|]; simpl; [|done]. by rewrite clean_values_idempotent.
Qed.

Lemma clean_field_idempotent (fs : FieldStats) :
  field_fractions fs = true → clean_field (clean_field fs) = clean_field fs.
Proof.
  intros [Hq Hsub]%andb_true_iff. unfold clean_field.
  cbn [count instances fieldStatus completeness missing subfields].
  rewrite py_round4_idempotent by done. f_equal.
  destruct (subfields fs) as [sm|]; simpl; [|done]. f_equal.
  apply bool_decide_eq_true_1 in Hsub.
  rewrite <- map_fmap_compose. apply map_fmap_ext. intros k x Hk. simpl.
  apply clean_subfield_idempotent. by apply (Hsub k).
Qed.

Lemma clean_tree_idempotent (t : Tree) :
  tree_fractions t = true → clean_tree (clean_tree t) = clean_tree t.
Proof.
  unfold tree_fractions. rewrite !andb_true_iff.
  intros [[[Hf H1] H2] H3]. apply bool_decide_eq_true_1 in Hf.
  unfold clean_tree. cbn [tree_count fields categories]. f_equal.
  - rewrite <- map_fmap_compose. apply map_fmap_ext. intros k fs Hk. simpl.
    apply clean_field_idempotent. by apply (Hf k).
  - unfold round_categories. cbn [mandatory recommended optional].
    by rewrite !py_round4_idempotent.
Qed.

(** Cleaning a cleaned object changes nothing, for every object whose
    completeness values lie between 0 and 1: the resource types without
    records and the zero value counters are already gone, and a float
    rounded to four places rounds to itself. *)
Theorem cleanup_idempotent (s : Stats) :
  stats_fractions s = true →
  remove_zero_count_resource_types_and_clean (remove_zero_count_resource_types_and_clean s)
  = remove_zero_count_resource_types_and_clean s.
Proof.
  intros [Hsum Hrt]%andb_true_iff. apply bool_decide_eq_true_1 in Hrt.
  unfold remove_zero_count_resource_types_and_clean. cbn [summary byResourceType].
  f_equal; [by apply clean_tree_idempotent|].
  apply map_eq. intros rt. rewrite !lookup_fmap.
  destruct (filter _ (byResourceType s) !! rt) as [t|] eqn:E.
  - apply map_lookup_filter_Some in E as [E1 E2]. simpl in E2.
    assert (filter (λ kv : string * Tree, 0 < tree_count kv.2)
              (clean_tree <$> filter (λ kv : string * Tree, 0 < tree_count kv.2)
                                (byResourceType s)) !! rt = Some (clean_tree t)) as ->.
    { apply map_lookup_filter_Some. split; [|done]. rewrite lookup_fmap.
      assert (filter (λ kv : string * Tree, 0 < tree_count kv.2) (byResourceType s) !! rt
              = Some t) as -> by (by apply map_lookup_filter_Some).
      done. }
    simpl. rewrite clean_tree_idempotent; [done|]. by apply (Hrt rt).
  - assert (filter (λ kv : string * Tree, 0 < tree_count kv.2)
              (clean_tree <$> filter (λ kv : string * Tree, 0 < tree_count kv.2)
                                (byResourceType s)) !! rt = None) as ->; [|done].
    apply map_lookup_filter_None. left. by rewrite lookup_fmap, E.
Qed.

(** The object of two records, one with a creator and one without: its
    completeness values are fractions, and cleaning it twice is cleaning it
    once. *)
Lemma cleanup_idempotent_example :
  let s := apply_records [normalised item_personal_creator; normalised item_without_creators]
             create_empty_stats in
  remove_zero_count_resource_types_and_clean (remove_zero_count_resource_types_and_clean s)
  = remove_zero_count_resource_types_and_clean s.
Proof.
  intros s. apply (cleanup_idempotent s). vm_compute. reflexivity.
Defined.

(** ** Counts and fractions stay within bounds *)

Lemma ratio_fraction (a b : Z) : (0 ≤ a ≤ b)%Z → unit_interval (ratio a b).
Proof.
  intros Hab. unfold ratio, unit_interval.
  destruct (Z.ltb_spec 0 b) as [Hb|Hb]; [|done].
  unfold py_truediv. rewrite Qred_correct. unfold Qle. simpl.
  rewrite Z2Pos.id by done. lia.
Qed.

Lemma sum_counts_bounded (total : Z) (l : list FieldStats) :
  (∀ fs, fs ∈ l → (0 ≤ count fs ≤ total)%Z) →
  (0 ≤ sum_Z (count <$> l) ≤ total * Z.of_nat (length l))%Z.
Proof.
  induction l as [|fs l IH]; intros H; [simpl; lia|].
  rewrite fmap_cons. cbn [sum_Z foldr length]. fold (sum_Z (count <$> l)).
  pose proof (H fs (list_elem_of_here _ _)).
  pose proof (IH (λ x Hx, H x (list_elem_of_further _ _ _ Hx))). nia.
Qed.

Lemma class_completeness_fraction (status : string) (fields : gmap string FieldStats)
    (total : Z) :
  (∀ f fs, fields !! f = Some fs → (0 ≤ count fs ≤ total)%Z) →
  unit_interval (class_completeness status fields total).
Proof.
  intros H. unfold class_completeness. cbv zeta.
  destruct (Z.ltb_spec 0 (total * Z.of_nat (length (class_members status fields))))
    as [Hd|Hd]; [|done].
  pose proof (sum_counts_bounded total (class_members status fields)) as Hs.
  assert (unit_interval (ratio (sum_Z (count <$> class_members status fields))
                           (total * Z.of_nat (length (class_members status fields))))) as Hr.
  { apply ratio_fraction, Hs. intros fs Hfs. unfold class_members in Hfs.
    apply list_elem_of_filter in Hfs as [_ Hfs].
    apply list_elem_of_fmap in Hfs as ([k fs'] & -> & Hk).
    apply elem_of_map_to_list in Hk. by apply (H k). }
  unfold ratio in Hr. by rewrite (proj2 (Z.ltb_lt _ _) Hd) in Hr.
Qed.

Lemma status_classes_members :
  "mandatory" ∈ status_classes ∧ "recommended" ∈ status_classes ∧ "optional" ∈ status_classes.
Proof. repeat split; apply (bool_decide_unpack _); by vm_compute. Qed.

Lemma categories_fraction (fields : gmap string FieldStats) (total : Z) :
  (∀ f fs, fields !! f = Some fs → (0 ≤ count fs ≤ total)%Z) →
  categories_bounded (calculate_category_metrics fields total).
Proof.
  intros H. unfold calculate_category_metrics, categories_bounded.
  cbn [mandatory recommended optional].
  pose proof (category_of_class "mandatory" fields total) as E1.
  pose proof (category_of_class "recommended" fields total) as E2.
  pose proof (category_of_class "optional" fields total) as E3.
  unfold acc_for in E1, E2, E3. simpl in E1, E2, E3.
  destruct status_classes_members as (M1 & M2 & M3).
  rewrite E1, E2, E3 by done.
  repeat split; by apply class_completeness_fraction.
Qed.

(** The completeness that [calculate_category_metrics] reports for each of
    the three classes is a fraction between 0 and 1 as soon as no field is
    counted more often than there are records, and it is 0 for every class
    when the record count is not positive. *)
Theorem category_completeness_is_fraction (fields : gmap string FieldStats) (total : Z) :
  let c := calculate_category_metrics fields total in
  ((∀ f fs, fields !! f = Some fs → (0 ≤ count fs ≤ total)%Z) → categories_bounded c) ∧
  ((total ≤ 0)%Z → c = zero_categories).
Proof.
  intros c. split; [apply categories_fraction|].
  intros Ht. unfold c, calculate_category_metrics, zero_categories.
  assert (∀ a, acc_completeness (acc_set_total total a) = acc_completeness a ∨
               acc_completeness (acc_set_total total a) = 0%Q) as Hz.
  { intros a. unfold acc_set_total, acc_completeness.
    destruct (Z.ltb_spec 0 (acc_num_fields a)) as [Hn|Hn]; [|by left]. right.
    cbn [acc_count acc_total]. unfold ratio.
    destruct (Z.ltb_spec 0 (total * acc_num_fields a)); [nia|done]. }
  assert (∀ status, status ∈ status_classes →
            acc_completeness (acc_set_total total (acc_for status (category_accumulate fields)))
            = 0%Q) as H0.
  { intros status Hs. rewrite category_of_class by done. unfold class_completeness. cbv zeta.
    destruct (Z.ltb_spec 0 (total * Z.of_nat (length (class_members status fields))));
      [nia|done]. }
  pose proof (H0 "mandatory") as E1. pose proof (H0 "recommended") as E2.
  pose proof (H0 "optional") as E3. unfold acc_for in E1, E2, E3. simpl in E1, E2, E3.
  destruct status_classes_members as (M1 & M2 & M3).
  rewrite E1, E2, E3 by done. done.
Qed.

Lemma category_fraction_example :
  categories_bounded (calculate_category_metrics two_field_class 2).
Proof.
  apply (category_completeness_is_fraction two_field_class 2).
  intros f fs Hf.
  destruct (decide (f = "A")) as [->|Ha].
  { vm_compute in Hf. injection Hf as <-. simpl. lia. }
  unfold two_field_class in Hf. rewrite lookup_insert_ne in Hf by done.
  destruct (decide (f = "B")) as [->|Hb].
  { vm_compute in Hf. injection Hf as <-. simpl. lia. }
  rewrite lookup_insert_ne in Hf by done. by rewrite lookup_empty in Hf.
Defined.

Section FieldAspect.
Context {A : Type} (π : FieldStats → A).
Hypothesis π_set_subfields : ∀ fs sm, π (set_subfields fs sm) = π fs.
Hypothesis π_add_instances : ∀ n fs, π (add_instances n fs) = π fs.

Global Instance same_aspect_preorder : PreOrder (same_aspect π).
Proof.
  split.
  - by intros fs.
  - intros a b c H1 H2. unfold same_aspect in *. congruence.
Qed.

Global Instance same_aspect_seen_preorder : PreOrder (same_aspect_seen π).
Proof.
  split.
  - by intros st.
  - intros a b c H1 H2. unfold same_aspect_seen in *. congruence.
Qed.

Lemma with_sub_aspect (sf : string) (g : SubfieldStats → SubfieldStats) :
  preserves (same_aspect π) (with_sub sf g).
Proof.
  intros fs. unfold with_sub.
  destruct (subfields fs) as [sm|]; [|reflexivity].
  destruct (sm !! sf) as [x|]; [|reflexivity]. simpl. apply π_set_subfields.
Qed.

Lemma incr_value_aspect (sf : string) (v : json) :
  preserves (same_aspect π) (incr_value sf v).
Proof.
  intros fs. unfold incr_value.
  destruct (subfields fs) as [sm|]; [|reflexivity].
  destruct (sm !! sf) as [x|]; [|reflexivity].
  destruct (values x) as [vm|]; [|reflexivity].
  destruct v as [| | |k| |]; try reflexivity.
  destruct (vm !! k) as [n|]; [|reflexivity]. simpl. apply π_set_subfields.
Qed.

Lemma on_stats_aspect {B : Type} (m : M FieldStats B) :
  preserves (same_aspect π) m → preserves (same_aspect_seen π) (on_stats m).
Proof.
  intros Hm [fs seen]. unfold on_stats, same_aspect_seen; simpl.
  specialize (Hm fs). destruct (m fs) as [fs' o]. done.
Qed.

Lemma with_seen_aspect {B : Type} (m : M (FieldStats * gset string) B) :
  preserves (same_aspect_seen π) m → preserves (same_aspect π) (with_seen m).
Proof.
  intros Hm fs. unfold with_seen. specialize (Hm (fs, ∅)).
  destruct (m (fs, ∅)) as [st' o]. done.
Qed.

Lemma count_once_aspect (sf : string) : preserves (same_aspect_seen π) (count_once sf).
Proof.
  unfold count_once. repeat preserves_step.
  - apply on_stats_aspect, with_sub_aspect.
  - apply (preserves_modify (same_aspect_seen π)). by intros s.
Qed.

Lemma update_item_subfield_aspect (field_name : string)
    (field_config : list (string * config)) (item : json) (entry : string * config) :
  preserves (same_aspect_seen π) (update_item_subfield field_name field_config item entry).
Proof.
  destruct entry as [subfield expected_values]. unfold update_item_subfield.
  repeat (case_match;
          repeat first [ preserves_step | apply on_stats_aspect | apply count_once_aspect
                       | apply incr_value_aspect | apply with_sub_aspect ]).
Qed.

Lemma recompute_subfield_aspect (total_dois : Z) (entry : string * config) :
  preserves (same_aspect π) (recompute_subfield total_dois entry).
Proof.
  unfold recompute_subfield.
  repeat (case_match; repeat first [ preserves_step | apply with_sub_aspect ]).
Qed.

Lemma update_single_subfield_aspect (total_dois : Z) (field_value : json)
    (entry : string * config) :
  preserves (same_aspect π) (update_single_subfield total_dois field_value entry).
Proof.
  destruct entry as [subfield expected_values]. unfold update_single_subfield.
  repeat (case_match;
          repeat first [ preserves_step | apply incr_value_aspect | apply with_sub_aspect ]).
Qed.

Lemma update_subfield_stats_aspect (field_value : json) (field_name : string)
    (total_dois : Z) :
  preserves (same_aspect π) (update_subfield_stats field_value field_name total_dois).
Proof.
  unfold update_subfield_stats.
  repeat (case_match;
          repeat first [ preserves_step | apply with_seen_aspect
                       | apply (preserves_modify (same_aspect π)); intros ?;
                         apply π_add_instances ]);
    auto using update_item_subfield_aspect, recompute_subfield_aspect,
      update_single_subfield_aspect.
Qed.
End FieldAspect.

Lemma update_field_stats_completeness (v : json) (f : string) (fs : FieldStats) :
  completeness (update_field_stats v f fs) = completeness fs.
Proof.
  unfold update_field_stats.
  destruct (negb (truthy v)); [done|].
  destruct v; repeat case_match; done.
Qed.

Lemma field_update_bounded (v : json) (f : string) (total : Z) (fs : FieldStats) :
  (0 ≤ count fs ≤ total - 1)%Z → unit_interval (completeness fs) →
  field_bounded total
    ((modify (update_field_stats v f) ;;;
      when (has_subfields f && truthy v) (update_subfield_stats v f total) ;;;
      modify (recompute_field total)) fs).1.
Proof.
  intros Hc Hq. rewrite field_computation_run.
  destruct (update_field_stats_effect v f fs) as (_ & _ & _ & Hcount).
  pose proof (update_field_stats_completeness v f fs) as Hcomp.
  set (fs1 := update_field_stats v f fs) in *.
  assert (preserves same_field
            (when (has_subfields f && truthy v) (update_subfield_stats v f total))) as Hp.
  { apply (preserves_when same_field), update_subfield_stats_same_field. }
  assert (preserves (same_aspect completeness)
            (when (has_subfields f && truthy v) (update_subfield_stats v f total))) as Hp'.
  { apply (preserves_when _). by apply update_subfield_stats_aspect. }
  specialize (Hp fs1). specialize (Hp' fs1). unfold same_aspect in Hp'.
  destruct (when _ _ fs1) as [fs2 [[]|e]]; cbn [fst] in *;
    destruct Hp as (_ & Hp & _).
  - split; cbn [count completeness recompute_field].
    + rewrite Hp, Hcount. destruct (truthy v); lia.
    + apply ratio_fraction. rewrite Hp, Hcount. destruct (truthy v); lia.
  - split.
    + rewrite Hp, Hcount. destruct (truthy v); lia.
    + by rewrite Hp', Hcomp.
Qed.

Lemma bounds_loop_step (record : list (string * json)) (total : Z) (c0 : Categories)
    (x : string * string) (todo : list (string * string)) (t : Tree) :
  bounds_loop_inv total c0 (x :: todo) t →
  match update_tree_field record total x t with
  | (t', Ok _) => bounds_loop_inv total c0 todo t'
  | (t', Raise _) => bounds_loop_inv total c0 [] t'
  end.
Proof.
  intros (Hc & Hcat & Hnd & Hall). destruct x as [f st].
  rewrite fmap_cons in Hnd. apply NoDup_cons in Hnd as [Hf Hnd]. simpl in Hf.
  assert (bounds_loop_inv total c0 [] t) as Hend.
  { split; [done|]. split; [done|]. split; [constructor|].
    intros g gs Hg. split; [by apply (Hall g gs)|]. by intros ?%elem_of_nil. }
  unfold update_tree_field. cbn [fst].
  destruct (fields t !! f) as [fs|] eqn:Hfs; [|unfold on_field; by rewrite Hfs].
  rewrite (on_field_run _ _ t fs) by done.
  destruct (Hall f fs Hfs) as [[Hcnt Hq] Hle].
  pose proof (field_update_bounded (record_get record f) f total fs) as Hb.
  destruct ((modify (update_field_stats (record_get record f) f) ;;; _) fs) as [fs' o].
  cbn [fst] in Hb.
  assert (field_bounded total fs') as Hfs'.
  { apply Hb; [|done]. split; [lia|]. apply Hle. rewrite fmap_cons. apply list_elem_of_here. }
  assert (∀ l, NoDup (l.*1) → f ∉ l.*1 → (∀ g, g ∈ l.*1 → g ∈ (((f, st) :: todo).*1)) →
            bounds_loop_inv total c0 l
              {| tree_count := tree_count t; fields := <[f := fs']> (fields t);
                 categories := categories t |}) as Hnew.
  { intros l Hl Hfl Hsub. split; [done|]. split; [done|]. split; [done|].
    cbn [fields]. intros g gs Hg. destruct (decide (f = g)) as [<-|Hne].
    - rewrite lookup_insert_eq in Hg. injection Hg as <-. split; [done|]. by intros ?.
    - rewrite lookup_insert_ne in Hg by done. destruct (Hall g gs Hg) as [Hgb Hgl].
      split; [done|]. intros Hin. apply Hgl. by apply Hsub. }
  destruct o as [[]|e]; cbn [fst snd].
  - apply Hnew; [done|done|]. intros g Hg. rewrite fmap_cons. by apply list_elem_of_further.
  - apply Hnew; [constructor|by intros ?%elem_of_nil|by intros g ?%elem_of_nil].
Qed.

Lemma update_tree_bounded (record : list (string * json)) (t : Tree) :
  tree_bounded t → tree_bounded (update_tree record t).1.
Proof.
  intros [Hall Hcat]. rewrite update_tree_run. cbv zeta.
  assert (bounds_loop_inv (tree_count t + 1) (categories t) []
            (for_each FIELD_STATUS
               (update_tree_field record (tree_count (incr_tree_count t)))
               (incr_tree_count t)).1) as (Hc & Hcat' & _ & Hall').
  { apply (for_each_inv (bounds_loop_inv (tree_count t + 1) (categories t))
                        (bounds_loop_inv (tree_count t + 1) (categories t) [])).
    - done.
    - intros x r s HJ. by apply bounds_loop_step.
    - split; [done|]. split; [done|]. split; [apply NoDup_FIELD_STATUS|].
      cbn [fields incr_tree_count]. intros f fs Hf.
      destruct (Hall f fs Hf) as [Hb Hq]. split; [split; [lia|done]|]. intros _. lia. }
  destruct (for_each _ _ _) as [t' [[]|e]]; cbn [fst] in *.
  - split.
    + cbn [fields tree_count refresh_categories]. rewrite Hc. intros f fs Hf.
      by apply (Hall' f fs).
    + cbn [categories refresh_categories]. apply categories_fraction. intros f fs Hf.
      rewrite Hc. by destruct (Hall' f fs Hf) as [[? _] _].
  - split.
    + rewrite Hc. intros f fs Hf. by apply (Hall' f fs).
    + by rewrite Hcat'.
Qed.

Lemma merge_tree_bounded (t1 t2 : Tree) :
  tree_inv t1 → tree_inv t2 → tree_bounded t1 → tree_bounded t2 →
  tree_bounded (merge_tree t1 t2).
Proof.
  intros H1 H2 [B1 _] [B2 _].
  assert (∀ f fm, fields (merge_tree t1 t2) !! f = Some fm →
            (0 ≤ count fm ≤ tree_count t1 + tree_count t2)%Z ∧
            completeness fm = ratio (count fm) (tree_count t1 + tree_count t2)) as Hm.
  { intros f fm Hf. rewrite merge_tree_fields in Hf by done. rewrite lookup_merge in Hf.
    apply merge_field_Some in Hf as (_ & Hc & _ & _ & Hq & _). split; [|done].
    destruct H1 as (P1 & _), H2 as (P2 & _). rewrite Hc.
    pose proof (B1 f) as Q1. pose proof (B2 f) as Q2.
    destruct (fields t1 !! f) as [a|], (fields t2 !! f) as [b|]; simpl;
      try (destruct (Q1 a eq_refl) as [? _]); try (destruct (Q2 b eq_refl) as [? _]); lia. }
  split.
  - intros f fm Hf. destruct (Hm f fm Hf) as [Hb Hq]. split; [done|].
    rewrite Hq. by apply ratio_fraction.
  - unfold merge_tree at 1. cbn [categories]. apply categories_fraction.
    intros f fm Hf. by destruct (Hm f fm Hf).
Qed.

Lemma empty_fields_lookup (f : string) (fs : FieldStats) :
  empty_fields !! f = Some fs →
  ∃ st, (f, st) ∈ FIELD_STATUS ∧ fs = create_empty_field_stats f st.
Proof.
  unfold empty_fields.
  assert (∀ l (m : gmap string FieldStats),
            foldl (λ m '(field_name, field_status),
                     <[field_name := create_empty_field_stats field_name field_status]> m)
                  m l !! f = Some fs →
            m !! f = Some fs ∨ ∃ st, (f, st) ∈ l ∧ fs = create_empty_field_stats f st) as H.
  { induction l as [|[g sg] l IH]; intros m Hm; simpl in Hm; [by left|].
    apply IH in Hm as [Hm|(st & Hin & ->)].
    - destruct (decide (g = f)) as [->|Hne].
      + rewrite lookup_insert_eq in Hm. injection Hm as <-. right. exists sg.
        split; [apply list_elem_of_here|done].
      + rewrite lookup_insert_ne in Hm by done. by left.
    - right. exists st. split; [by apply list_elem_of_further|done]. }
  intros Hf. apply H in Hf as [Hf|Hf]; [by rewrite lookup_empty in Hf|done].
Qed.

Lemma empty_tree_bounded : tree_bounded empty_tree.
Proof.
  split.
  - intros f fs (st & _ & ->)%empty_fields_lookup. by repeat split.
  - by repeat split.
Qed.

Lemma create_empty_stats_trees (rt : string) (t : Tree) :
  byResourceType create_empty_stats !! rt = Some t → t = empty_tree.
Proof.
  change (byResourceType create_empty_stats)
    with (foldl (λ m rt, <[rt := empty_tree]> m) (∅ : gmap string Tree) resource_types).
  assert (∀ l (m : gmap string Tree),
            foldl (λ m rt, <[rt := empty_tree]> m) m l !! rt = Some t →
            m !! rt = Some t ∨ t = empty_tree) as H.
  { induction l as [|x l IH]; intros m Hm; simpl in Hm; [by left|].
    apply IH in Hm as [Hm|Hm]; [|by right].
    destruct (decide (x = rt)) as [->|Hne].
    - rewrite lookup_insert_eq in Hm. injection Hm as <-. by right.
    - rewrite lookup_insert_ne in Hm by done. by left. }
  intros Hm. apply H in Hm as [Hm|Hm]; [by rewrite lookup_empty in Hm|done].
Qed.

Lemma built_bounded (s : Stats) : built s → stats_bounded s.
Proof.
  induction 1 as [|r s Hs IH|a b Ha IHa Hb IHb].
  - split; [apply empty_tree_bounded|]. intros rt t ->%create_empty_stats_trees.
    apply empty_tree_bounded.
  - destruct IH as [IH1 IH2]. split.
    + rewrite summary_update. by apply update_tree_bounded.
    + destruct (byResourceType_update r s) as [->|(rt & t & Ht & ->)]; [done|].
      apply map_Forall_insert_2; [|done]. apply update_tree_bounded. by apply (IH2 rt).
  - destruct IHa as [A1 A2], IHb as [B1 B2].
    destruct (built_inv a Ha) as (Ia & Hda & Hra), (built_inv b Hb) as (Ib & Hdb & Hrb).
    split.
    + by apply (merge_tree_bounded (summary a) (summary b)).
    + unfold merge_stats; cbn [byResourceType]. intros rt tm Hm. rewrite lookup_merge in Hm.
      destruct (byResourceType a !! rt) as [t1|] eqn:E1,
               (byResourceType b !! rt) as [t2|] eqn:E2; simpl in Hm; simplify_eq.
      * apply (merge_tree_bounded t1 t2);
          [by apply (Hra rt)|by apply (Hrb rt)|by apply (A2 rt)|by apply (B2 rt)].
      * assert (rt ∈ dom (byResourceType b)) as Hin
          by (rewrite Hdb, <- Hda; apply elem_of_dom; by eexists).
        apply elem_of_dom in Hin. rewrite E2 in Hin. by destruct Hin.
      * assert (rt ∈ dom (byResourceType a)) as Hin
          by (rewrite Hda, <- Hdb; apply elem_of_dom; by eexists).
        apply elem_of_dom in Hin. rewrite E1 in Hin. by destruct Hin.
Qed.

(** In every tree of an object built from the schema, by record updates
    that complete or are interrupted and by merges, no field is counted
    more often than the tree has counted records, and every completeness,
    of a field or of a category, recomputed or left stale, is a fraction
    between 0 and 1. *)
Theorem built_numbers_within_bounds (s : Stats) (t : Tree) :
  built s → tree_in s t →
  (0 ≤ tree_count t)%Z ∧
  (∀ f fs, fields t !! f = Some fs →
     (0 ≤ count fs ≤ tree_count t)%Z ∧ unit_interval (completeness fs)) ∧
  categories_bounded (categories t).
Proof.
  intros Hs Ht. destruct (built_bounded s Hs) as [B1 B2].
  destruct (built_inv s Hs) as (I1 & _ & I2).
  destruct Ht as [->|[rt Ht]].
  - destruct B1 as [Hf Hc]. destruct I1 as [Hpos _]. done.
  - destruct (B2 rt t Ht) as [Hf Hc]. destruct (I2 rt t Ht) as [Hpos _]. done.
Qed.

Lemma built_bounds_example :
  categories_bounded
    (categories (summary (update_stats_single_record (normalised item_unknown_nameType)
                            create_empty_stats).1)).
Proof.
  apply (built_numbers_within_bounds
           (update_stats_single_record (normalised item_unknown_nameType)
              create_empty_stats).1).
  - apply built_update, built_empty.
  - by left.
Defined.

(** ** The factory *)

Lemma zero_values_lookup (l : list string) (v : string) (n : Z) :
  zero_values l !! v = Some n → n = 0 ∧ v ∈ l.
Proof.
  unfold zero_values.
  assert (∀ m : gmap string Z,
            foldl (λ m v, <[v := 0]> m) m l !! v = Some n →
            m !! v = Some n ∨ (n = 0 ∧ v ∈ l)) as H.
  { induction l as [|x l IH]; intros m Hm; simpl in Hm; [by left|].
    apply IH in Hm as [Hm|[-> Hin]]; [|right; split; [done|by apply list_elem_of_further]].
    destruct (decide (x = v)) as [->|Hne].
    - rewrite lookup_insert_eq in Hm. injection Hm as <-. right.
      split; [done|apply list_elem_of_here].
    - rewrite lookup_insert_ne in Hm by done. by left. }
  intros Hm. apply H in Hm as [Hm|Hm]; [by rewrite lookup_empty in Hm|done].
Qed.

Lemma zero_values_elem (l : list string) (v : string) : v ∈ l → zero_values l !! v = Some 0.
Proof.
  unfold zero_values.
  assert (∀ m : gmap string Z, v ∈ l ∨ m !! v = Some 0 →
            foldl (λ m v, <[v := 0]> m) m l !! v = Some 0) as H.
  { induction l as [|x l IH]; intros m [Hin|Hm]; simpl.
    - by apply elem_of_nil in Hin.
    - done.
    - apply IH. apply elem_of_cons in Hin as [->|Hin]; [right|by left].
      by rewrite lookup_insert_eq.
    - apply IH. right. destruct (decide (x = v)) as [->|Hne].
      + by rewrite lookup_insert_eq.
      + by rewrite lookup_insert_ne. }
  intros Hin. apply H. by left.
Qed.

Lemma create_empty_subfield_cases (cfg : list (string * config))
    (acc : gmap string SubfieldStats) (k : string) (c : config) :
  create_empty_subfield cfg acc (k, c) = acc ∨
  k ≠ "multiple" ∧
  ∃ vs, create_empty_subfield cfg acc (k, c) = <[k := empty_subfield vs]> acc ∧
        (vs = None ∨ ∃ l, vs = Some (zero_values l)).
Proof.
  unfold create_empty_subfield.
  destruct (String.eqb_spec k "multiple") as [->|Hk]; [by left|].
  destruct c as [b|vs|scheme]; [by left| |].
  - right. split; [done|]. eexists. split; [done|]. right. by eexists.
  - right. split; [done|]. destruct scheme; [|eexists; split; [done|by left]].
    destruct (assoc (k ++ "Scheme") cfg) as [[b|vs|d]|];
      eexists; (split; [done|]); first [by left | right; by eexists].
Qed.

Lemma empty_subfields_lookup (cfg l : list (string * config))
    (acc : gmap string SubfieldStats) (sf : string) (x : SubfieldStats) :
  foldl (create_empty_subfield cfg) acc l !! sf = Some x →
  acc !! sf = Some x ∨
  (sf ≠ "multiple" ∧ (sf ∈ (l.*1)) ∧
   sub_count x = 0 ∧ sub_instances x = 0 ∧ sub_missing x = 0 ∧
   ∀ vm v n, values x = Some vm → vm !! v = Some n → n = 0).
Proof.
  revert acc. induction l as [|[k c] l IH]; intros acc Hx; cbn [foldl] in Hx; [by left|].
  apply IH in Hx as [Hx|(H1 & H2 & H3)].
  2:{ right. split; [done|]. split; [|done]. rewrite fmap_cons. by apply list_elem_of_further. }
  destruct (create_empty_subfield_cases cfg acc k c) as [E|(Hk & vs & E & Hvs)];
    rewrite E in Hx; [by left|].
  destruct (decide (k = sf)) as [->|Hne]; [|rewrite lookup_insert_ne in Hx by done; by left].
  rewrite lookup_insert_eq in Hx. injection Hx as <-. right.
  split; [done|]. split; [rewrite fmap_cons; apply list_elem_of_here|].
  repeat split. cbn [values empty_subfield]. intros vm v n Hvm Hv.
  destruct Hvs as [->|[l' ->]]; [done|]. injection Hvm as <-.
  by apply zero_values_lookup in Hv as [-> _].
Qed.

Lemma empty_subfields_skip (cfg l : list (string * config))
    (acc : gmap string SubfieldStats) (sf : string) :
  sf ∉ l.*1 → foldl (create_empty_subfield cfg) acc l !! sf = acc !! sf.
Proof.
  revert acc. induction l as [|[k c] l IH]; intros acc Hsf; cbn [foldl]; [done|].
  rewrite fmap_cons in Hsf. apply not_elem_of_cons in Hsf as [Hne Hsf]. simpl in Hne.
  rewrite IH by done.
  destruct (create_empty_subfield_cases cfg acc k c) as [->|(_ & vs & -> & _)]; [done|].
  by rewrite lookup_insert_ne.
Qed.

Lemma empty_subfields_enumerated (cfg l : list (string * config))
    (acc : gmap string SubfieldStats) (sf : string) (vs : list string) :
  NoDup (l.*1) → (sf, CSet vs) ∈ l → sf ≠ "multiple" →
  foldl (create_empty_subfield cfg) acc l !! sf = Some (empty_subfield (Some (zero_values vs))).
Proof.
  intros Hnd Hin Hm. revert acc. induction l as [|[k c] l IH]; intros acc.
  { by apply elem_of_nil in Hin. }
  rewrite fmap_cons in Hnd. apply NoDup_cons in Hnd as [Hk Hnd]. simpl in Hk.
  apply elem_of_cons in Hin as [Heq|Hin]; cbn [foldl].
  - injection Heq as <- <-. rewrite empty_subfields_skip by done.
    unfold create_empty_subfield. rewrite (proj2 (String.eqb_neq sf "multiple") Hm).
    by rewrite lookup_insert_eq.
  - by apply IH.
Qed.

(** [create_empty_field_stats] counts nothing: the field and every
    subfield start at zero, there is a subfield dictionary exactly for the
    fields of [SUBFIELD_STATS], it has no entry for ['multiple'], every
    value counter it holds is zero, and every permitted value of an
    enumerated subfield is there from the start. *)
Theorem factory_counts_nothing (field_name field_status : string) :
  let fs := create_empty_field_stats field_name field_status in
  count fs = 0 ∧ instances fs = 0 ∧ missing fs = 0 ∧ fieldStatus fs = field_status ∧
  (is_Some (subfields fs) ↔ has_subfields field_name = true) ∧
  (∀ sm sf x, subfields fs = Some sm → sm !! sf = Some x →
     sf ≠ "multiple" ∧ sub_count x = 0 ∧ sub_instances x = 0 ∧ sub_missing x = 0 ∧
     ∀ vm v n, values x = Some vm → vm !! v = Some n → n = 0) ∧
  (∀ cfg sf vs v, assoc field_name SUBFIELD_STATS = Some cfg →
     (sf, CSet vs) ∈ cfg → sf ≠ "multiple" → v ∈ vs →
     ∃ sm x vm, subfields fs = Some sm ∧ sm !! sf = Some x ∧
                values x = Some vm ∧ vm !! v = Some 0).
Proof.
  intros fs. unfold fs, create_empty_field_stats, has_subfields.
  cbn [count instances missing fieldStatus subfields].
  repeat split; try done.
  - intros [sm Hsm]. by destruct (assoc field_name SUBFIELD_STATS).
  - intros H. destruct (assoc field_name SUBFIELD_STATS); [by eexists|done].
  - destruct (assoc field_name SUBFIELD_STATS) as [cfg|]; [|done].
    injection H as <-.
    apply empty_subfields_lookup in H0 as [H0|(H1 & _)]; [by rewrite lookup_empty in H0|done].
  - destruct (assoc field_name SUBFIELD_STATS) as [cfg|]; [|done]. injection H as <-.
    apply empty_subfields_lookup in H0 as [H0|(_ & _ & H1 & _)];
      [by rewrite lookup_empty in H0|done].
  - destruct (assoc field_name SUBFIELD_STATS) as [cfg|]; [|done]. injection H as <-.
    apply empty_subfields_lookup in H0 as [H0|(_ & _ & _ & H1 & _)];
      [by rewrite lookup_empty in H0|done].
  - destruct (assoc field_name SUBFIELD_STATS) as [cfg|]; [|done]. injection H as <-.
    apply empty_subfields_lookup in H0 as [H0|(_ & _ & _ & _ & H1 & _)];
      [by rewrite lookup_empty in H0|done].
  - intros vm v n Hvm Hv.
    destruct (assoc field_name SUBFIELD_STATS) as [cfg|]; [|done]. injection H as <-.
    apply empty_subfields_lookup in H0 as [H0|(_ & _ & _ & _ & _ & H1)];
      [by rewrite lookup_empty in H0|]. by apply (H1 vm v n).
  - intros cfg sf vs v Hcfg Hin Hm Hv. rewrite Hcfg.
    destruct (SUBFIELD_STATS_keys _ _ Hcfg) as [Hnd _].
    eexists _, _, _. split; [done|]. split; [by apply empty_subfields_enumerated|].
    split; [done|]. by apply zero_values_elem.
Qed.

Lemma factory_example :
  ∃ sm x vm,
    subfields (create_empty_field_stats "creators" "mandatory") = Some sm ∧
    sm !! "nameType" = Some x ∧ values x = Some vm ∧ vm !! "Personal" = Some 0.
Proof.
  apply (factory_counts_nothing "creators" "mandatory")
    with (cfg := default [] (assoc "creators" SUBFIELD_STATS))
         (vs := ["Personal"; "Organizational"]).
  - reflexivity.
  - apply (list_elem_of_lookup_2 _ 1%nat). reflexivity.
  - discriminate.
  - apply list_elem_of_here.
Defined.

Lemma foldl_insert_assoc {B V : Type} (g : string → B → V) (l : list (string * B))
    (m : gmap string V) (f : string) :
  NoDup (l.*1) →
  foldl (λ m '(k, b), <[k := g k b]> m) m l !! f
  = match assoc f l with Some b => Some (g f b) | None => m !! f end.
Proof.
  revert m. induction l as [|[k b] l IH]; intros m Hnd; [done|].
  rewrite fmap_cons in Hnd. apply NoDup_cons in Hnd as [Hk Hnd]. simpl in Hk.
  cbn [foldl assoc]. rewrite IH by done.
  destruct (String.eqb_spec f k) as [->|Hne].
  - assert (assoc k l = None) as ->.
    { destruct (assoc k l) as [b'|] eqn:E; [|done].
      apply assoc_elem_of in E. destruct Hk. apply list_elem_of_fmap. by exists (k, b'). }
    by rewrite lookup_insert_eq.
  - destruct (assoc f l); [done|]. by rewrite lookup_insert_ne.
Qed.

(** The object of [create_empty_stats]: the summary and the tree of every
    resource type are one and the same empty tree, which has a record count
    of zero and exactly the fields of [FIELD_STATUS], each as
    [create_empty_field_stats] makes it; the resource types are those of
    the [resourceTypeGeneral] enumeration. *)
Theorem empty_stats_shape (f rt : string) :
  (∀ t, tree_in create_empty_stats t → t = empty_tree) ∧
  tree_count empty_tree = 0 ∧ categories empty_tree = zero_categories ∧
  fields empty_tree !! f
  = (create_empty_field_stats f <$> assoc f FIELD_STATUS) ∧
  (is_Some (byResourceType create_empty_stats !! rt) ↔ rt ∈ resource_types).
Proof.
  split; [|split; [done|split; [done|split]]].
  - intros t [->|[k Hk]]; [done|]. by apply create_empty_stats_trees in Hk.
  - cbn [fields empty_tree]. unfold empty_fields.
    rewrite (foldl_insert_assoc create_empty_field_stats) by apply NoDup_FIELD_STATUS.
    by destruct (assoc f FIELD_STATUS).
  - destruct create_empty_stats_inv as (_ & Hdom & _).
    rewrite <- elem_of_dom, Hdom. apply elem_of_list_to_set.
Qed.

(** ** Merging with the empty object *)

Lemma empty_tree_field_zero (f : string) :
  default 0 (count <$> fields empty_tree !! f) = 0 ∧
  default 0 (instances <$> fields empty_tree !! f) = 0.
Proof.
  change (fields empty_tree) with empty_fields.
  destruct (empty_fields !! f) as [fs|] eqn:E; [|done].
  apply empty_fields_lookup in E as (st & _ & ->). done.
Qed.

Lemma empty_tree_subfield (f sf : string) (x : SubfieldStats) :
  subfield_of empty_tree f sf = Some x →
  sub_count x = 0 ∧ sub_instances x = 0 ∧
  ∀ vm v n, values x = Some vm → vm !! v = Some n → n = 0.
Proof.
  unfold subfield_of. destruct (fields empty_tree !! f) as [fs|] eqn:E; [|done].
  apply empty_fields_lookup in E as (st & _ & ->).
  unfold create_empty_field_stats. cbn [subfields].
  destruct (assoc f SUBFIELD_STATS) as [cfg|]; simpl; [|done]. intros Hx.
  apply empty_subfields_lookup in Hx as [Hx|(_ & _ & H1 & H2 & _ & H3)];
    [by rewrite lookup_empty in Hx|done].
Qed.

Lemma empty_tree_subfield_zero (f sf : string) :
  default 0 (sub_count <$> subfield_of empty_tree f sf) = 0 ∧
  default 0 (sub_instances <$> subfield_of empty_tree f sf) = 0.
Proof.
  destruct (subfield_of empty_tree f sf) as [x|] eqn:E; [|done].
  apply empty_tree_subfield in E as (E1 & E2 & _). simpl. by rewrite E1, E2.
Qed.

Lemma empty_tree_value_zero (f sf v : string) :
  default 0 (value_counter empty_tree f sf v) = 0.
Proof.
  unfold value_counter.
  destruct (subfield_of empty_tree f sf) as [x|] eqn:E; [|done]. simpl.
  apply empty_tree_subfield in E as (_ & _ & H).
  destruct (values x) as [vm|] eqn:Hv; [|done]. simpl.
  destruct (vm !! v) as [n|] eqn:Hn; [|done]. simpl. by apply (H vm v n).
Qed.

(** What is true of the empty-merge identity: merging an object built from
    the schema with the empty object keeps the record count and every
    counter of the summary (field counts and instances, statuses, subfield
    counts and instances, value counters); only [missing] and
    [completeness] are recomputed against the record count. *)
Theorem merge_with_empty_keeps_counters (s : Stats) :
  built s →
  let t := summary s in
  let m := summary (merge_stats s create_empty_stats) in
  tree_count m = tree_count t ∧
  ∀ f fs, fields t !! f = Some fs →
    ∃ fm, fields m !! f = Some fm ∧
      count fm = count fs ∧ instances fm = instances fs ∧
      fieldStatus fm = fieldStatus fs ∧ missing fm = tree_count t - count fs ∧
      ∀ sf x, subfield_of t f sf = Some x →
        ∃ xm, subfield_of m f sf = Some xm ∧
          sub_count xm = sub_count x ∧ sub_instances xm = sub_instances x ∧
          sub_missing xm = tree_count t - sub_count x ∧
          ∀ v n, value_counter t f sf v = Some n → value_counter m f sf v = Some n.
Proof.
  intros Hs t m.
  destruct (built_inv s Hs) as (It & _).
  destruct create_empty_stats_inv as (Ie & _).
  change (summary create_empty_stats) with empty_tree in Ie.
  pose proof (merged_tree_spec (summary s) empty_tree It Ie) as Hspec.
  cbv zeta in Hspec. unfold merged_from in Hspec.
  unfold m, t, merge_stats. cbn [summary].
  change (summary create_empty_stats) with empty_tree.
  set (mt := {| tree_count := tree_count (summary s) + tree_count empty_tree;
                fields := merge_fields (fields (summary s)) (fields empty_tree);
                categories := calculate_category_metrics
                                (merge_fields (fields (summary s)) (fields empty_tree))
                                (tree_count (summary s) + tree_count empty_tree) |}) in *.
  destruct Hspec as [Hc Hf].
  assert (tree_count mt = tree_count (summary s)) as Hcount.
  { rewrite Hc. change (tree_count empty_tree) with 0. lia. }
  split; [done|].
  intros f fs Hfs. destruct (Hf f) as (fm & Hfm & H1 & H2 & H3 & _ & H5 & H6).
  { left. by eexists. }
  exists fm. rewrite Hfs in H1, H2.
  change (default 0 (count <$> Some fs)) with (count fs) in H1.
  change (default 0 (instances <$> Some fs)) with (instances fs) in H2.
  destruct (empty_tree_field_zero f) as [Z1 Z2]. rewrite Z1 in H1. rewrite Z2 in H2.
  split; [done|]. split; [lia|]. split; [lia|]. split; [apply H5; by left|].
  split; [rewrite H3, Hcount; lia|].
  intros sf x Hx. destruct (H6 sf) as (xm & Hxm & S1 & S2 & S3 & _ & S5).
  { left. by eexists. }
  exists xm. rewrite Hx in S1, S2.
  change (default 0 (sub_count <$> Some x)) with (sub_count x) in S1.
  change (default 0 (sub_instances <$> Some x)) with (sub_instances x) in S2.
  destruct (empty_tree_subfield_zero f sf) as [Y1 Y2]. rewrite Y1 in S1. rewrite Y2 in S2.
  split; [done|]. split; [lia|]. split; [lia|]. split; [rewrite S3, Hcount; lia|].
  intros v n Hv. rewrite S5 by (left; by eexists).
  rewrite Hv, empty_tree_value_zero. change (default 0 (Some n)) with n. f_equal. lia.
Qed.

Lemma merge_with_empty_example :
  tree_count (summary (merge_stats
                         (update_stats_single_record (normalised item_without_creators)
                            create_empty_stats).1
                         create_empty_stats))
  = tree_count (summary (update_stats_single_record (normalised item_without_creators)
                           create_empty_stats).1).
Proof.
  apply (merge_with_empty_keeps_counters
           (update_stats_single_record (normalised item_without_creators)
              create_empty_stats).1).
  apply built_update, built_empty.
Defined.

(** ** The aggregate entities *)

Lemma dict_get_dict_set_ne {K V : Type} `{EqDecision K} (k k' : K) (v : V) (d : list (K * V)) :
  k' ≠ k → dict_get k' (dict_set k v d) = dict_get k' d.
Proof.
  intros Hne. induction d as [|[k0 v0] r IH]; simpl.
  - by rewrite decide_False.
  - destruct (decide (k = k0)) as [->|Hk]; simpl.
    + by rewrite !decide_False.
    + destruct (decide (k' = k0)); [done|apply IH].
Qed.

Lemma aggregate_record_count (d : list (string * Entry)) (s : Stats) :
  tree_count (summary (foldl (λ acc kv, merge_stats acc (stats kv.2)) s d))
  = tree_count (summary s) + sum_Z ((λ kv, tree_count (summary (stats kv.2))) <$> d).
Proof.
  revert s. induction d as [|kv d IH]; intros s; [simpl; lia|].
  cbn [foldl]. rewrite IH. rewrite fmap_cons. cbn [sum_Z foldr summary merge_stats tree_count].
  unfold sum_Z. lia.
Qed.

Lemma aggregate_field_count (d : list (string * Entry)) (s : Stats) (f : string) :
  built s → Forall (λ kv, built (stats kv.2)) d →
  built (foldl (λ acc kv, merge_stats acc (stats kv.2)) s d) ∧
  field_count (summary (foldl (λ acc kv, merge_stats acc (stats kv.2)) s d)) f
  = field_count (summary s) f + sum_Z ((λ kv, field_count (summary (stats kv.2)) f) <$> d).
Proof.
  revert s. induction d as [|kv d IH]; intros s Hs Hd; [split; [done|simpl; lia]|].
  apply Forall_cons in Hd as [Hkv Hd]. cbn [foldl].
  destruct (IH (merge_stats s (stats kv.2))) as [Hb Hc]; [by constructor|done|].
  split; [done|]. rewrite Hc, merge_stats_field_count by (by apply built_inv).
  rewrite fmap_cons. cbn [sum_Z foldr]. unfold sum_Z. lia.
Qed.

(** [create_aggregate_entries] adds the two aggregate entities and leaves
    every other entry alone; the record count of each aggregate is the sum
    of the record counts of the entities it aggregates, and when their
    statistics are objects built from the schema, so is the count of every
    field. *)
Theorem aggregate_counts_are_sums (m : Manager) :
  let m' := create_aggregate_entries m in
  ∃ p c,
    dict_get "aggregate" (providers m') = Some p ∧
    dict_get "aggregate.all" (clients m') = Some c ∧
    (∀ k, k ≠ "aggregate" → dict_get k (providers m') = dict_get k (providers m)) ∧
    (∀ k, k ≠ "aggregate.all" → dict_get k (clients m') = dict_get k (clients m)) ∧
    tree_count (summary (stats p))
    = sum_Z ((λ kv, tree_count (summary (stats kv.2))) <$> providers m) ∧
    tree_count (summary (stats c))
    = sum_Z ((λ kv, tree_count (summary (stats kv.2))) <$> clients m) ∧
    (Forall (λ kv, built (stats kv.2)) (providers m) →
     ∀ f, field_count (summary (stats p)) f
          = sum_Z ((λ kv, field_count (summary (stats kv.2)) f) <$> providers m)) ∧
    (Forall (λ kv, built (stats kv.2)) (clients m) →
     ∀ f, field_count (summary (stats c)) f
          = sum_Z ((λ kv, field_count (summary (stats kv.2)) f) <$> clients m)).
Proof.
  intros m'. unfold m', create_aggregate_entries. cbn [providers clients].
  eexists _, _. split; [apply dict_get_dict_set|]. split; [apply dict_get_dict_set|].
  split; [intros k Hk; by apply dict_get_dict_set_ne|].
  split; [intros k Hk; by apply dict_get_dict_set_ne|].
  cbn [stats]. unfold aggregate_stats.
  split; [rewrite aggregate_record_count; change (tree_count (summary create_empty_stats)) with 0; lia|].
  split; [rewrite aggregate_record_count; change (tree_count (summary create_empty_stats)) with 0; lia|].
  split.
  - intros Hd f. destruct (aggregate_field_count (providers m) create_empty_stats f)
      as [_ ->]; [constructor|done|]. rewrite empty_field_count. lia.
  - intros Hd f. destruct (aggregate_field_count (clients m) create_empty_stats f)
      as [_ ->]; [constructor|done|]. rewrite empty_field_count. lia.
Qed.

Lemma aggregate_example :
  let m := {| providers :=
                [("cern", set_stats (update_stats_single_record
                                       (normalised item_personal_creator)
                                       create_empty_stats).1
                            (initialize_provider_entry JNull))];
              clients := [] |} in
  ∃ p, dict_get "aggregate" (providers (create_aggregate_entries m)) = Some p ∧
       field_count (summary (stats p)) "creators"
       = sum_Z ((λ kv, field_count (summary (stats kv.2)) "creators") <$> providers m).
Proof.
  intros m.
  destruct (aggregate_counts_are_sums m) as (p & c & Hp & _ & _ & _ & _ & _ & Hf & _).
  exists p. split; [exact Hp|]. apply Hf.
  unfold m. cbn [providers]. constructor; [|constructor].
  cbn [snd stats set_stats]. apply built_update, built_empty.
Defined.
